(** * veriglob-core: identifiers, credentials, presentations, revocation

    A shallow embedding of the Go packages [did], [resolver], [vc],
    [presentation] and [revocation], and the properties their
    specification states about them.

    Conventions.
    - A Go [string] is a sequence of bytes: Rocq's [string].
    - A Go [[]byte] is a [list byte].
    - A Go [(T, error)] result is a [result E T].
    - [time.Time] is an instant counted in nanoseconds ([Z]); every call of
      [time.Now()] is an explicit argument of the function that makes it.
    - A string that travels in a token goes through [encoding/json], which
      writes U+FFFD for every byte that is not part of a well-formed UTF-8
      sequence ([json.coerce]); valid UTF-8 comes back unchanged.
    - Third-party packages ([mr-tron/base58], [go-paseto], [crypto/ed25519])
      are not part of the repository: base58 is given by its defining
      equations, the token package by its documented behaviour, with the
      signing core and Ed25519 behind a contract (class [paseto.Platform]). *)

From Stdlib Require Import ZArith NArith List String Ascii Lia.
From Stdlib.Strings Require Import Byte.
From stdpp Require Import base tactics option list strings gmap countable.

Local Open Scope string_scope.
Local Open Scope list_scope.

(** ** Results *)

Inductive result (E A : Type) : Type :=
| Ok (a : A)
| Err (e : E).
Arguments Ok {E A} a.
Arguments Err {E A} e.

Definition is_ok {E A} (r : result E A) : bool :=
  match r with Ok _ => true | Err _ => false end.

#[global] Instance result_ret {E} : MRet (result E) := fun _ a => Ok a.
#[global] Instance result_bind {E} : MBind (result E) := fun _ _ k r =>
  match r with
  | Ok a => k a
  | Err e => Err e
  end.

Definition bytes := list byte.

Definition byte_of_N (n : N) : byte :=
  match Byte.of_N n with
  | Some b => b
  | None => x00
  end.

(** ** Positional numerals

    Base58 is a change of radix between base 256 (big-endian bytes) and
    base 58; the two directions share these definitions. *)

Module Radix.

(** Horner evaluation of a big-endian digit list. *)
Definition from_digits (b : N) (ds : list N) : N :=
  fold_left (fun acc d => acc * b + d)%N ds 0%N.

(** Digits of [n], most significant first; [n = 0] has no digit. *)
Fixpoint to_digits_aux (fuel : nat) (b n : N) (acc : list N) : list N :=
  match fuel with
  | O => acc
  | S fuel' =>
      if (n =? 0)%N then acc
      else to_digits_aux fuel' b (n / b)%N ((n mod b)%N :: acc)
  end.

Definition to_digits (b n : N) : list N :=
  to_digits_aux (N.to_nat (N.size n)) b n [].

(** Number of leading zero digits. *)
Fixpoint leading_zeros (ds : list N) : nat :=
  match ds with
  | d :: ds' => if (d =? 0)%N then S (leading_zeros ds') else O
  | [] => O
  end.

(** A numeral is normal when its digits are in range and the first one is
    not zero. *)
Definition normal (b : N) (ds : list N) : Prop :=
  Forall (fun d => (d < b)%N) ds /\ hd_error ds <> Some 0%N.

(** Little-endian counterparts, used in the proofs. *)
Fixpoint val_le (b : N) (ds : list N) : N :=
  match ds with
  | [] => 0%N
  | d :: ds' => (d + b * val_le b ds')%N
  end.

Fixpoint to_le (fuel : nat) (b n : N) : list N :=
  match fuel with
  | O => []
  | S fuel' =>
      if (n =? 0)%N then [] else (n mod b)%N :: to_le fuel' b (n / b)%N
  end.

(** Little-endian normal form: digits in range, last one not zero. *)
Definition normal_le (b : N) (ds : list N) : Prop :=
  Forall (fun d => (d < b)%N) ds /\ list.last ds <> Some 0%N.

End Radix.

(** ** Package [base58] (github.com/mr-tron/base58)

    The Bitcoin base58 code: the input bytes are read as one big-endian
    number, written in radix 58 over [BTCAlphabet]; each leading zero byte is
    kept as one leading ['1'].  [Decode] rejects the empty string, and stops
    at the first character that is not ASCII or not in the alphabet. *)

Module base58.

Definition BTCAlphabet : string :=
  "123456789ABCDEFGHJKLMNPQRSTUVWXYZabcdefghijkmnopqrstuvwxyz".

Inductive error : Type :=
| ErrZeroLength                (* "zero length string" *)
| ErrHighBit                   (* "high-bit set on invalid digit" *)
| ErrInvalidDigit (c : ascii). (* "invalid base58 digit" *)

Fixpoint index (c : ascii) (s : string) : option N :=
  match s with
  | EmptyString => None
  | String c' s' => if Ascii.eqb c c' then Some 0%N else N.succ <$> index c s'
  end.

Definition digit_of_char (c : ascii) : option N := index c BTCAlphabet.

Definition char_of_digit (d : N) : ascii :=
  match String.get (N.to_nat d) BTCAlphabet with
  | Some c => c
  | None => "1"%char
  end.

(** The radix-58 digits that [Encode] writes for the bytes [bin]. *)
Definition encoded_digits (bin : bytes) : list N :=
  let ds := map Byte.to_N bin in
  replicate (Radix.leading_zeros ds) 0%N ++
  Radix.to_digits 58 (Radix.from_digits 256 ds).

Definition Encode (bin : bytes) : string :=
  string_of_list_ascii (map char_of_digit (encoded_digits bin)).

Fixpoint digits_of (cs : list ascii) : result error (list N) :=
  match cs with
  | [] => Ok []
  | c :: cs' =>
      if (127 <? N_of_ascii c)%N then Err ErrHighBit
      else match digit_of_char c with
           | None => Err (ErrInvalidDigit c)
           | Some d => ds ← digits_of cs'; Ok (d :: ds)
           end
  end.

Definition Decode (str : string) : result error bytes :=
  if (String.length str =? 0)%nat then Err ErrZeroLength
  else
    ds ← digits_of (list_ascii_of_string str);
    Ok (map byte_of_N
          (replicate (Radix.leading_zeros ds) 0%N ++
           Radix.to_digits 256 (Radix.from_digits 58 ds))).

(** A check of the alphabet table: digit [d] is written as a character
    that reads back as [d], is ASCII and is not the colon. *)
Definition digit_check (d : N) : bool :=
  match digit_of_char (char_of_digit d) with
  | Some d' => (d' =? d)%N
  | None => false
  end
  && (N_of_ascii (char_of_digit d) <=? 127)%N
  && negb (Ascii.eqb (char_of_digit d) ":").

End base58.

(** ** Package [did] *)

Module did.

(** Multicodec prefix for Ed25519 public key (0xed01) *)
Definition ed25519Multicodec : bytes := [xed; x01].

Record VerificationMethod : Type := {
  vm_ID : string;
  vm_Type : string;
  vm_Controller : string;
  vm_PublicKeyBase58 : string;
}.

Record DIDDocument : Type := {
  doc_Context : list string;
  doc_ID : string;
  doc_VerificationMethod : list VerificationMethod;
  doc_Authentication : list string;
  doc_AssertionMethod : list string;
}.

Record DIDKey : Type := {
  DID : string;
  PublicKey : bytes;
  DIDDocument_of : DIDDocument;
}.

(** [CreateDIDKey] has no failing path: its error is always [nil]. *)
Definition CreateDIDKey (pub : bytes) : result string DIDKey :=
  let prefixedKey := ed25519Multicodec ++ pub in
  let encoded := "z" +:+ base58.Encode prefixedKey in
  let did := "did:key:" +:+ encoded in
  let vmID := did +:+ "#key-1" in
  let doc := {|
    doc_Context := ["https://www.w3.org/ns/did/v1"];
    doc_ID := did;
    doc_VerificationMethod := [
      {| vm_ID := vmID;
         vm_Type := "Ed25519VerificationKey2018";
         vm_Controller := did;
         vm_PublicKeyBase58 := base58.Encode pub |} ];
    doc_Authentication := [vmID];
    doc_AssertionMethod := [vmID];
  |} in
  Ok {| DID := did; PublicKey := pub; DIDDocument_of := doc |}.

End did.

(** ** Package [resolver] *)

Module resolver.

Inductive error : Type :=
| ErrInvalidDID          (* "invalid DID format" *)
| ErrUnsupportedMethod   (* "unsupported DID method" *)
| ErrInvalidMulticodec   (* "invalid multicodec prefix" *)
| ErrInvalidKeyLength    (* "invalid public key length" *)
| ErrBase58 (e : base58.error). (* the decoder's own error, passed on *)

Definition ed25519Multicodec : bytes := [xed; x01].

(** [ed25519.PublicKeySize] *)
Definition PublicKeySize : nat := 32.

(** [strings.Split(s, sep)] for a one-byte separator, the only way the
    package calls it.  The result is never empty. *)
Fixpoint Split (s : string) (sep : ascii) : list string :=
  match s with
  | EmptyString => [EmptyString]
  | String c s' =>
      if Ascii.eqb c sep then EmptyString :: Split s' sep
      else match Split s' sep with
           | p :: ps => String c p :: ps
           | [] => [String c EmptyString]
           end
  end.

(** A string in which the separator does not occur. *)
Definition no_sep (sep : ascii) (s : string) : Prop :=
  Forall (fun c => c <> sep) (list_ascii_of_string s).

(** [s[i]] and [s[i:]] on strings, [b[i]] and [b[i:]] on byte slices; the
    callers check the bounds first, as the source does. *)
Definition char_at (s : string) (i : nat) : ascii :=
  match String.get i s with Some c => c | None => zero end.

Definition string_from (i : nat) (s : string) : string :=
  substring i (String.length s - i) s.

Definition byte_at (b : bytes) (i : nat) : byte := nth i b x00.

Definition resolveKey (identifier : string) : result error bytes :=
  (* did:key uses multibase encoding with 'z' prefix (base58btc) *)
  if (String.length identifier =? 0)%nat
     || negb (Ascii.eqb (char_at identifier 0) "z")
  then Err ErrInvalidDID
  else
    (* Decode base58 (skip the 'z' prefix) *)
    match base58.Decode (string_from 1 identifier) with
    | Err e => Err (ErrBase58 e)
    | Ok decoded =>
        (* Check multicodec prefix (0xed01 for Ed25519) *)
        if (length decoded <? 2)%nat then Err ErrInvalidMulticodec
        else if negb (Byte.eqb (byte_at decoded 0) (byte_at ed25519Multicodec 0))
                || negb (Byte.eqb (byte_at decoded 1) (byte_at ed25519Multicodec 1))
        then Err ErrInvalidMulticodec
        else
          (* Extract public key (skip the 2-byte multicodec prefix) *)
          let pubKeyBytes := drop 2 decoded in
          if negb (length pubKeyBytes =? PublicKeySize)%nat
          then Err ErrInvalidKeyLength
          else Ok pubKeyBytes
    end.

Definition Resolve (did : string) : result error bytes :=
  let parts := Split did ":" in
  if (length parts <? 3)%nat then Err ErrInvalidDID
  else if negb (String.eqb (nth 0 parts EmptyString) "did")
  then Err ErrInvalidDID
  else
    let method := nth 1 parts EmptyString in
    if String.eqb method "key" then resolveKey (nth 2 parts EmptyString)
    else Err ErrUnsupportedMethod.

(** [ResolveDID] creates a resolver and resolves; the resolver is an empty
    struct. *)
Definition ResolveDID (did : string) : result error bytes := Resolve did.

End resolver.

(** ** Time

    A [time.Time] is an instant, counted in nanoseconds from the zero
    [Time]; a [time.Duration] is a number of nanoseconds. *)

Definition Time : Type := Z.
Definition Duration : Type := Z.

Module time.

Definition Second : Duration := 1000000000%Z.
Definition Minute : Duration := (60 * Second)%Z.
Definition Hour : Duration := (60 * Minute)%Z.

Definition zero : Time := 0%Z.
Definition Add (t : Time) (d : Duration) : Time := (t + d)%Z.
Definition After (t u : Time) : bool := (u <? t)%Z.
Definition Before (t u : Time) : bool := (t <? u)%Z.
Definition IsZero (t : Time) : bool := (t =? 0)%Z.

End time.

(** ** Package [revocation]

    The registry holds [map[string]*Entry]: the map values are pointers, and
    [CheckStatus], [ListByIssuer] and [ListBySubject] hand those very
    pointers to the caller.  The entries therefore live in a heap of cells,
    the map sends a credential id to the address of its cell, and a caller
    holding an address can write to the cell ([poke]). *)

Module revocation.

Inductive error : Type :=
| ErrCredentialNotFound   (* "credential not found in registry" *)
| ErrAlreadyRevoked       (* "credential already revoked" *)
| ErrPersist (msg : string) (* the error of json.MarshalIndent or os.WriteFile *)
| PanicNilEntry.          (* run-time panic: a map value that is a nil pointer
                             (an entry read as JSON null) is dereferenced *)

(** [type Status string] *)
Definition Status : Type := string.
Definition StatusActive : Status := "active".
Definition StatusRevoked : Status := "revoked".

Record Entry : Type := {
  CredentialID : string;
  IssuerDID : string;
  SubjectDID : string;
  Status_of : Status;
  IssuedAt : Time;
  RevokedAt : Time;
  Reason : string;
}.

(** [*Entry] *)
Definition ptr : Type := positive.

(** The registry ([entries], [path]) together with the heap its pointers
    point into.  The mutex is not modelled: every operation below runs from
    lock to unlock as one step. *)
Record Registry : Type := {
  heap : gmap ptr Entry;
  entries : gmap string ptr;
  path : string;
}.

(** No map value is a nil pointer. *)
Definition well_formed (r : Registry) : Prop :=
  forall id p, entries r !! id = Some p -> is_Some (heap r !! p).

(** The entry stored under a credential id. *)
Definition stored (r : Registry) (id : string) : option Entry :=
  p ← entries r !! id; heap r !! p.

(** A write of the caller through a pointer it holds: [*p = e]. *)
Definition poke (p : ptr) (e : Entry) (r : Registry) : Registry :=
  {| heap := <[p := e]> (heap r); entries := entries r; path := path r |}.

(** [NewRegistry] *)
Definition NewRegistry : Registry :=
  {| heap := ∅; entries := ∅; path := EmptyString |}.

(** [NewRegistryWithFile] when nothing is to be loaded (no file at [path]
    yet, or an empty one): an empty registry that persists to [path].  The
    branch that decodes an existing file is outside this development. *)
Definition NewRegistryWithFile_fresh (path : string) : Registry :=
  {| heap := ∅; entries := ∅; path := path |}.

(** [save]: nothing to do without a path; otherwise the whole map is written
    to the file, and [io] is the error of that write ([None] when it
    succeeds). *)
Definition save (io : option string) (r : Registry) : result error unit :=
  if String.eqb (path r) EmptyString then Ok tt
  else match io with
       | None => Ok tt
       | Some msg => Err (ErrPersist msg)
       end.

(** [&Entry{...}]: a cell that is not in use yet. *)
Definition new_cell (r : Registry) : ptr := fresh (dom (heap r)).

Definition Register (credentialID issuerDID subjectDID : string)
    (now : Time) (io : option string) (r : Registry)
  : result error unit * Registry :=
  let p := new_cell r in
  let r' := {|
    heap := <[p := {| CredentialID := credentialID;
                      IssuerDID := issuerDID;
                      SubjectDID := subjectDID;
                      Status_of := StatusActive;
                      IssuedAt := now;
                      RevokedAt := time.zero;
                      Reason := EmptyString |}]> (heap r);
    entries := <[credentialID := p]> (entries r);
    path := path r |} in
  (save io r', r').

(** [entry.Status = StatusRevoked; entry.RevokedAt = now; entry.Reason = reason] *)
Definition revoked_entry (e : Entry) (now : Time) (reason : string) : Entry :=
  {| CredentialID := CredentialID e;
     IssuerDID := IssuerDID e;
     SubjectDID := SubjectDID e;
     Status_of := StatusRevoked;
     IssuedAt := IssuedAt e;
     RevokedAt := now;
     Reason := reason |}.

Definition Revoke (credentialID reason : string)
    (now : Time) (io : option string) (r : Registry)
  : result error unit * Registry :=
  match entries r !! credentialID with
  | None => (Err ErrCredentialNotFound, r)
  | Some p =>
      match heap r !! p with
      | None => (Err PanicNilEntry, r)
      | Some entry =>
          if String.eqb (Status_of entry) StatusRevoked
          then (Err ErrAlreadyRevoked, r)
          else
            let r' := poke p (revoked_entry entry now reason) r in
            (save io r', r')
      end
  end.

(** The ways [Revoke] can go. *)
Inductive Revoke_spec (id reason : string) (now : Time) (io : option string)
    (r : Registry) : result error unit * Registry -> Prop :=
| Revoke_not_found :
    entries r !! id = None ->
    Revoke_spec id reason now io r (Err ErrCredentialNotFound, r)
| Revoke_nil p :
    entries r !! id = Some p -> heap r !! p = None ->
    Revoke_spec id reason now io r (Err PanicNilEntry, r)
| Revoke_already p e :
    entries r !! id = Some p -> heap r !! p = Some e ->
    Status_of e = StatusRevoked ->
    Revoke_spec id reason now io r (Err ErrAlreadyRevoked, r)
| Revoke_done p e :
    entries r !! id = Some p -> heap r !! p = Some e ->
    Status_of e <> StatusRevoked ->
    let r' := poke p (revoked_entry e now reason) r in
    Revoke_spec id reason now io r (save io r', r').

(** [CheckStatus] returns [entry], the map value itself. *)
Definition CheckStatus (credentialID : string) (r : Registry)
  : result error ptr :=
  match entries r !! credentialID with
  | None => Err ErrCredentialNotFound
  | Some entry => Ok entry
  end.

Definition IsRevoked (credentialID : string) (r : Registry)
  : result error bool :=
  match CheckStatus credentialID r with
  | Err err => Err err
  | Ok entry =>
      match heap r !! entry with
      | None => Err PanicNilEntry
      | Some e => Ok (String.eqb (Status_of e) StatusRevoked)
      end
  end.

(** The two listings range over the map; Go fixes no order for that, here
    it is the order of [map_to_list]. *)
Definition list_by (field : Entry -> string) (wanted : string) (r : Registry)
  : result error (list ptr) :=
  foldr (fun '(_, entry) acc =>
           results ← acc;
           match heap r !! entry with
           | None => Err PanicNilEntry
           | Some e =>
               if String.eqb (field e) wanted then Ok (entry :: results)
               else Ok results
           end)
        (Ok []) (map_to_list (entries r)).

Definition ListByIssuer (issuerDID : string) (r : Registry)
  : result error (list ptr) := list_by IssuerDID issuerDID r.

Definition ListBySubject (subjectDID : string) (r : Registry)
  : result error (list ptr) := list_by SubjectDID subjectDID r.


(** *** Sequences of registry operations *)

Inductive op : Type :=
| OpRegister (credentialID issuerDID subjectDID : string)
    (now : Time) (io : option string)
| OpRevoke (credentialID reason : string) (now : Time) (io : option string)
| OpCheckStatus (credentialID : string)
| OpIsRevoked (credentialID : string)
| OpListByIssuer (issuerDID : string)
| OpListBySubject (subjectDID : string).

(** The registry after one operation; the four queries leave it as it is. *)
Definition step (r : Registry) (o : op) : Registry :=
  match o with
  | OpRegister id iss sub now io => snd (Register id iss sub now io r)
  | OpRevoke id reason now io => snd (Revoke id reason now io r)
  | OpCheckStatus _ | OpIsRevoked _ | OpListByIssuer _ | OpListBySubject _ => r
  end.

Definition run (ops : list op) (r : Registry) : Registry :=
  fold_left step ops r.

Definition registers (id : string) (o : op) : bool :=
  match o with
  | OpRegister id' _ _ _ _ => String.eqb id' id
  | _ => false
  end.

Definition status_is (r : Registry) (id : string) (st : Status) : Prop :=
  exists e, stored r id = Some e /\ Status_of e = st.

(** The entry stored under a key carries that key as its credential id. *)
Definition keyed (r : Registry) : Prop :=
  forall id e, stored r id = Some e -> CredentialID e = id.

End revocation.

(** ** JSON values

    What [encoding/json] reads and writes, as values rather than text.  An
    object keeps its members in the order they are written; the objects built
    below have distinct keys, and are read back by the exact names of their
    members.  A number is an integer: the only numbers written below. *)

Module json.

#[warnings="-register-all"]
Inductive value : Type :=
| Null
| Bool (b : bool)
| Number (n : Z)
| Str (s : string)
| Array (items : list value)
| Object (members : list (string * value)).

(** *** Strings

    The encoder walks a Go string rune by rune ([utf8.DecodeRuneInString]):
    a byte below 0x80 stands for itself, a well-formed sequence of two,
    three or four bytes is copied, and any other byte is written as the
    escape of U+FFFD.  The escapes it writes for some characters read back
    as those characters, so what a reader of the JSON text gets is the
    string with each such byte replaced by the three bytes of U+FFFD. *)

Definition between (lo hi : N) (c : ascii) : bool :=
  ((lo <=? N_of_ascii c) && (N_of_ascii c <=? hi))%N.

(** A continuation byte: 0x80 to 0xBF. *)
Definition continuation (c : ascii) : bool := between 128 191 c.

(** The size of the well-formed sequence that starts with the byte [c]
    followed by [rest]; 0 when there is none (the decoder's
    [RuneError, 1]). *)
Definition rune_size (c : ascii) (rest : string) : nat :=
  let b := N_of_ascii c in
  if (b <? 128)%N then 1
  else if (b <? 194)%N then 0
  else if (b <? 224)%N then
    match rest with
    | String c1 _ => if continuation c1 then 2 else 0
    | _ => 0
    end
  else if (b <? 240)%N then
    let lo := if (b =? 224)%N then 160%N else 128%N in
    let hi := if (b =? 237)%N then 159%N else 191%N in
    match rest with
    | String c1 (String c2 _) =>
        if between lo hi c1 && continuation c2 then 3 else 0
    | _ => 0
    end
  else if (b <? 245)%N then
    let lo := if (b =? 240)%N then 144%N else 128%N in
    let hi := if (b =? 244)%N then 143%N else 191%N in
    match rest with
    | String c1 (String c2 (String c3 _)) =>
        if between lo hi c1 && continuation c2 && continuation c3 then 4
        else 0
    | _ => 0
    end
  else 0.

(** U+FFFD in UTF-8: EF BF BD. *)
Definition replacement : string :=
  String (ascii_of_N 239) (String (ascii_of_N 191)
    (String (ascii_of_N 189) EmptyString)).

(** [inside] counts the bytes still to copy of the sequence under way. *)
Fixpoint coerce_from (s : string) (inside : nat) : string :=
  match s with
  | EmptyString => EmptyString
  | String c rest =>
      match inside with
      | S k => String c (coerce_from rest k)
      | O =>
          match rune_size c rest with
          | O => replacement +:+ coerce_from rest 0
          | S k => String c (coerce_from rest k)
          end
      end
  end.

(** A Go string as it comes back from its JSON encoding. *)
Definition coerce (s : string) : string := coerce_from s 0.

(** [utf8.ValidString] *)
Definition ValidString (s : string) : bool := String.eqb (coerce s) s.

(** [json.Marshal] of a Go [string] and of a [[]string]. *)
Definition string_ (s : string) : value := Str (coerce s).

Definition strings (l : list string) : value := Array (map string_ l).

(** Go's [int], 64 bits wide: the integer a field of that type holds. *)
Definition int (n : Z) : Z := ((n + 2 ^ 63) mod 2 ^ 64 - 2 ^ 63)%Z.

(** A struct field written always, and one tagged [omitempty]. *)
Definition member (key : string) (v : value) : list (string * value) :=
  [(key, v)].

Definition omitempty_string (key s : string) : list (string * value) :=
  if String.eqb s EmptyString then [] else [(key, string_ s)].

Definition omitempty_int (key : string) (n : Z) : list (string * value) :=
  if (int n =? 0)%Z then [] else [(key, Number (int n))].

Definition omitempty_strings (key : string) (l : list string)
  : list (string * value) :=
  match l with
  | [] => []
  | _ => [(key, strings l)]
  end.

Fixpoint lookup (key : string) (members : list (string * value))
  : option value :=
  match members with
  | [] => None
  | (k, v) :: rest => if String.eqb k key then Some v else lookup key rest
  end.

(** Decoding into a Go [string]: a JSON string, or [null], which leaves the
    zero value; anything else is a type error ([None]). *)
Definition to_string (v : value) : option string :=
  match v with
  | Str s => Some s
  | Null => Some EmptyString
  | _ => None
  end.

(** Decoding into a Go [[]string]. *)
Definition to_strings (v : value) : option (list string) :=
  match v with
  | Array items => mapM to_string items
  | Null => Some []
  | _ => None
  end.

(** Decoding one field of a struct: a missing member leaves the field at
    its zero value. *)
Definition field {A} (dec : value -> option A) (zero : A) (key : string)
    (members : list (string * value)) : option A :=
  match lookup key members with
  | None => Some zero
  | Some v => dec v
  end.

(** *** Decoding into [interface{}]

    A number becomes a [float64], an array a [[]interface{}], an object a
    [map[string]interface{}].  The result is written as a [value] again: a
    number is the integer the [float64] holds, and a map is the [Object] of
    its members in the order of their keys, the order in which
    [json.Marshal] writes a map. *)

(** The [float64] nearest to an integer, ties to even ([strconv.ParseFloat]);
    [None] when it is out of range. *)
Definition float64 (n : Z) : option Z :=
  let a := Z.abs n in
  let excess := (Z.log2 a + 1 - 53)%Z in
  let r :=
    if (excess <=? 0)%Z then a
    else
      let unit := (2 ^ excess)%Z in
      let q := (a / unit)%Z in
      let rem := (a mod unit)%Z in
      let half := (unit / 2)%Z in
      let q' := if (half <? rem)%Z || ((rem =? half)%Z && Z.odd q)
                then (q + 1)%Z else q in
      (q' * unit)%Z in
  if (1024 <=? Z.log2 r)%Z then None else Some (Z.sgn n * r)%Z.

(** [m[k] = v] on a map kept in the order of its keys. *)
Fixpoint store (k : string) (v : value) (m : list (string * value))
  : list (string * value) :=
  match m with
  | [] => [(k, v)]
  | (k', v') :: rest =>
      match String.compare k k' with
      | Lt => (k, v) :: m
      | Eq => (k, v) :: rest
      | Gt => (k', v') :: store k v rest
      end
  end.

Definition decode_items (dec : value -> option value)
  : list value -> option (list value) :=
  fix go (l : list value) : option (list value) :=
    match l with
    | [] => Some []
    | x :: l' => x' ← dec x; r ← go l'; Some (x' :: r)
    end.

(** The members are decoded in the order they are written; a member whose
    key was met before overwrites. *)
Definition decode_members (dec : value -> option value)
  : list (string * value) -> list (string * value) ->
    option (list (string * value)) :=
  fix go (l acc : list (string * value)) : option (list (string * value)) :=
    match l with
    | [] => Some acc
    | kv :: l' => x' ← dec (snd kv); go l' (store (fst kv) x' acc)
    end.

Fixpoint to_interface (v : value) : option value :=
  match v with
  | Null => Some Null
  | Bool b => Some (Bool b)
  | Number n => Number <$> float64 n
  | Str s => Some (Str s)
  | Array items => Array <$> decode_items to_interface items
  | Object members => Object <$> decode_members to_interface members []
  end.

(** [json.Marshal] of a value held in an [interface{}]: a string is written
    as every string is, a map in the order of its keys. *)
Fixpoint marshal_interface (v : value) : value :=
  match v with
  | Str s => string_ s
  | Array items => Array (map marshal_interface items)
  | Object members =>
      Object (map (fun kv => (coerce (fst kv), marshal_interface (snd kv)))
                members)
  | _ => v
  end.

End json.

(** ** Package [hex] *)

Module hex.

Definition hextable : string := "0123456789abcdef".

Definition digit (n : N) : ascii :=
  match String.get (N.to_nat n) hextable with
  | Some c => c
  | None => "0"%char
  end.

Fixpoint EncodeToString (src : bytes) : string :=
  match src with
  | [] => EmptyString
  | b :: rest =>
      String (digit (Byte.to_N b / 16)) (String (digit (Byte.to_N b mod 16))
        (EncodeToString rest))
  end.

End hex.

(** ** Package [paseto] (aidanwoods.dev/go-paseto)

    A token is a set of claims, each a JSON value under a name, and a footer.
    The claim accessors, the key constructors and the parser with its rules
    are written out below.  The signing of a token into its
    [v4.public.] string and the checking of such a string are the
    cryptographic core of the package; they, and the RFC 3339 text of an
    instant, enter through the class [Platform], which states the contract
    this development relies on. *)

Module paseto.

Inductive error : Type :=
| ErrKeyLength             (* "Key incorrect length" *)
| ErrKeyInvalid            (* "key was not valid" *)
| ErrMessage               (* the string is not a well-formed v4.public message *)
| ErrSignature             (* the signature does not verify under the key *)
| ErrNoClaim (key : string)    (* "value for key ... not present in claims" *)
| ErrClaimValue (key : string) (* the claim does not decode into the asked type *)
| ErrExpired.              (* rule error: "this token has expired" *)

Record Token : Type := {
  claims : gmap string json.value;
  footer : bytes;
}.

(** An Ed25519 private key is a 32-byte seed followed by the 32-byte public
    key of that seed ([crypto/ed25519]). *)
Definition SeedSize : nat := 32.
Definition PublicKeySize : nat := 32.
Definition PrivateKeySize : nat := 64.

(** [t.Truncate(time.Second)] for the instants considered: RFC 3339 text
    without fraction keeps whole seconds only. *)
Definition whole_seconds (t : Time) : Time :=
  (t / time.Second * time.Second)%Z.

Class Platform : Type := {
  (** [t.Format(time.RFC3339)] and [time.Parse(time.RFC3339, s)] *)
  FormatRFC3339 : Time -> string;
  ParseRFC3339 : string -> option Time;
  parse_format :
    forall t, ParseRFC3339 (FormatRFC3339 t) = Some (whole_seconds t);
  (** RFC 3339 text is ASCII: the JSON encoder leaves it as it is *)
  format_text :
    forall t, json.coerce (FormatRFC3339 t) = FormatRFC3339 t;
  (** the public key that [ed25519] derives from a seed *)
  ed25519_public : bytes -> bytes;
  ed25519_public_size :
    forall seed, length (ed25519_public seed) = PublicKeySize;
  (** [token.V4Sign(key, nil)] on the key material, and the signature check
      and decoding of [parser.ParseV4Public(key, tainted, nil)], before any
      rule is applied *)
  v4_public_sign : bytes -> Token -> string;
  v4_public_open : bytes -> string -> result error Token;
  (** a token signed with a private key opens under its public key, and
      comes back as it was signed ... *)
  v4_open_sign :
    forall seed token,
      length seed = SeedSize ->
      v4_public_open (ed25519_public seed)
        (v4_public_sign (seed ++ ed25519_public seed) token) = Ok token;
  (** ... and under no other public key: the unforgeability of Ed25519
      signatures, taken as exact *)
  v4_open_other_key :
    forall seed token key,
      length seed = SeedSize ->
      length key = PublicKeySize ->
      key <> ed25519_public seed ->
      v4_public_open key
        (v4_public_sign (seed ++ ed25519_public seed) token) = Err ErrSignature;
}.

(** [(pub, priv)] is a key pair as [ed25519.GenerateKey] returns them. *)
Definition KeyPair `{Platform} (pub priv : bytes) : Prop :=
  exists seed,
    length seed = SeedSize /\ pub = ed25519_public seed /\ priv = seed ++ pub.

Record V4AsymmetricSecretKey : Type := { secret_material : bytes }.
Record V4AsymmetricPublicKey : Type := { public_material : bytes }.

(** [subtle.ConstantTimeCompare(a, b) == 1] *)
Fixpoint equal (a b : bytes) : bool :=
  match a, b with
  | [], [] => true
  | x :: a', y :: b' => Byte.eqb x y && equal a' b'
  | _, _ => false
  end.

Definition NewV4AsymmetricPublicKeyFromBytes (publicKey : bytes)
  : result error V4AsymmetricPublicKey :=
  if negb (length publicKey =? PublicKeySize)%nat then Err ErrKeyLength
  else Ok {| public_material := publicKey |}.

(** *** Claims *)

Definition NewToken : Token := {| claims := ∅; footer := [] |}.

(** [Set] stores the JSON encoding of the value; the values stored by this
    development all have one. *)
Definition Set_ (key : string) (v : json.value) (t : Token) : Token :=
  {| claims := <[key := v]> (claims t); footer := footer t |}.

Definition SetString (key value : string) (t : Token) : Token :=
  Set_ key (json.string_ value) t.

Definition Get (key : string) (t : Token) : result error json.value :=
  match claims t !! key with
  | Some v => Ok v
  | None => Err (ErrNoClaim key)
  end.

Definition GetString (key : string) (t : Token) : result error string :=
  v ← Get key t;
  match json.to_string v with
  | Some s => Ok s
  | None => Err (ErrClaimValue key)
  end.

Section with_platform.
Context `{Platform}.

(** The key must be 64 bytes long, and its second half the public key of
    the seed in its first half. *)
Definition NewV4AsymmetricSecretKeyFromBytes (privateKey : bytes)
  : result error V4AsymmetricSecretKey :=
  if negb (length privateKey =? PrivateKeySize)%nat then Err ErrKeyLength
  else if negb (equal (drop SeedSize privateKey)
                  (ed25519_public (take SeedSize privateKey)))
  then Err ErrKeyInvalid
  else Ok {| secret_material := privateKey |}.

Definition SetTime (key : string) (value : Time) (t : Token) : Token :=
  SetString key (FormatRFC3339 value) t.

Definition GetTime (key : string) (t : Token) : result error Time :=
  s ← GetString key t;
  match ParseRFC3339 s with
  | Some value => Ok value
  | None => Err (ErrClaimValue key)
  end.

Definition SetIssuer (iss : string) := SetString "iss" iss.
Definition SetSubject (sub : string) := SetString "sub" sub.
Definition SetAudience (aud : string) := SetString "aud" aud.
Definition SetIssuedAt (iat : Time) := SetTime "iat" iat.
Definition SetExpiration (exp : Time) := SetTime "exp" exp.

Definition GetIssuer := GetString "iss".
Definition GetSubject := GetString "sub".
Definition GetAudience := GetString "aud".
Definition GetIssuedAt := GetTime "iat".
Definition GetExpiration := GetTime "exp".

Definition V4Sign (key : V4AsymmetricSecretKey) (t : Token) : string :=
  v4_public_sign (secret_material key) t.

(** *** Parser and rules *)

Definition Rule : Type := Token -> result error unit.

(** [NotExpired()]: the rule reads the clock when it is made, [now], and
    later compares the token's expiry with that instant. *)
Definition NotExpired (now : Time) : Rule := fun token =>
  exp ← GetExpiration token;
  if time.After now exp then Err ErrExpired else Ok tt.

Record Parser : Type := { rules : list Rule }.

(** [NewParser()] "returns a parser with NotExpired rule preloaded"; [now]
    is the reading of the clock that the rule takes. *)
Definition NewParser (now : Time) : Parser := {| rules := [NotExpired now] |}.

(** [NewParserWithoutExpiryCheck()] *)
Definition NewParserWithoutExpiryCheck : Parser := {| rules := [] |}.

Fixpoint validate (rs : list Rule) (token : Token) : result error Token :=
  match rs with
  | [] => Ok token
  | rule :: rs' =>
      match rule token with
      | Err e => Err e
      | Ok _ => validate rs' token
      end
  end.

Definition ParseV4Public (p : Parser) (key : V4AsymmetricPublicKey)
    (tainted : string) : result error Token :=
  token ← v4_public_open (public_material key) tainted;
  validate (rules p) token.

End with_platform.

(** Reading a claim of a token built by a sequence of [Set_]. *)
Ltac claim_lookup :=
  repeat first
    [ rewrite lookup_insert_eq
    | rewrite lookup_insert_ne by done
    | rewrite lookup_empty ].

End paseto.

(** ** Package [vc] *)

Module vc.

Definition CredentialTypeIdentity : string := "IdentityCredential".
Definition CredentialTypeEducation : string := "EducationCredential".
Definition CredentialTypeEmployment : string := "EmploymentCredential".
Definition CredentialTypeMembership : string := "MembershipCredential".

Record IdentitySubject : Type := {
  id_ID : string;
  id_GivenName : string;
  id_FamilyName : string;
  id_DateOfBirth : string;
  id_Nationality : string;
  id_DocumentType : string;
  id_DocumentID : string;
  id_PlaceOfBirth : string;
  id_Gender : string;
  id_Address : string;
  id_VerifiedAt : string;
  id_VerifiedLevel : string;
}.

Record EducationSubject : Type := {
  edu_ID : string;
  edu_InstitutionName : string;
  edu_InstitutionDID : string;
  edu_Degree : string;
  edu_FieldOfStudy : string;
  edu_GraduationDate : string;
  edu_CertificateName : string;
  edu_CourseName : string;
  edu_CompletionDate : string;
  edu_Grade : string;
  edu_CreditsEarned : Z;
}.

Record EmploymentSubject : Type := {
  emp_ID : string;
  emp_EmployerName : string;
  emp_EmployerDID : string;
  emp_JobTitle : string;
  emp_Department : string;
  emp_StartDate : string;
  emp_EndDate : string;
  emp_EmploymentType : string;
  emp_WorkLocation : string;
  emp_CurrentEmployee : bool;
}.

Record MembershipSubject : Type := {
  mem_ID : string;
  mem_OrganizationName : string;
  mem_OrganizationDID : string;
  mem_MembershipID : string;
  mem_MembershipType : string;
  mem_Role : string;
  mem_Roles : list string;
  mem_AccessLevel : string;
  mem_StartDate : string;
  mem_ExpirationDate : string;
  mem_ActiveMember : bool;
}.

(** [CredentialSubject] is the interface with methods [GetID] and
    [CredentialType]; these four structs implement it. *)
Inductive CredentialSubject : Type :=
| Identity (s : IdentitySubject)
| Education (s : EducationSubject)
| Employment (s : EmploymentSubject)
| Membership (s : MembershipSubject).

Definition GetID (subject : CredentialSubject) : string :=
  match subject with
  | Identity s => id_ID s
  | Education s => edu_ID s
  | Employment s => emp_ID s
  | Membership s => mem_ID s
  end.

Definition CredentialType (subject : CredentialSubject) : string :=
  match subject with
  | Identity _ => CredentialTypeIdentity
  | Education _ => CredentialTypeEducation
  | Employment _ => CredentialTypeEmployment
  | Membership _ => CredentialTypeMembership
  end.

(** [json.Marshal] of a subject, by the struct tags. *)
Definition marshal_subject (subject : CredentialSubject) : json.value :=
  match subject with
  | Identity s => json.Object (
      json.member "id" (json.string_ (id_ID s)) ++
      json.member "givenName" (json.string_ (id_GivenName s)) ++
      json.member "familyName" (json.string_ (id_FamilyName s)) ++
      json.member "dateOfBirth" (json.string_ (id_DateOfBirth s)) ++
      json.omitempty_string "nationality" (id_Nationality s) ++
      json.omitempty_string "documentType" (id_DocumentType s) ++
      json.omitempty_string "documentId" (id_DocumentID s) ++
      json.omitempty_string "placeOfBirth" (id_PlaceOfBirth s) ++
      json.omitempty_string "gender" (id_Gender s) ++
      json.omitempty_string "address" (id_Address s) ++
      json.omitempty_string "verifiedAt" (id_VerifiedAt s) ++
      json.omitempty_string "verifiedLevel" (id_VerifiedLevel s))
  | Education s => json.Object (
      json.member "id" (json.string_ (edu_ID s)) ++
      json.member "institutionName" (json.string_ (edu_InstitutionName s)) ++
      json.omitempty_string "institutionDid" (edu_InstitutionDID s) ++
      json.omitempty_string "degree" (edu_Degree s) ++
      json.omitempty_string "fieldOfStudy" (edu_FieldOfStudy s) ++
      json.omitempty_string "graduationDate" (edu_GraduationDate s) ++
      json.omitempty_string "certificateName" (edu_CertificateName s) ++
      json.omitempty_string "courseName" (edu_CourseName s) ++
      json.omitempty_string "completionDate" (edu_CompletionDate s) ++
      json.omitempty_string "grade" (edu_Grade s) ++
      json.omitempty_int "creditsEarned" (edu_CreditsEarned s))
  | Employment s => json.Object (
      json.member "id" (json.string_ (emp_ID s)) ++
      json.member "employerName" (json.string_ (emp_EmployerName s)) ++
      json.omitempty_string "employerDid" (emp_EmployerDID s) ++
      json.member "jobTitle" (json.string_ (emp_JobTitle s)) ++
      json.omitempty_string "department" (emp_Department s) ++
      json.member "startDate" (json.string_ (emp_StartDate s)) ++
      json.omitempty_string "endDate" (emp_EndDate s) ++
      json.omitempty_string "employmentType" (emp_EmploymentType s) ++
      json.omitempty_string "workLocation" (emp_WorkLocation s) ++
      json.member "currentEmployee" (json.Bool (emp_CurrentEmployee s)))
  | Membership s => json.Object (
      json.member "id" (json.string_ (mem_ID s)) ++
      json.member "organizationName" (json.string_ (mem_OrganizationName s)) ++
      json.omitempty_string "organizationDid" (mem_OrganizationDID s) ++
      json.omitempty_string "membershipId" (mem_MembershipID s) ++
      json.omitempty_string "membershipType" (mem_MembershipType s) ++
      json.omitempty_string "role" (mem_Role s) ++
      json.omitempty_strings "roles" (mem_Roles s) ++
      json.omitempty_string "accessLevel" (mem_AccessLevel s) ++
      json.member "startDate" (json.string_ (mem_StartDate s)) ++
      json.omitempty_string "expirationDate" (mem_ExpirationDate s) ++
      json.member "activeMember" (json.Bool (mem_ActiveMember s)))
  end.

Inductive error : Type :=
| ErrKeyType                  (* "private key must be ed25519.PrivateKey" *)
| ErrPaseto (e : paseto.error).

(** CredentialStatus contains revocation check information *)
Record CredentialStatus : Type := {
  cs_ID : string;
  cs_Type : string;
}.

(** The dynamic values the field [CredentialSubject interface{}] holds: a
    subject struct when a credential is issued, a decoded JSON value after
    verification. *)
Inductive subject_value : Type :=
| SubjectStruct (subject : CredentialSubject)
| SubjectJSON (v : json.value)
| SubjectNil.

(** VerifiableCredential payload *)
Record VerifiableCredential : Type := {
  vc_ID : string;
  vc_Type : list string;
  vc_CredentialSubject : subject_value;
  vc_CredentialStatus : option CredentialStatus;
}.

(** VCClaims represents a PASETO Verifiable Credential *)
Record VCClaims : Type := {
  Issuer : string;
  Subject : string;
  JTI : string;
  IssuedAt : Time;
  ExpiresAt : Time;
  VC : VerifiableCredential;
}.

(** The [privateKey interface{}] argument: an [ed25519.PrivateKey], or a
    value of some other type. *)
Inductive private_key_arg : Type :=
| Ed25519PrivateKey (key : bytes)
| NotAnEd25519Key.

Definition marshal_subject_value (s : subject_value) : json.value :=
  match s with
  | SubjectStruct subject => marshal_subject subject
  | SubjectJSON v => json.marshal_interface v
  | SubjectNil => json.Null
  end.

Definition marshal_CredentialStatus (cs : CredentialStatus) : json.value :=
  json.Object (json.member "id" (json.string_ (cs_ID cs)) ++
               json.member "type" (json.string_ (cs_Type cs))).

(** [json.Marshal(vcClaims.VC)] *)
Definition marshal_VC (c : VerifiableCredential) : json.value :=
  json.Object (
    json.omitempty_string "id" (vc_ID c) ++
    json.member "type" (json.strings (vc_Type c)) ++
    json.member "credentialSubject"
      (marshal_subject_value (vc_CredentialSubject c)) ++
    match vc_CredentialStatus c with
    | Some cs => json.member "credentialStatus" (marshal_CredentialStatus cs)
    | None => []
    end).

Definition unmarshal_CredentialStatus (v : json.value)
  : option (option CredentialStatus) :=
  match v with
  | json.Null => Some None
  | json.Object members =>
      id ← json.field json.to_string EmptyString "id" members;
      type ← json.field json.to_string EmptyString "type" members;
      Some (Some {| cs_ID := id; cs_Type := type |})
  | _ => None
  end.

(** The field is an [interface{}]: the decoder fills it with the value it
    would store in an empty interface. *)
Definition unmarshal_subject_value (v : json.value) : option subject_value :=
  match v with
  | json.Null => Some SubjectNil
  | _ => SubjectJSON <$> json.to_interface v
  end.

Definition zero_VC : VerifiableCredential :=
  {| vc_ID := EmptyString; vc_Type := []; vc_CredentialSubject := SubjectNil;
     vc_CredentialStatus := None |}.

(** [json.Unmarshal] into a [VerifiableCredential] ([None]: a type error). *)
Definition unmarshal_VC (v : json.value) : option VerifiableCredential :=
  match v with
  | json.Null => Some zero_VC
  | json.Object members =>
      id ← json.field json.to_string EmptyString "id" members;
      type ← json.field json.to_strings [] "type" members;
      subject ← json.field unmarshal_subject_value SubjectNil
                  "credentialSubject" members;
      status ← json.field unmarshal_CredentialStatus None
                 "credentialStatus" members;
      Some {| vc_ID := id; vc_Type := type; vc_CredentialSubject := subject;
              vc_CredentialStatus := status |}
  | _ => None
  end.

Definition lift {A} (r : result paseto.error A) : result error A :=
  match r with
  | Ok a => Ok a
  | Err e => Err (ErrPaseto e)
  end.

Section with_platform.
Context `{paseto.Platform}.

(** IssueVCWithID creates and signs a PASETO v4 public Verifiable Credential
    with a specific credential ID.  [now] is the reading of [time.Now()]. *)
Definition IssueVCWithID (issuerDID subjectDID : string)
    (privateKey : private_key_arg) (subject : CredentialSubject)
    (credentialID : string) (now : Time) : result error string :=
  match privateKey with
  | NotAnEd25519Key => Err ErrKeyType
  | Ed25519PrivateKey edKey =>
      secretKey ← lift (paseto.NewV4AsymmetricSecretKeyFromBytes edKey);
      let vc := {| vc_ID := EmptyString;
                   vc_Type := ["VerifiableCredential"; CredentialType subject];
                   vc_CredentialSubject := SubjectStruct subject;
                   vc_CredentialStatus := None |} in
      (* Add credential ID and status if provided *)
      let vc :=
        if negb (String.eqb credentialID EmptyString)
        then {| vc_ID := credentialID;
                vc_Type := vc_Type vc;
                vc_CredentialSubject := vc_CredentialSubject vc;
                vc_CredentialStatus :=
                  Some {| cs_ID := credentialID;
                          cs_Type := "RevocationRegistry2024" |} |}
        else vc in
      let vcClaims := {| Issuer := issuerDID;
                         Subject := subjectDID;
                         JTI := credentialID;
                         IssuedAt := now;
                         ExpiresAt := time.Add now (365 * 24 * time.Hour)%Z;
                         VC := vc |} in
      let token := paseto.NewToken in
      let token := paseto.SetIssuer (Issuer vcClaims) token in
      let token := paseto.SetSubject (Subject vcClaims) token in
      let token := paseto.SetIssuedAt (IssuedAt vcClaims) token in
      let token := paseto.SetExpiration (ExpiresAt vcClaims) token in
      let token :=
        if negb (String.eqb credentialID EmptyString)
        then paseto.SetString "jti" credentialID token
        else token in
      let vcJSON := marshal_VC (VC vcClaims) in
      let token := paseto.Set_ "vc" vcJSON token in
      Ok (paseto.V4Sign secretKey token)
  end.

(** IssueVC creates and signs a PASETO v4 public Verifiable Credential *)
Definition IssueVC (issuerDID subjectDID : string)
    (privateKey : private_key_arg) (subject : CredentialSubject) (now : Time)
  : result error string :=
  IssueVCWithID issuerDID subjectDID privateKey subject EmptyString now.

(** VerifyVC verifies a PASETO v4 public token and returns the claims.
    [now] is the reading of the clock taken by [paseto.NewParser()]. *)
Definition VerifyVC (tokenString : string) (publicKey : bytes) (now : Time)
  : result error VCClaims :=
  pasetoPublicKey ← lift (paseto.NewV4AsymmetricPublicKeyFromBytes publicKey);
  let parser := paseto.NewParser now in
  token ← lift (paseto.ParseV4Public parser pasetoPublicKey tokenString);
  issuer ← lift (paseto.GetIssuer token);
  subject ← lift (paseto.GetSubject token);
  issuedAt ← lift (paseto.GetIssuedAt token);
  expiresAt ← lift (paseto.GetExpiration token);
  (* JTI is optional *)
  let jti := match paseto.GetString "jti" token with
             | Ok s => s
             | Err _ => EmptyString
             end in
  raw ← lift (paseto.Get "vc" token);
  match unmarshal_VC raw with
  | None => Err (ErrPaseto (paseto.ErrClaimValue "vc"))
  | Some vc =>
      Ok {| Issuer := issuer; Subject := subject; JTI := jti;
            IssuedAt := issuedAt; ExpiresAt := expiresAt; VC := vc |}
  end.

(** *** What is signed and what is read back *)

(** The instant a credential issued at [now] expires, as the token carries
    it. *)
Definition credential_expiry (now : Time) : Time :=
  paseto.whole_seconds (time.Add now (365 * 24 * time.Hour)%Z).

(** The payload [IssueVCWithID] signs. *)
Definition issued_VC (subject : CredentialSubject) (credentialID : string)
  : VerifiableCredential :=
  {| vc_ID := credentialID;
     vc_Type := ["VerifiableCredential"; CredentialType subject];
     vc_CredentialSubject := SubjectStruct subject;
     vc_CredentialStatus :=
       if String.eqb credentialID EmptyString then None
       else Some {| cs_ID := credentialID;
                    cs_Type := "RevocationRegistry2024" |} |}.

(** The token [IssueVCWithID] signs. *)
Definition issued_token (issuerDID subjectDID : string)
    (subject : CredentialSubject) (credentialID : string) (now : Time)
  : paseto.Token :=
  let token :=
    paseto.SetExpiration (time.Add now (365 * 24 * time.Hour)%Z)
      (paseto.SetIssuedAt now
         (paseto.SetSubject subjectDID
            (paseto.SetIssuer issuerDID paseto.NewToken))) in
  let token := if String.eqb credentialID EmptyString then token
               else paseto.SetString "jti" credentialID token in
  paseto.Set_ "vc" (marshal_VC (issued_VC subject credentialID)) token.

(** The subject as a verifier gets it: the map that its JSON object
    decodes to. *)
Definition decoded_subject (subject : CredentialSubject) : subject_value :=
  match json.to_interface (marshal_subject subject) with
  | Some v => SubjectJSON v
  | None => SubjectNil
  end.

(** The claims [VerifyVC] returns for it: the strings as the JSON encoder
    wrote them, the subject as a decoded JSON value, the instants in whole
    seconds. *)
Definition verified_claims (issuerDID subjectDID : string)
    (subject : CredentialSubject) (credentialID : string) (now : Time)
  : VCClaims :=
  {| Issuer := json.coerce issuerDID;
     Subject := json.coerce subjectDID;
     JTI := json.coerce credentialID;
     IssuedAt := paseto.whole_seconds now;
     ExpiresAt := credential_expiry now;
     VC := {| vc_ID := json.coerce credentialID;
              vc_Type := ["VerifiableCredential"; CredentialType subject];
              vc_CredentialSubject := decoded_subject subject;
              vc_CredentialStatus :=
                if String.eqb credentialID EmptyString then None
                else Some {| cs_ID := json.coerce credentialID;
                             cs_Type := "RevocationRegistry2024" |} |} |}.

End with_platform.

(** GetCredentialID returns the credential ID from claims (for revocation
    checks) *)
Definition GetCredentialID (c : VCClaims) : string :=
  if negb (String.eqb (JTI c) EmptyString) then JTI c
  else if negb (String.eqb (vc_ID (VC c)) EmptyString) then vc_ID (VC c)
  else EmptyString.

End vc.

(** ** Package [presentation] *)

Module presentation.

Inductive error : Type :=
| ErrNoCredentials           (* "at least one credential is required" *)
| ErrRand (msg : string)     (* the error of rand.Read *)
| ErrAudienceMismatch        (* "audience mismatch" *)
| ErrNonceMismatch           (* "nonce mismatch" *)
| ErrPresentationExpired     (* "presentation expired" *)
| ErrPaseto (e : paseto.error).

(** VerifiablePresentation represents a VP containing one or more VCs *)
Record VerifiablePresentation : Type := {
  vp_Context : list string;
  vp_Type : list string;
  vp_ID : string;
  vp_Holder : string;
  vp_VerifiableCredential : list string;
}.

(** VPClaims represents the PASETO claims for a Verifiable Presentation *)
Record VPClaims : Type := {
  Issuer : string;
  Subject : string;
  Audience : string;
  Nonce : string;
  IssuedAt : Time;
  ExpiresAt : Time;
  VP : VerifiablePresentation;
}.

(** [json.Marshal(vpClaims.VP)] *)
Definition marshal_VP (p : VerifiablePresentation) : json.value :=
  json.Object (
    json.member "@context" (json.strings (vp_Context p)) ++
    json.member "type" (json.strings (vp_Type p)) ++
    json.omitempty_string "id" (vp_ID p) ++
    json.member "holder" (json.string_ (vp_Holder p)) ++
    json.member "verifiableCredential"
      (json.strings (vp_VerifiableCredential p))).

Definition zero_VP : VerifiablePresentation :=
  {| vp_Context := []; vp_Type := []; vp_ID := EmptyString;
     vp_Holder := EmptyString; vp_VerifiableCredential := [] |}.

(** [json.Unmarshal] into a [VerifiablePresentation] ([None]: a type
    error). *)
Definition unmarshal_VP (v : json.value) : option VerifiablePresentation :=
  match v with
  | json.Null => Some zero_VP
  | json.Object members =>
      context ← json.field json.to_strings [] "@context" members;
      type ← json.field json.to_strings [] "type" members;
      id ← json.field json.to_string EmptyString "id" members;
      holder ← json.field json.to_string EmptyString "holder" members;
      credentials ← json.field json.to_strings [] "verifiableCredential" members;
      Some {| vp_Context := context; vp_Type := type; vp_ID := id;
              vp_Holder := holder; vp_VerifiableCredential := credentials |}
  | _ => None
  end.

Definition lift {A} (r : result paseto.error A) : result error A :=
  match r with
  | Ok a => Ok a
  | Err e => Err (ErrPaseto e)
  end.

(** [b[i:j]] *)
Definition slice (b : bytes) (i j : nat) : bytes := take (j - i) (drop i b).

Definition urn_uuid (idBytes : bytes) : string :=
  "urn:uuid:" +:+ hex.EncodeToString (slice idBytes 0 4) +:+ "-" +:+
  hex.EncodeToString (slice idBytes 4 6) +:+ "-" +:+
  hex.EncodeToString (slice idBytes 6 8) +:+ "-" +:+
  hex.EncodeToString (slice idBytes 8 10) +:+ "-" +:+
  hex.EncodeToString (drop 10 idBytes).

Section with_platform.
Context `{paseto.Platform}.

(** CreatePresentation creates a signed Verifiable Presentation.  [random]
    is the outcome of [rand.Read] on the 16-byte buffer -- the bytes it put
    there, or its error -- and [now] the reading of [time.Now()]. *)
Definition CreatePresentation (holderDID : string) (holderPrivateKey : bytes)
    (credentials : list string) (audience nonce : string)
    (random : result string bytes) (now : Time) : result error string :=
  if (length credentials =? 0)%nat then Err ErrNoCredentials
  else
    secretKey ← lift (paseto.NewV4AsymmetricSecretKeyFromBytes holderPrivateKey);
    (* Generate presentation ID *)
    match random with
    | Err msg => Err (ErrRand msg)
    | Ok idBytes =>
        let presentationID := urn_uuid idBytes in
        let vp := {| vp_Context := ["https://www.w3.org/2018/credentials/v1"];
                     vp_Type := ["VerifiablePresentation"];
                     vp_ID := presentationID;
                     vp_Holder := holderDID;
                     vp_VerifiableCredential := credentials |} in
        let vpClaims := {| Issuer := holderDID;
                           Subject := holderDID;
                           Audience := audience;
                           Nonce := nonce;
                           IssuedAt := now;
                           (* Presentations are short-lived *)
                           ExpiresAt := time.Add now (15 * time.Minute)%Z;
                           VP := vp |} in
        let token := paseto.NewToken in
        let token := paseto.SetIssuer (Issuer vpClaims) token in
        let token := paseto.SetSubject (Subject vpClaims) token in
        let token := paseto.SetAudience (Audience vpClaims) token in
        let token := paseto.SetIssuedAt (IssuedAt vpClaims) token in
        let token := paseto.SetExpiration (ExpiresAt vpClaims) token in
        let token := paseto.SetString "nonce" (Nonce vpClaims) token in
        let vpJSON := marshal_VP (VP vpClaims) in
        let token := paseto.Set_ "vp" vpJSON token in
        Ok (paseto.V4Sign secretKey token)
    end.

(** VerifyPresentation verifies a PASETO VP token and returns the claims.
    The clock is read twice: [now_parser] by [paseto.NewParser()], and
    [now] by the expiration check of the function itself. *)
Definition VerifyPresentation (tokenString : string) (holderPublicKey : bytes)
    (expectedAudience expectedNonce : string) (now_parser now : Time)
  : result error VPClaims :=
  pasetoPublicKey ←
    lift (paseto.NewV4AsymmetricPublicKeyFromBytes holderPublicKey);
  let parser := paseto.NewParser now_parser in
  token ← lift (paseto.ParseV4Public parser pasetoPublicKey tokenString);
  issuer ← lift (paseto.GetIssuer token);
  subject ← lift (paseto.GetSubject token);
  audience ← lift (paseto.GetAudience token);
  issuedAt ← lift (paseto.GetIssuedAt token);
  expiresAt ← lift (paseto.GetExpiration token);
  nonce ← lift (paseto.GetString "nonce" token);
  (* Verify audience if provided *)
  if negb (String.eqb expectedAudience EmptyString)
     && negb (String.eqb audience expectedAudience)
  then Err ErrAudienceMismatch
  (* Verify nonce if provided *)
  else if negb (String.eqb expectedNonce EmptyString)
          && negb (String.eqb nonce expectedNonce)
  then Err ErrNonceMismatch
  (* Check expiration *)
  else if time.After now expiresAt then Err ErrPresentationExpired
  else
    raw ← lift (paseto.Get "vp" token);
    match unmarshal_VP raw with
    | None => Err (ErrPaseto (paseto.ErrClaimValue "vp"))
    | Some vp =>
        Ok {| Issuer := issuer; Subject := subject; Audience := audience;
              Nonce := nonce; IssuedAt := issuedAt; ExpiresAt := expiresAt;
              VP := vp |}
    end.

(** GenerateNonce creates a random nonce for challenge-response; [random]
    is the outcome of [rand.Read] on the 32-byte buffer. *)
Definition GenerateNonce (random : result string bytes) : result error string :=
  match random with
  | Err msg => Err (ErrRand msg)
  | Ok bytes => Ok (hex.EncodeToString bytes)
  end.

(** *** What is signed and what is read back *)

(** The instant a presentation created at [now] expires, as the token
    carries it. *)
Definition presentation_expiry (now : Time) : Time :=
  paseto.whole_seconds (time.Add now (15 * time.Minute)%Z).

(** The payload [CreatePresentation] signs. *)
Definition created_VP (holderDID : string) (credentials : list string)
    (idBytes : bytes) : VerifiablePresentation :=
  {| vp_Context := ["https://www.w3.org/2018/credentials/v1"];
     vp_Type := ["VerifiablePresentation"];
     vp_ID := urn_uuid idBytes;
     vp_Holder := holderDID;
     vp_VerifiableCredential := credentials |}.

(** The token [CreatePresentation] signs. *)
Definition created_token (holderDID : string) (credentials : list string)
    (audience nonce : string) (idBytes : bytes) (now : Time) : paseto.Token :=
  paseto.Set_ "vp" (marshal_VP (created_VP holderDID credentials idBytes))
    (paseto.SetString "nonce" nonce
       (paseto.SetExpiration (time.Add now (15 * time.Minute)%Z)
          (paseto.SetIssuedAt now
             (paseto.SetAudience audience
                (paseto.SetSubject holderDID
                   (paseto.SetIssuer holderDID paseto.NewToken)))))).

(** The claims [VerifyPresentation] returns for it: the strings as the
    JSON encoder wrote them. *)
Definition verified_presentation (holderDID : string)
    (credentials : list string) (audience nonce : string) (idBytes : bytes)
    (now : Time) : VPClaims :=
  {| Issuer := json.coerce holderDID;
     Subject := json.coerce holderDID;
     Audience := json.coerce audience;
     Nonce := json.coerce nonce;
     IssuedAt := paseto.whole_seconds now;
     ExpiresAt := presentation_expiry now;
     VP := {| vp_Context := ["https://www.w3.org/2018/credentials/v1"];
              vp_Type := ["VerifiablePresentation"];
              vp_ID := urn_uuid idBytes;
              vp_Holder := json.coerce holderDID;
              vp_VerifiableCredential := map json.coerce credentials |} |}.

End with_platform.

End presentation.

(** ** Package [crypto] *)

Module crypto.

Section with_platform.
Context `{paseto.Platform}.

(** GenerateEd25519Keypair creates a new Ed25519 keypair.  [random] is the
    outcome of reading the 32-byte seed from [rand.Reader]; the private key
    is the seed followed by the public key derived from it. *)
Definition GenerateEd25519Keypair (random : result string bytes)
  : result string (bytes * bytes) :=
  match random with
  | Err err => Err err
  | Ok seed =>
      let pub := paseto.ed25519_public seed in
      Ok (pub, seed ++ pub)
  end.

End with_platform.

End crypto.

(** ** Package [revocation]: credential ids *)

Module credential_id.

(** GenerateCredentialID creates a unique credential ID; [random] is the
    outcome of [rand.Read] on the 16-byte buffer. *)
Definition GenerateCredentialID (random : result string bytes)
  : result string string :=
  match random with
  | Err err => Err err
  | Ok bytes =>
      Ok ("urn:uuid:" +:+ hex.EncodeToString (presentation.slice bytes 0 4) +:+
          "-" +:+ hex.EncodeToString (presentation.slice bytes 4 6) +:+
          "-" +:+ hex.EncodeToString (presentation.slice bytes 6 8) +:+
          "-" +:+ hex.EncodeToString (presentation.slice bytes 8 10) +:+
          "-" +:+ hex.EncodeToString (drop 10 bytes))
  end.

(** The characters of [hex.EncodeToString]. *)
Definition is_hex_digit (c : ascii) : bool :=
  match base58.index c hex.hextable with Some _ => true | None => false end.

End credential_id.

(** ** Package [storage]: the wallet

    The wallet in memory.  Writing it to disk -- JSON, PBKDF2, AES-GCM, the
    file -- is one step, [Save], whose outcome is given; [OpenWallet], which
    decrypts that file, and [Export] are outside this development.  The
    credentials are a map that is never nil, as in every wallet made by
    [CreateWallet]. *)

Module storage.

Inductive error : Type :=
| ErrWalletNotFound       (* "wallet not found" *)
| ErrWalletExists         (* "wallet already exists" *)
| ErrInvalidPassword      (* "invalid password" *)
| ErrCredentialExists     (* "credential already exists" *)
| ErrNoKeys               (* "no keys stored in wallet" *)
| ErrCredentialNotFound   (* "credential not found" *)
| ErrIO (msg : string).   (* an error of the file system, of the random
                             source or of an encoder, passed on *)

(** KeyPair stores the public and private keys *)
Record KeyPair : Type := {
  PublicKey : bytes;
  PrivateKey : bytes;
}.

(** StoredCredential represents a stored verifiable credential *)
Record StoredCredential : Type := {
  ID : string;
  Type_ : string;
  IssuerDID : string;
  IssuerPublicKey : string;
  Token : string;
  IssuedAt : Time;
  ExpiresAt : Time;
  StoredAt : Time;
}.

(** WalletData is the serializable wallet structure *)
Record WalletData : Type := {
  Version : Z;
  CreatedAt : Time;
  UpdatedAt : Time;
  DID : string;
  Keys : KeyPair;
  Credentials : gmap string StoredCredential;
}.

(** Wallet stores keys and credentials *)
Record Wallet : Type := {
  path : string;
  data : WalletData;
  passphrase : string;
}.

Definition with_data (w : Wallet) (d : WalletData) : Wallet :=
  {| path := path w; data := d; passphrase := passphrase w |}.

(** Save encrypts and saves the wallet to disk: [w.data.UpdatedAt] is set
    to the reading [now] of the clock first; [io] is the first error met
    after that, if any. *)
Definition Save (now : Time) (io : option string) (w : Wallet)
  : result error unit * Wallet :=
  let w' := with_data w {| Version := Version (data w);
                           CreatedAt := CreatedAt (data w);
                           UpdatedAt := now;
                           DID := DID (data w);
                           Keys := Keys (data w);
                           Credentials := Credentials (data w) |} in
  (match io with None => Ok tt | Some msg => Err (ErrIO msg) end, w').

(** CreateWallet creates a new wallet with the given passphrase.
    [file_exists] says whether [os.Stat(path)] found a file, [mkdir] is the
    error of [os.MkdirAll], [now] the reading of the clock in [CreateWallet]
    and [now_save] the one in [Save]. *)
Definition CreateWallet (path passphrase : string) (file_exists : bool)
    (mkdir : option string) (now now_save : Time) (io : option string)
  : result error Wallet :=
  if file_exists then Err ErrWalletExists
  else
    match mkdir with
    | Some msg => Err (ErrIO msg)
    | None =>
        let w := {| path := path;
                    passphrase := passphrase;
                    data := {| Version := 1;
                               CreatedAt := now;
                               UpdatedAt := now;
                               DID := EmptyString;
                               Keys := {| PublicKey := []; PrivateKey := [] |};
                               Credentials := ∅ |} |} in
        match Save now_save io w with
        | (Err err, _) => Err err
        | (Ok _, w') => Ok w'
        end
    end.

(** SetKeys stores the key pair in the wallet *)
Definition SetKeys (pub priv : bytes) (did : string) (now_save : Time)
    (io : option string) (w : Wallet) : result error unit * Wallet :=
  let w := with_data w {| Version := Version (data w);
                          CreatedAt := CreatedAt (data w);
                          UpdatedAt := UpdatedAt (data w);
                          DID := did;
                          Keys := {| PublicKey := pub; PrivateKey := priv |};
                          Credentials := Credentials (data w) |} in
  Save now_save io w.

(** GetKeys retrieves the key pair from the wallet *)
Definition GetKeys (w : Wallet) : result error (bytes * bytes) :=
  if (length (PublicKey (Keys (data w))) =? 0)%nat then Err ErrNoKeys
  else Ok (PublicKey (Keys (data w)), PrivateKey (Keys (data w))).

(** GetDID returns the wallet's DID *)
Definition GetDID (w : Wallet) : string := DID (data w).

Definition set_credentials (w : Wallet)
    (creds : gmap string StoredCredential) : Wallet :=
  with_data w {| Version := Version (data w);
                 CreatedAt := CreatedAt (data w);
                 UpdatedAt := UpdatedAt (data w);
                 DID := DID (data w);
                 Keys := Keys (data w);
                 Credentials := creds |}.

(** [cred.StoredAt = time.Now()] *)
Definition stored_at (cred : StoredCredential) (now : Time)
  : StoredCredential :=
  {| ID := ID cred; Type_ := Type_ cred; IssuerDID := IssuerDID cred;
     IssuerPublicKey := IssuerPublicKey cred; Token := Token cred;
     IssuedAt := IssuedAt cred; ExpiresAt := ExpiresAt cred;
     StoredAt := now |}.

(** AddCredential stores a credential in the wallet; [now] is the reading
    of the clock in [AddCredential], [now_save] the one in [Save]. *)
Definition AddCredential (cred : StoredCredential) (now now_save : Time)
    (io : option string) (w : Wallet) : result error unit * Wallet :=
  match Credentials (data w) !! ID cred with
  | Some _ => (Err ErrCredentialExists, w)
  | None =>
      let cred := stored_at cred now in
      let w := set_credentials w (<[ID cred := cred]> (Credentials (data w))) in
      Save now_save io w
  end.

(** GetCredential retrieves a credential by ID; the pointer it returns is
    to a copy. *)
Definition GetCredential (id : string) (w : Wallet)
  : result error StoredCredential :=
  match Credentials (data w) !! id with
  | Some cred => Ok cred
  | None => Err ErrCredentialNotFound
  end.

(** ListCredentials returns all stored credentials, in the order of the
    map's iteration (here, that of [map_to_list]). *)
Definition ListCredentials (w : Wallet) : list StoredCredential :=
  (map_to_list (Credentials (data w))).*2.

(** RemoveCredential removes a credential by ID *)
Definition RemoveCredential (id : string) (now_save : Time)
    (io : option string) (w : Wallet) : result error unit * Wallet :=
  match Credentials (data w) !! id with
  | None => (Err ErrCredentialNotFound, w)
  | Some _ =>
      let w := set_credentials w (delete id (Credentials (data w))) in
      Save now_save io w
  end.

(** *** Sequences of wallet operations *)

Inductive op : Type :=
| OpSetKeys (pub priv : bytes) (did : string) (now_save : Time)
    (io : option string)
| OpAddCredential (cred : StoredCredential) (now now_save : Time)
    (io : option string)
| OpRemoveCredential (id : string) (now_save : Time) (io : option string)
| OpSave (now_save : Time) (io : option string).

Definition step (w : Wallet) (o : op) : Wallet :=
  match o with
  | OpSetKeys pub priv did now_save io => snd (SetKeys pub priv did now_save io w)
  | OpAddCredential cred now now_save io =>
      snd (AddCredential cred now now_save io w)
  | OpRemoveCredential id now_save io => snd (RemoveCredential id now_save io w)
  | OpSave now_save io => snd (Save now_save io w)
  end.

Definition run (ops : list op) (w : Wallet) : Wallet := fold_left step ops w.

(** Every credential is stored under its own id. *)
Definition keyed (w : Wallet) : Prop :=
  forall id cred, Credentials (data w) !! id = Some cred -> ID cred = id.

End storage.

(** ** States of the registry

    What holds of the registries that the operations of package
    [revocation] build, starting from an empty one. *)

Module registry_state.
Import revocation.

(** No two credential ids share an entry. *)
Definition separate (r : Registry) : Prop :=
  forall id1 id2 p,
    entries r !! id1 = Some p -> entries r !! id2 = Some p -> id1 = id2.

(** An entry as [Register] or [Revoke] leaves it: Active with no revocation
    time and no reason, or Revoked. *)
Definition settled (e : Entry) : Prop :=
  (Status_of e = StatusActive /\ RevokedAt e = time.zero /\
   Reason e = EmptyString) \/
  Status_of e = StatusRevoked.

(** The operation registers or revokes the credential [id]. *)
Definition addresses (id : string) (o : op) : bool :=
  match o with
  | OpRegister id' _ _ _ _ | OpRevoke id' _ _ _ => String.eqb id' id
  | _ => false
  end.

(** The entry that [Register] stores. *)
Definition active_entry (id iss sub : string) (now : Time) : Entry :=
  {| CredentialID := id; IssuerDID := iss; SubjectDID := sub;
     Status_of := StatusActive; IssuedAt := now; RevokedAt := time.zero;
     Reason := EmptyString |}.

End registry_state.

(** * An instance of the platform, and sample data *)

(** ** An instance of [paseto.Platform]

    The class [paseto.Platform] states what the development takes from
    [crypto/ed25519], [time] and the signing core of go-paseto.  The instance
    below shows that the contract can be met, and the examples further down
    run on it.  It is not Ed25519: the public key of a seed is the seed, a
    signed token spells out the public key and the claims, and an instant is
    written as its number of seconds. *)

Module Toy.
Import json paseto.

Definition leaf : Type := bool + Z + string.

Fixpoint to_tree (v : value) : gen_tree leaf :=
  match v with
  | Null => GenNode 0 []
  | Bool b => GenLeaf (inl (inl b))
  | Number n => GenLeaf (inl (inr n))
  | Str s => GenLeaf (inr s)
  | Array items => GenNode 1 (map to_tree items)
  | Object members =>
      GenNode 2 (map (fun kv => GenNode 3 [GenLeaf (inr (fst kv)); to_tree (snd kv)])
                   members)
  end.

Fixpoint of_tree (t : gen_tree leaf) : option value :=
  match t with
  | GenNode 0 [] => Some Null
  | GenLeaf (inl (inl b)) => Some (Bool b)
  | GenLeaf (inl (inr n)) => Some (Number n)
  | GenLeaf (inr s) => Some (Str s)
  | GenNode 1 ts =>
      Array <$>
        (fix items ts :=
           match ts with
           | [] => Some []
           | t :: ts' => v ← of_tree t; vs ← items ts'; Some (v :: vs)
           end) ts
  | GenNode 2 ts =>
      Object <$>
        (fix members ts :=
           match ts with
           | [] => Some []
           | GenNode 3 [GenLeaf (inr k); t] :: ts' =>
               v ← of_tree t; ms ← members ts'; Some ((k, v) :: ms)
           | _ => None
           end) ts
  | _ => None
  end.

Lemma of_to_tree : forall v, of_tree (to_tree v) = Some v.
Proof.
  fix IH 1. intros [| b | n | s | items | members]; try reflexivity.
  - simpl. induction items as [|v items IHitems]; [reflexivity|].
    simpl. rewrite IH. simpl.
    destruct (_ (map to_tree items)) as [vs|]; [|discriminate IHitems].
    simpl in *. by injection IHitems as ->.
  - simpl. induction members as [|[k v] members IHmembers]; [reflexivity|].
    simpl. rewrite IH. simpl.
    destruct (_ (map _ members)) as [ms|]; [|discriminate IHmembers].
    simpl in *. by injection IHmembers as ->.
Qed.

#[local] Instance value_eq_dec : EqDecision value.
Proof.
  intros x y. destruct (decide (to_tree x = to_tree y)) as [Heq|Hne].
  - left. apply (f_equal of_tree) in Heq. rewrite !of_to_tree in Heq. congruence.
  - right. intros ->. by apply Hne.
Defined.

#[local] Instance value_countable : Countable value :=
  inj_countable to_tree of_tree of_to_tree.

#[local] Instance byte_eq_dec : EqDecision byte.
Proof.
  intros x y. destruct (Byte.eqb x y) eqn:Heq.
  - left. by apply Byte.byte_dec_bl.
  - right. by apply Byte.eqb_false.
Defined.

#[local] Instance byte_countable : Countable byte.
Proof.
  refine (inj_countable' Byte.to_N byte_of_N _).
  intros x. unfold byte_of_N. by rewrite Byte.of_to_N.
Defined.

(** A positive number written in binary, least significant bit first. *)
Fixpoint bits (p : positive) : string :=
  match p with
  | xH => EmptyString
  | xO p' => String "0" (bits p')
  | xI p' => String "1" (bits p')
  end.

Fixpoint of_bits (s : string) : option positive :=
  match s with
  | EmptyString => Some xH
  | String c s' =>
      p ← of_bits s';
      if Ascii.eqb c "0" then Some (xO p)
      else if Ascii.eqb c "1" then Some (xI p)
      else None
  end.

Lemma of_bits_bits p : of_bits (bits p) = Some p.
Proof. induction p as [p IH|p IH|]; simpl; by rewrite ?IH. Qed.

Lemma coerce_bits p : coerce (bits p) = bits p.
Proof. unfold coerce. induction p as [p IH|p IH|]; simpl; by rewrite ?IH. Qed.

Definition write `{Countable A} (x : A) : string := bits (encode x).
Definition read `{Countable A} (s : string) : option A :=
  p ← of_bits s; decode p.

Lemma read_write `{Countable A} (x : A) : read (write x) = Some x.
Proof. unfold read, write. rewrite of_bits_bits. simpl. apply decode_encode. Qed.

Fixpoint strip_prefix (p s : string) : option string :=
  match p, s with
  | EmptyString, _ => Some s
  | String c p', String d s' =>
      if Ascii.eqb c d then strip_prefix p' s' else None
  | String _ _, EmptyString => None
  end.

Lemma strip_prefix_app p s : strip_prefix p (p +:+ s) = Some s.
Proof.
  induction p as [|c p IH]; [by destruct s|]. simpl.
  by rewrite Ascii.eqb_refl.
Qed.

Definition FormatRFC3339 (t : Time) : string := write (t / time.Second)%Z.

Definition ParseRFC3339 (s : string) : option Time :=
  seconds ← read s; Some (seconds * time.Second)%Z.

Definition ed25519_public (seed : bytes) : bytes :=
  take 32 (seed ++ replicate 32 x00).

Definition v4_public_sign (key : bytes) (token : Token) : string :=
  "v4.public." +:+ write (drop 32 key, claims token, footer token).

Definition v4_public_open (key : bytes) (tainted : string)
  : result error Token :=
  match strip_prefix "v4.public." tainted with
  | None => Err ErrMessage
  | Some body =>
      match read body with
      | None => Err ErrMessage
      | Some (signer, claims, footer) =>
          if decide (signer = key)
          then Ok {| claims := claims; footer := footer |}
          else Err ErrSignature
      end
  end.

Lemma ed25519_public_size (seed : bytes) :
  length (ed25519_public seed) = PublicKeySize.
Proof.
  unfold ed25519_public. rewrite length_take, length_app, length_replicate.
  unfold PublicKeySize. lia.
Qed.

Lemma drop_seed (seed pub : bytes) :
  length seed = SeedSize -> drop 32 (seed ++ pub) = pub.
Proof. intros Hlen. by rewrite drop_app_length'. Qed.

Lemma open_signed seed token key :
  length seed = SeedSize ->
  v4_public_open key (v4_public_sign (seed ++ ed25519_public seed) token) =
  if decide (ed25519_public seed = key) then Ok token else Err ErrSignature.
Proof.
  intros Hlen. unfold v4_public_open, v4_public_sign.
  change ("v4.public." +:+ ?s) with ("v4.public." +:+ s).
  rewrite strip_prefix_app, read_write, drop_seed by done.
  destruct (decide _); [|done]. by destruct token.
Qed.

#[export] Instance platform : Platform.
Proof.
  refine {| paseto.FormatRFC3339 := FormatRFC3339;
            paseto.ParseRFC3339 := ParseRFC3339;
            paseto.ed25519_public := ed25519_public;
            paseto.ed25519_public_size := ed25519_public_size;
            paseto.v4_public_sign := v4_public_sign;
            paseto.v4_public_open := v4_public_open |}.
  - intros t. unfold ParseRFC3339, FormatRFC3339. by rewrite read_write.
  - intros t. apply coerce_bits.
  - intros seed token Hlen. rewrite open_signed by done.
    by destruct (decide _).
  - intros seed token key Hlen _ Hne. rewrite open_signed by done.
    by destruct (decide _).
Defined.

(** A key pair of the instance. *)
Definition sample_seed : bytes := map byte_of_N (map N.of_nat (seq 1 32)).
Definition sample_pub : bytes := sample_seed.
Definition sample_priv : bytes := sample_seed ++ sample_seed.

Lemma sample_key_pair : KeyPair sample_pub sample_priv.
Proof. exists sample_seed. repeat split. Qed.

End Toy.

(** ** Sample data *)

Module Examples.

(** A 32-byte key used in the examples: the bytes 1, 2, ..., 32. *)
Definition sample_key : bytes := map byte_of_N (map N.of_nat (seq 1 32)).

Definition sample_did : string :=
  "did:key:z6MkeXCES4onVW4up9Qgz1KRnZsKmGufcaZxF6Zpv2w5QwUK".

(** A credential id, and the registry in which it was registered at time 10. *)
Definition sample_id : string := "urn:uuid:11111111-1111-1111-1111-111111111111".

Definition register_sample (now : Time) : revocation.op :=
  revocation.OpRegister sample_id "did:key:zIssuer" "did:key:zSubject" now None.

Definition revoke_sample (now : Time) : revocation.op :=
  revocation.OpRevoke sample_id "fraud detected" now None.

(** The registry after the sample credential was registered at time 10. *)
Definition registered : revocation.Registry :=
  revocation.run [register_sample 10%Z] revocation.NewRegistry.

Definition sample_entry : revocation.Entry :=
  {| revocation.CredentialID := sample_id;
     revocation.IssuerDID := "did:key:zIssuer";
     revocation.SubjectDID := "did:key:zSubject";
     revocation.Status_of := revocation.StatusActive;
     revocation.IssuedAt := 10%Z;
     revocation.RevokedAt := time.zero;
     revocation.Reason := EmptyString |}.

(** Two credential subjects, and the instant [t0] at which the sample
    credentials are issued. *)
Definition day : Duration := (24 * time.Hour)%Z.

Definition sample_identity : vc.CredentialSubject :=
  vc.Identity {|
    vc.id_ID := "did:key:zSubject";
    vc.id_GivenName := "Ada";
    vc.id_FamilyName := "Lovelace";
    vc.id_DateOfBirth := "1815-12-10";
    vc.id_Nationality := "GB";
    vc.id_DocumentType := EmptyString;
    vc.id_DocumentID := EmptyString;
    vc.id_PlaceOfBirth := EmptyString;
    vc.id_Gender := EmptyString;
    vc.id_Address := EmptyString;
    vc.id_VerifiedAt := EmptyString;
    vc.id_VerifiedLevel := "high" |}.

Definition sample_education : vc.CredentialSubject :=
  vc.Education {|
    vc.edu_ID := "did:key:zSubject";
    vc.edu_InstitutionName := "University of London";
    vc.edu_InstitutionDID := EmptyString;
    vc.edu_Degree := "BSc";
    vc.edu_FieldOfStudy := "Mathematics";
    vc.edu_GraduationDate := EmptyString;
    vc.edu_CertificateName := EmptyString;
    vc.edu_CourseName := EmptyString;
    vc.edu_CompletionDate := EmptyString;
    vc.edu_Grade := EmptyString;
    vc.edu_CreditsEarned := 180 |}.

(** The instants of the examples: a credential issued at [t0]. *)
Definition t0 : Time := (739000 * day)%Z.

End Examples.

(** A credential as the holder stores it, and an empty wallet. *)

Module WalletExamples.
Import Examples.

Definition sample_credential : storage.StoredCredential :=
  {| storage.ID := sample_id; storage.Type_ := "IdentityCredential";
     storage.IssuerDID := "did:key:zIssuer"; storage.IssuerPublicKey := "0102";
     storage.Token := "v4.public.token"; storage.IssuedAt := t0;
     storage.ExpiresAt := (t0 + 365 * day)%Z; storage.StoredAt := 0%Z |}.

End WalletExamples.

(** A string that is not UTF-8: the single byte 0xFF. *)

Module Utf8Examples.

Definition not_utf8 : string := String (ascii_of_N 255) EmptyString.

End Utf8Examples.

(** * Properties *)

(** ** Radix conversion *)

Module RadixFacts.
Import Radix.

Lemma from_digits_app b ds ds' :
  from_digits b (ds ++ ds') =
  fold_left (fun acc d => acc * b + d)%N ds' (from_digits b ds).
Proof. unfold from_digits. by rewrite fold_left_app. Qed.

Lemma from_digits_rev b ds : from_digits b (rev ds) = val_le b ds.
Proof.
  induction ds as [|d ds IH]; [done|].
  simpl. rewrite from_digits_app. simpl. rewrite IH. lia.
Qed.

Lemma from_digits_val_le b ds : from_digits b ds = val_le b (rev ds).
Proof. by rewrite <- from_digits_rev, rev_involutive. Qed.

Lemma to_digits_aux_le fuel b n acc :
  to_digits_aux fuel b n acc = rev (to_le fuel b n) ++ acc.
Proof.
  revert n acc. induction fuel as [|fuel IH]; intros n acc; [done|].
  simpl. destruct (n =? 0)%N; [done|].
  rewrite IH. simpl. by rewrite <- app_assoc.
Qed.

Lemma to_digits_le b n :
  to_digits b n = rev (to_le (N.to_nat (N.size n)) b n).
Proof. unfold to_digits. by rewrite to_digits_aux_le, app_nil_r. Qed.

Lemma div_lt_pow2 b n fuel :
  (2 <= b)%N -> (n < 2 ^ N.of_nat (S fuel))%N -> (n / b < 2 ^ N.of_nat fuel)%N.
Proof.
  intros Hb Hn.
  assert (n / b <= n / 2)%N as Hle by (apply N.div_le_compat_l; lia).
  assert (n / 2 < 2 ^ N.of_nat fuel)%N; [|lia].
  apply N.Div0.div_lt_upper_bound.
  replace (N.of_nat (S fuel)) with (N.succ (N.of_nat fuel)) in Hn by lia.
  by rewrite N.pow_succ_r' in Hn.
Qed.

Lemma val_le_to_le fuel b n :
  (2 <= b)%N -> (n < 2 ^ N.of_nat fuel)%N -> val_le b (to_le fuel b n) = n.
Proof.
  intros Hb. revert n. induction fuel as [|fuel IH]; intros n Hn.
  - simpl in *. lia.
  - simpl. destruct (N.eqb_spec n 0) as [->|Hne]; [done|].
    simpl. rewrite IH by (by apply div_lt_pow2).
    rewrite (N.div_mod n b) at 3 by lia. lia.
Qed.

Lemma size_bound n : (n < 2 ^ N.of_nat (N.to_nat (N.size n)))%N.
Proof. rewrite N2Nat.id. apply N.size_gt. Qed.

Lemma from_to_digits b n : (2 <= b)%N -> from_digits b (to_digits b n) = n.
Proof.
  intros Hb. rewrite to_digits_le, from_digits_rev.
  apply val_le_to_le; [done|apply size_bound].
Qed.

Lemma normal_le_cons b d ds :
  normal_le b (d :: ds) ->
  (d < b)%N /\ (ds = [] -> d <> 0%N) /\ (ds <> [] -> normal_le b ds).
Proof.
  intros [Hall Hlast]. inversion Hall as [|? ? Hd Hds]; subst.
  split; [done|]. split.
  - intros -> ->. by apply Hlast.
  - intros Hne. split; [done|]. destruct ds as [|d' ds]; [done|].
    by rewrite last_cons_cons in Hlast.
Qed.

Lemma val_le_pos b ds :
  (2 <= b)%N -> normal_le b ds -> ds <> [] -> (0 < val_le b ds)%N.
Proof.
  intros Hb. induction ds as [|d ds IH]; intros Hn Hne; [done|].
  apply normal_le_cons in Hn as (Hd & Hnil & Hcons). simpl.
  destruct ds as [|d' ds].
  - specialize (Hnil eq_refl). simpl. lia.
  - assert (0 < val_le b (d' :: ds))%N by (apply IH; [apply Hcons|]; done).
    nia.
Qed.

Lemma to_le_val_le fuel b ds :
  (2 <= b)%N -> normal_le b ds -> (val_le b ds < 2 ^ N.of_nat fuel)%N ->
  to_le fuel b (val_le b ds) = ds.
Proof.
  intros Hb. revert fuel. induction ds as [|d ds IH]; intros fuel Hn Hlt.
  - destruct fuel; done.
  - pose proof (val_le_pos b (d :: ds) Hb Hn ltac:(done)) as Hpos.
    apply normal_le_cons in Hn as (Hd & Hnil & Hcons).
    destruct fuel as [|fuel].
    { cbn [val_le] in *. change (2 ^ N.of_nat 0)%N with 1%N in Hlt. lia. }
    cbn [to_le]. destruct (N.eqb_spec (val_le b (d :: ds)) 0) as [?|_]; [lia|].
    cbn [val_le] in *.
    assert ((d + b * val_le b ds) mod b = d)%N as ->.
    { replace (d + b * val_le b ds)%N with (d + val_le b ds * b)%N by lia.
      rewrite N.Div0.mod_add. by apply N.mod_small. }
    assert ((d + b * val_le b ds) / b = val_le b ds)%N as Hdiv.
    { replace (d + b * val_le b ds)%N with (d + val_le b ds * b)%N by lia.
      rewrite N.div_add by lia. rewrite (N.div_small d b) by done. lia. }
    rewrite Hdiv. f_equal.
    destruct ds as [|d' ds].
    + destruct fuel; done.
    + apply IH; [by apply Hcons|]. rewrite <- Hdiv. by apply div_lt_pow2.
Qed.

Lemma normal_rev b ds : normal b ds <-> normal_le b (rev ds).
Proof.
  unfold normal, normal_le.
  assert (list.last (rev ds) = hd_error ds) as ->.
  { destruct ds as [|d ds]; [done|]. simpl. by rewrite last_snoc. }
  assert (Forall (fun d => (d < b)%N) (rev ds) <->
          Forall (fun d => (d < b)%N) ds) as ->; [|done].
  split; intros H; [|by apply Forall_rev].
  rewrite <- (rev_involutive ds). by apply Forall_rev.
Qed.

Lemma to_from_digits b ds :
  (2 <= b)%N -> normal b ds -> to_digits b (from_digits b ds) = ds.
Proof.
  intros Hb Hn. rewrite to_digits_le, from_digits_val_le.
  rewrite to_le_val_le; [apply rev_involutive|done| |apply size_bound].
  by apply normal_rev.
Qed.

Lemma to_le_nil fuel b : to_le fuel b 0 = [].
Proof. by destruct fuel. Qed.

Lemma to_le_normal fuel b n :
  (2 <= b)%N -> (n < 2 ^ N.of_nat fuel)%N -> normal_le b (to_le fuel b n).
Proof.
  intros Hb. revert n. induction fuel as [|fuel IH]; intros n Hn.
  - split; [constructor|done].
  - simpl. destruct (N.eqb_spec n 0) as [->|Hne]; [split; [constructor|done]|].
    destruct (IH (n / b)%N) as [Hall Hlast]; [by apply div_lt_pow2|]. split.
    + constructor; [apply N.mod_lt; lia|done].
    + destruct (to_le fuel b (n / b)) as [|d ds] eqn:Hds.
      * simpl. intros [= Hmod].
        destruct (N.eq_dec (n / b)%N 0%N) as [Hz|Hnz].
        -- apply N.div_small_iff in Hz; [|lia].
           rewrite N.mod_small in Hmod by done. done.
        -- destruct fuel as [|fuel]; simpl in Hds.
           ++ pose proof (div_lt_pow2 b n 0 Hb Hn) as Hlt.
              change (2 ^ N.of_nat 0)%N with 1%N in Hlt.
              by apply Hnz, N.lt_1_r.
           ++ by destruct (N.eqb_spec (n / b)%N 0%N).
      * by rewrite last_cons_cons.
Qed.

Lemma to_digits_normal b n : (2 <= b)%N -> normal b (to_digits b n).
Proof.
  intros Hb. apply normal_rev. rewrite to_digits_le, rev_involutive.
  apply to_le_normal; [done|apply size_bound].
Qed.

Lemma from_digits_zeros b k ds :
  from_digits b (replicate k 0%N ++ ds) = from_digits b ds.
Proof.
  rewrite from_digits_app.
  assert (from_digits b (replicate k 0%N) = 0%N) as ->; [|done].
  induction k as [|k IH]; [done|].
  unfold from_digits in *. simpl. done.
Qed.

Lemma leading_zeros_app k ds :
  hd_error ds <> Some 0%N -> leading_zeros (replicate k 0%N ++ ds) = k.
Proof.
  intros Hhd. induction k as [|k IH]; simpl; [|by rewrite IH].
  destruct ds as [|d ds]; [done|]. simpl.
  destruct (N.eqb_spec d 0) as [->|]; done.
Qed.

(** Every numeral is some zeros followed by a normal numeral. *)
Lemma split_leading_zeros b ds :
  Forall (fun d => (d < b)%N) ds ->
  exists ds', ds = replicate (leading_zeros ds) 0%N ++ ds' /\ normal b ds'.
Proof.
  induction ds as [|d ds IH]; intros Hall.
  - exists []. split; [done|]. split; [constructor|done].
  - inversion Hall as [|? ? Hd Hds]; subst. simpl.
    destruct (N.eqb_spec d 0) as [->|Hne].
    + destruct (IH Hds) as (ds' & Heq & Hn). exists ds'. simpl.
      by rewrite <- Heq.
    + exists (d :: ds). split; [done|]. split; [done|]. simpl. congruence.
Qed.

End RadixFacts.

(** ** Base58 *)

Module base58Facts.
Import Radix RadixFacts base58.

Lemma digit_check_all d : (d < 58)%N -> digit_check d = true.
Proof.
  intros Hd.
  assert (forallb digit_check (map N.of_nat (seq 0 58)) = true) as Hall
    by (vm_compute; reflexivity).
  rewrite forallb_forall in Hall. apply Hall.
  rewrite <- (N2Nat.id d). apply in_map, in_seq. lia.
Qed.

Lemma digit_of_char_of_digit d :
  (d < 58)%N -> digit_of_char (char_of_digit d) = Some d.
Proof.
  intros Hd. pose proof (digit_check_all d Hd) as H. unfold digit_check in H.
  apply andb_prop in H as [H _]. apply andb_prop in H as [H _].
  destruct (digit_of_char (char_of_digit d)) as [d'|]; [|done].
  apply N.eqb_eq in H. by subst.
Qed.

Lemma char_of_digit_low d :
  (d < 58)%N -> (127 <? N_of_ascii (char_of_digit d))%N = false.
Proof.
  intros Hd. pose proof (digit_check_all d Hd) as H. unfold digit_check in H.
  apply andb_prop in H as [H _]. apply andb_prop in H as [_ H].
  apply N.leb_le in H. apply N.ltb_ge. done.
Qed.

Lemma char_of_digit_not_colon d : (d < 58)%N -> char_of_digit d <> ":"%char.
Proof.
  intros Hd. pose proof (digit_check_all d Hd) as H. unfold digit_check in H.
  apply andb_prop in H as [_ H]. apply negb_true_iff in H.
  by apply Ascii.eqb_neq in H.
Qed.

Lemma digits_of_chars ds :
  Forall (fun d => (d < 58)%N) ds -> digits_of (map char_of_digit ds) = Ok ds.
Proof.
  induction 1 as [|d ds Hd _ IH]; [done|]. simpl.
  rewrite char_of_digit_low, digit_of_char_of_digit, IH by done. done.
Qed.

Lemma encoded_digits_range bin : Forall (fun d => (d < 58)%N) (encoded_digits bin).
Proof.
  unfold encoded_digits. apply Forall_app. split.
  - apply list.Forall_forall. intros d Hd. apply elem_of_replicate in Hd as [-> _]. lia.
  - apply to_digits_normal. lia.
Qed.

Lemma bytes_range bin : Forall (fun d => (d < 256)%N) (map Byte.to_N bin).
Proof.
  apply list.Forall_forall. intros d Hd. apply list_elem_of_fmap in Hd as (b & -> & _).
  pose proof (Byte.to_N_bounded b). lia.
Qed.

Lemma byte_of_to_N bin : map byte_of_N (map Byte.to_N bin) = bin.
Proof.
  induction bin as [|b bin IH]; [done|]. simpl. rewrite IH.
  unfold byte_of_N. by rewrite Byte.of_to_N.
Qed.

Lemma Encode_chars bin :
  list_ascii_of_string (Encode bin) = map char_of_digit (encoded_digits bin).
Proof. unfold Encode. by rewrite list_ascii_of_string_of_list_ascii. Qed.

Lemma string_length_list s : String.length s = length (list_ascii_of_string s).
Proof. induction s as [|c s IH]; simpl; congruence. Qed.

(** Decoding what [Encode] wrote gives the bytes back; the empty slice is
    the one exception, since [Decode] rejects the empty string. *)
Lemma Decode_Encode bin : bin <> [] -> Decode (Encode bin) = Ok bin.
Proof.
  intros Hne. unfold Decode.
  destruct (split_leading_zeros 256 _ (bytes_range bin)) as (ds' & Hsplit & Hnorm).
  set (ds := map Byte.to_N bin) in *.
  set (z := leading_zeros ds) in *.
  assert (from_digits 256 ds = from_digits 256 ds') as Hval
    by (by rewrite Hsplit, from_digits_zeros).
  assert (encoded_digits bin = replicate z 0%N ++ to_digits 58 (from_digits 256 ds'))
    as Henc by (unfold encoded_digits; fold ds; fold z; by rewrite Hval).
  assert (to_digits 256 (from_digits 256 ds') = ds') as Hback
    by (apply to_from_digits; [lia|done]).
  rewrite string_length_list, Encode_chars.
  destruct (Nat.eqb_spec (length (map char_of_digit (encoded_digits bin))) 0)
    as [Hlen|_].
  { exfalso. rewrite length_map, Henc, length_app, length_replicate in Hlen.
    assert (z = 0%nat) as Hz by lia.
    assert (to_digits 58 (from_digits 256 ds') = []) as Hnil
      by (apply length_zero_iff_nil; lia).
    assert (from_digits 256 ds' = 0%N) as Hzero.
    { rewrite <- (from_to_digits 58 (from_digits 256 ds')) by lia.
      by rewrite Hnil. }
    rewrite Hzero in Hback. apply Hne.
    assert (ds = []) as Hds by (rewrite Hsplit, Hz, <- Hback; done).
    by destruct bin. }
  rewrite digits_of_chars by apply encoded_digits_range. simpl.
  rewrite Henc at 1. rewrite leading_zeros_app
    by (apply (to_digits_normal 58); lia).
  rewrite Henc, from_digits_zeros, from_to_digits by lia.
  rewrite Hback, <- Hsplit. unfold ds. by rewrite byte_of_to_N.
Qed.

Lemma Encode_no_colon bin :
  Forall (fun c => c <> ":"%char) (list_ascii_of_string (Encode bin)).
Proof.
  rewrite Encode_chars. apply list.Forall_forall. intros c Hc.
  apply list_elem_of_fmap in Hc as (d & -> & Hd).
  apply char_of_digit_not_colon.
  pose proof (encoded_digits_range bin) as Hall.
  rewrite list.Forall_forall in Hall. by apply Hall.
Qed.

End base58Facts.

(** ** Identifier codec: [did.CreateDIDKey] and [resolver.Resolve] *)

Module resolverFacts.
Import base58 base58Facts resolver.

Lemma Split_no_sep s sep : no_sep sep s -> Split s sep = [s].
Proof.
  unfold no_sep. induction s as [|c s IH]; [done|]. simpl.
  intros H. inversion H as [|? ? Hc Hs]; subst.
  apply Ascii.eqb_neq in Hc. rewrite Hc, IH by done. done.
Qed.

Lemma Split_prefix p s sep :
  no_sep sep p -> Split (p +:+ String sep s) sep = p :: Split s sep.
Proof.
  unfold no_sep. induction p as [|c p IH]; simpl.
  - intros _. by rewrite Ascii.eqb_refl.
  - intros H. inversion H as [|? ? Hc Hs]; subst.
    apply Ascii.eqb_neq in Hc. rewrite Hc, IH by done. done.
Qed.

Lemma substring_full s : substring 0 (String.length s) s = s.
Proof. induction s as [|c s IH]; simpl; congruence. Qed.

Lemma string_from_1 c s : string_from 1 (String c s) = s.
Proof.
  unfold string_from. simpl. rewrite Nat.sub_0_r. apply substring_full.
Qed.

(** What [resolveKey] does on an identifier that starts with ['z']. *)
Lemma resolveKey_z rest :
  resolveKey (String "z" rest) =
  match Decode rest with
  | Err e => Err (ErrBase58 e)
  | Ok decoded =>
      match decoded with
      | b0 :: b1 :: key =>
          if Byte.eqb b0 xed && Byte.eqb b1 x01
          then if (length key =? 32)%nat then Ok key else Err ErrInvalidKeyLength
          else Err ErrInvalidMulticodec
      | _ => Err ErrInvalidMulticodec
      end
  end.
Proof.
  unfold resolveKey. rewrite string_from_1. simpl.
  destruct (Decode rest) as [decoded|e]; [|done].
  destruct decoded as [|b0 [|b1 key]]; [done..|].
  cbn [length Nat.ltb Nat.leb byte_at nth ed25519Multicodec drop PublicKeySize].
  destruct (Byte.eqb b0 xed), (Byte.eqb b1 x01); simpl; try done.
  rewrite drop_0. unfold PublicKeySize.
  by destruct (length key =? 32)%nat.
Qed.

Lemma resolveKey_not_z identifier :
  (forall rest, identifier <> String "z" rest) ->
  resolveKey identifier = Err ErrInvalidDID.
Proof.
  intros Hz. unfold resolveKey. destruct identifier as [|c rest]; [done|].
  simpl. unfold char_at. simpl.
  destruct (Ascii.eqb_spec c "z") as [->|_]; [|done]. by destruct (Hz rest).
Qed.

Lemma resolveKey_encoded key :
  length key = 32%nat ->
  resolveKey ("z" +:+ Encode ([xed; x01] ++ key)) = Ok key.
Proof.
  intros Hlen. change ("z" +:+ ?s) with (String "z" s).
  rewrite resolveKey_z, Decode_Encode by done. simpl.
  by rewrite Hlen.
Qed.

(** What [Resolve] does in terms of the parts of the identifier. *)
Lemma Resolve_parts did p0 p1 p2 rest :
  Split did ":" = p0 :: p1 :: p2 :: rest ->
  Resolve did =
  if negb (String.eqb p0 "did") then Err ErrInvalidDID
  else if String.eqb p1 "key" then resolveKey p2 else Err ErrUnsupportedMethod.
Proof. intros Hsplit. unfold Resolve. rewrite Hsplit. done. Qed.

Lemma Resolve_short did :
  (length (Split did ":") < 3)%nat -> Resolve did = Err ErrInvalidDID.
Proof.
  intros Hlen. unfold Resolve. apply Nat.ltb_lt in Hlen. by rewrite Hlen.
Qed.

Lemma parts_at_least_3 (parts : list string) :
  (3 <= length parts)%nat ->
  exists rest,
    parts = nth 0 parts EmptyString :: nth 1 parts EmptyString ::
            nth 2 parts EmptyString :: rest.
Proof.
  destruct parts as [|p0 [|p1 [|p2 rest]]]; simpl; try lia. by exists rest.
Qed.

End resolverFacts.

Module IdentifierCodec.
Import base58 base58Facts resolver resolverFacts Examples.

Lemma did_string key :
  Split ("did:key:" +:+ ("z" +:+ Encode ([xed; x01] ++ key))) ":" =
  ["did"; "key"; "z" +:+ Encode ([xed; x01] ++ key)].
Proof.
  change ("did:key:" +:+ ?s) with ("did" +:+ String ":" ("key" +:+ String ":" s)).
  rewrite !Split_prefix by (repeat constructor; done).
  rewrite Split_no_sep; [done|].
  constructor; [done|apply Encode_no_colon].
Qed.

(** C4. For every 32-byte Ed25519 public key [k], [CreateDIDKey k] succeeds
    with the identifier [did:key:z<base58btc(0xED 0x01 ‖ k)>], and [Resolve]
    of that identifier succeeds and returns exactly the bytes of [k]. *)
Theorem CreateDIDKey_Resolve_roundtrip (k : bytes) :
  length k = 32%nat ->
  exists d,
    did.CreateDIDKey k = Ok d /\
    did.DID d = "did:key:z" +:+ Encode ([xed; x01] ++ k) /\
    Resolve (did.DID d) = Ok k.
Proof.
  intros Hlen. eexists. split; [reflexivity|]. split; [reflexivity|].
  change (Resolve ("did:key:" +:+ ("z" +:+ Encode ([xed; x01] ++ k))) = Ok k).
  rewrite (Resolve_parts _ _ _ _ _ (did_string k)). simpl.
  by apply resolveKey_encoded.
Qed.

Lemma CreateDIDKey_Resolve_roundtrip_witness :
  exists d,
    did.CreateDIDKey sample_key = Ok d /\
    did.DID d = "did:key:z" +:+ Encode ([xed; x01] ++ sample_key) /\
    Resolve (did.DID d) = Ok sample_key.
Proof. apply (CreateDIDKey_Resolve_roundtrip sample_key). reflexivity. Defined.

(** C7. The outcomes of [Resolve], in the order the checks are made: fewer
    than three colon-delimited parts or a first part other than "did" give
    [ErrInvalidDID]; a method other than "key" gives [ErrUnsupportedMethod];
    a method-id that does not start with 'z' gives [ErrInvalidDID]; a
    base58 failure is passed on; decoded bytes that do not start with
    0xED 0x01 give [ErrInvalidMulticodec]; a remainder that is not 32 bytes
    long gives [ErrInvalidKeyLength]; every remaining input resolves to the
    32 bytes after the tag. *)
Theorem Resolve_outcomes (did : string) :
  let parts := Split did ":" in
  ((length parts < 3)%nat \/ nth 0 parts EmptyString <> "did" ->
     Resolve did = Err ErrInvalidDID) /\
  ((3 <= length parts)%nat -> nth 0 parts EmptyString = "did" ->
     (nth 1 parts EmptyString <> "key" -> Resolve did = Err ErrUnsupportedMethod) /\
     (nth 1 parts EmptyString = "key" ->
        ((forall rest, nth 2 parts EmptyString <> String "z" rest) ->
           Resolve did = Err ErrInvalidDID) /\
        (forall rest, nth 2 parts EmptyString = String "z" rest ->
           (forall e, Decode rest = Err e -> Resolve did = Err (ErrBase58 e)) /\
           (forall decoded, Decode rest = Ok decoded ->
              (take 2 decoded <> [xed; x01] ->
                 Resolve did = Err ErrInvalidMulticodec) /\
              (forall key, decoded = [xed; x01] ++ key ->
                 (length key <> 32%nat -> Resolve did = Err ErrInvalidKeyLength) /\
                 (length key = 32%nat -> Resolve did = Ok key)))))).
Proof.
  intros parts. split.
  - intros [Hlen|Hdid]; [by apply Resolve_short|].
    destruct (Nat.lt_ge_cases (length parts) 3) as [Hlt|Hge];
      [by apply Resolve_short|].
    destruct (parts_at_least_3 parts Hge) as [rest Hparts].
    rewrite (Resolve_parts _ _ _ _ _ Hparts).
    apply String.eqb_neq in Hdid. by rewrite Hdid.
  - intros Hge Hdid.
    destruct (parts_at_least_3 parts Hge) as [more Hparts].
    rewrite (Resolve_parts _ _ _ _ _ Hparts), Hdid. simpl. split.
    + intros Hmethod. apply String.eqb_neq in Hmethod. by rewrite Hmethod.
    + intros ->. simpl. split; [apply resolveKey_not_z|].
      intros rest ->. rewrite resolveKey_z. split.
      * by intros e ->.
      * intros decoded ->. split.
        -- intros Htag. destruct decoded as [|b0 [|b1 key]]; [done..|].
           destruct (Byte.eqb b0 xed) eqn:H0; [|done].
           destruct (Byte.eqb b1 x01) eqn:H1; [|done].
           apply Byte.byte_dec_bl in H0, H1. by subst.
        -- intros key ->. simpl. split.
           ++ intros Hlen. apply Nat.eqb_neq in Hlen. by rewrite Hlen.
           ++ intros ->. done.
Qed.

(** The success case of [Resolve_outcomes] at [sample_did]. *)
Lemma Resolve_outcomes_witness : Resolve sample_did = Ok sample_key.
Proof.
  destruct (Resolve_outcomes sample_did) as [_ H].
  destruct H as [_ H]; [vm_compute; lia|reflexivity|].
  destruct (H eq_refl) as [_ Hz].
  destruct (Hz "6MkeXCES4onVW4up9Qgz1KRnZsKmGufcaZxF6Zpv2w5QwUK" eq_refl) as [_ Hd].
  destruct (Hd ([xed; x01] ++ sample_key)) as [_ Hk]; [vm_compute; reflexivity|].
  destruct (Hk sample_key eq_refl) as [_ Hok].
  apply Hok. reflexivity.
Defined.

(** C9. When the identifier has more than three colon-delimited parts, the
    first two being "did" and "key" and the third a 'z'-prefixed base58
    encoding of the tag and a 32-byte key, [Resolve] succeeds with that key:
    the parts after the third play no role. *)
Theorem Resolve_ignores_extra_parts (did p3 : string) (rest : list string)
    (key : bytes) :
  Split did ":" = "did" :: "key" :: p3 :: rest ->
  rest <> [] ->
  p3 = "z" +:+ Encode ([xed; x01] ++ key) ->
  length key = 32%nat ->
  Resolve did = Ok key /\ Resolve did = Resolve ("did:key:" +:+ p3).
Proof.
  intros Hsplit _ -> Hlen.
  rewrite (Resolve_parts _ _ _ _ _ Hsplit).
  rewrite (Resolve_parts _ _ _ _ _ (did_string key)). simpl.
  split; [by apply resolveKey_encoded|done].
Qed.

Lemma Resolve_ignores_extra_parts_witness :
  Resolve (sample_did +:+ ":extra:parts") = Ok sample_key /\
  Resolve (sample_did +:+ ":extra:parts") = Resolve sample_did.
Proof.
  apply (Resolve_ignores_extra_parts _
           "z6MkeXCES4onVW4up9Qgz1KRnZsKmGufcaZxF6Zpv2w5QwUK"
           ["extra"; "parts"] sample_key).
  - reflexivity.
  - discriminate.
  - vm_compute. reflexivity.
  - reflexivity.
Defined.

End IdentifierCodec.

(** ** Revocation registry *)

Module revocationFacts.
Import revocation.

Lemma new_cell_fresh r : heap r !! new_cell r = None.
Proof. apply not_elem_of_dom. unfold new_cell. apply is_fresh. Qed.

Lemma stored_Some r id e :
  stored r id = Some e <->
  exists p, entries r !! id = Some p /\ heap r !! p = Some e.
Proof.
  unfold stored. destruct (entries r !! id) as [p|]; simpl.
  - split; [by exists p|]. by intros (p' & [= <-] & Hp).
  - split; [done|]. by intros (p' & ? & _).
Qed.

(** The shape of the registry after [Register]. *)
Lemma Register_registry id iss sub now io r :
  snd (Register id iss sub now io r) =
  {| heap := <[new_cell r := {| CredentialID := id; IssuerDID := iss;
                                 SubjectDID := sub; Status_of := StatusActive;
                                 IssuedAt := now; RevokedAt := time.zero;
                                 Reason := EmptyString |}]> (heap r);
     entries := <[id := new_cell r]> (entries r);
     path := path r |}.
Proof. done. Qed.

Lemma Revoke_cases id reason now io r :
  Revoke_spec id reason now io r (Revoke id reason now io r).
Proof.
  unfold Revoke.
  destruct (entries r !! id) as [p|] eqn:Hp; [|by constructor].
  destruct (heap r !! p) as [e|] eqn:He; [|by eapply Revoke_nil].
  destruct (String.eqb_spec (Status_of e) StatusRevoked) as [Hst|Hst].
  - by eapply Revoke_already.
  - by eapply Revoke_done.
Qed.

Lemma step_well_formed r o : well_formed r -> well_formed (step r o).
Proof.
  intros Hwf. destruct o as [id iss sub now io|id reason now io| | | |];
    cbn [step]; try done.
  - rewrite Register_registry. intros id' p'. simpl.
    destruct (decide (id = id')) as [->|Hne].
    + rewrite lookup_insert_eq. intros [= <-]. by rewrite lookup_insert_eq.
    + rewrite lookup_insert_ne by done. intros Hp'.
      destruct (Hwf id' p' Hp') as [e He]. exists e.
      rewrite lookup_insert_ne; [done|].
      intros <-. by rewrite new_cell_fresh in He.
  - destruct (Revoke_cases id reason now io r) as [?|?|?|p e Hp He Hst];
      try done.
    intros id' p' Hp'. simpl in *.
    destruct (decide (p = p')) as [->|Hne].
    + rewrite lookup_insert_eq. done.
    + rewrite lookup_insert_ne by done. by apply (Hwf id').
Qed.

Lemma run_app ops ops' r : run (ops ++ ops') r = run ops' (run ops r).
Proof. unfold run. apply fold_left_app. Qed.

Lemma run_well_formed ops r : well_formed r -> well_formed (run ops r).
Proof.
  revert r. induction ops as [|o ops IH]; intros r Hwf; [done|].
  simpl. by apply IH, step_well_formed.
Qed.

Lemma NewRegistry_well_formed : well_formed NewRegistry.
Proof. intros id p. simpl. by rewrite lookup_empty. Qed.

(** A cell, once allocated, stays allocated; its credential id is never
    written again, and a revoked cell stays revoked. *)
Lemma step_cell r o p e :
  well_formed r -> heap r !! p = Some e ->
  exists e', heap (step r o) !! p = Some e' /\
             CredentialID e' = CredentialID e /\
             (Status_of e = StatusRevoked -> Status_of e' = StatusRevoked).
Proof.
  intros Hwf He. destruct o as [id iss sub now io|id reason now io| | | |];
    cbn [step]; try (by exists e).
  - rewrite Register_registry. simpl. exists e.
    rewrite lookup_insert_ne; [done|].
    intros <-. by rewrite new_cell_fresh in He.
  - destruct (Revoke_cases id reason now io r) as [?|?|?|p0 e0 Hp0 He0 Hst];
      try (by exists e).
    simpl. destruct (decide (p0 = p)) as [->|Hne].
    + rewrite lookup_insert_eq. eexists. split; [done|]. simpl.
      split; [congruence|done].
    + rewrite lookup_insert_ne by done. by exists e.
Qed.

Lemma run_cell ops r p e :
  well_formed r -> heap r !! p = Some e ->
  exists e', heap (run ops r) !! p = Some e' /\
             CredentialID e' = CredentialID e /\
             (Status_of e = StatusRevoked -> Status_of e' = StatusRevoked).
Proof.
  revert r e. induction ops as [|o ops IH]; intros r e Hwf He; [by exists e|].
  simpl. destruct (step_cell r o p e Hwf He) as (e1 & He1 & Hid1 & Hst1).
  destruct (IH (step r o) e1 (step_well_formed r o Hwf) He1)
    as (e2 & He2 & Hid2 & Hst2).
  exists e2. split; [done|]. split; [congruence|auto].
Qed.

(** An operation other than [Register] of the same id leaves the map entry
    of that id pointing to the same cell. *)
Lemma step_entries r o id :
  well_formed r -> registers id o = false ->
  entries (step r o) !! id = entries r !! id.
Proof.
  intros Hwf Hreg. destruct o as [id' iss sub now io|id' reason now io| | | |];
    cbn [step]; try done.
  - rewrite Register_registry. simpl. simpl in Hreg.
    apply String.eqb_neq in Hreg. by rewrite lookup_insert_ne.
  - by destruct (Revoke_cases id' reason now io r).
Qed.

Lemma step_revoked r o id :
  well_formed r -> registers id o = false ->
  status_is r id StatusRevoked -> status_is (step r o) id StatusRevoked.
Proof.
  intros Hwf Hreg (e & Hstored & Hst).
  apply stored_Some in Hstored as (p & Hp & He).
  destruct (step_cell r o p e Hwf He) as (e' & He' & _ & Hst').
  exists e'. split; [|by apply Hst'].
  apply stored_Some. exists p. split; [|done].
  by rewrite step_entries.
Qed.

Lemma run_revoked ops r id :
  well_formed r -> forallb (fun o => negb (registers id o)) ops = true ->
  status_is r id StatusRevoked -> status_is (run ops r) id StatusRevoked.
Proof.
  revert r. induction ops as [|o ops IH]; intros r Hwf Hops Hst; [done|].
  simpl in *. apply andb_prop in Hops as [Ho Hops].
  apply negb_true_iff in Ho.
  apply IH; [by apply step_well_formed|done|by apply step_revoked].
Qed.

Lemma step_keyed r o : well_formed r -> keyed r -> keyed (step r o).
Proof.
  intros Hwf Hkeyed. destruct o as [id iss sub now io|id reason now io| | | |];
    cbn [step]; try done.
  - rewrite Register_registry. intros id' e' Hstored.
    apply stored_Some in Hstored as (p' & Hp' & He'). simpl in *.
    destruct (decide (id = id')) as [->|Hne].
    + rewrite lookup_insert_eq in Hp'. injection Hp' as <-.
      rewrite lookup_insert_eq in He'. by injection He' as <-.
    + rewrite lookup_insert_ne in Hp' by done.
      destruct (Hwf id' p' Hp') as [e0 He0].
      rewrite lookup_insert_ne in He'
        by (intros <-; by rewrite new_cell_fresh in He0).
      apply (Hkeyed id' e'), stored_Some. by exists p'.
  - destruct (Revoke_cases id reason now io r) as [?|?|?|p e Hp He Hst];
      try done.
    intros id' e' Hstored.
    apply stored_Some in Hstored as (p' & Hp' & He'). simpl in *.
    destruct (decide (p = p')) as [->|Hne].
    + rewrite lookup_insert_eq in He'. injection He' as <-. simpl.
      apply (Hkeyed id' e), stored_Some. by exists p'.
    + rewrite lookup_insert_ne in He' by done.
      apply (Hkeyed id' e'), stored_Some. by exists p'.
Qed.

Lemma run_keyed ops r : well_formed r -> keyed r -> keyed (run ops r).
Proof.
  revert r. induction ops as [|o ops IH]; intros r Hwf Hk; [done|].
  simpl. apply IH; [by apply step_well_formed|by apply step_keyed].
Qed.

Lemma NewRegistry_keyed : keyed NewRegistry.
Proof. intros id e. unfold stored. simpl. by rewrite lookup_empty. Qed.

End revocationFacts.

Module RegistryClaims.
Import revocation revocationFacts Examples.

Lemma registered_stored : stored registered sample_id = Some sample_entry.
Proof. vm_compute. reflexivity. Qed.

Lemma registered_well_formed : well_formed registered.
Proof. apply run_well_formed, NewRegistry_well_formed. Qed.

(** The scenario of the specification: register, check, revoke, check. *)
Example scenario :
  stored registered sample_id = Some sample_entry /\
  let '(res, r) := Revoke sample_id "fraud detected" 20%Z None registered in
  res = Ok tt /\
  stored r sample_id = Some (revoked_entry sample_entry 20%Z "fraud detected") /\
  IsRevoked sample_id r = Ok true.
Proof. vm_compute. auto. Qed.

(** C2, as stated, fails: registering the id of a revoked credential again
    puts a fresh Active entry under that id. *)
Lemma register_after_revoke_is_active :
  status_is (run [register_sample 10%Z; revoke_sample 20%Z] NewRegistry)
    sample_id StatusRevoked /\
  status_is (run ([register_sample 10%Z; revoke_sample 20%Z] ++
                  [register_sample 30%Z]) NewRegistry)
    sample_id StatusActive.
Proof. split; eexists; split; vm_compute; reflexivity. Qed.

(** C2, amended.  Along every sequence of registry operations from the empty
    registry: once the entry stored under an id is Revoked it stays Revoked
    for as long as that id is not registered again; the entry stored under
    an id always carries that id; and the credential id of an entry, once
    allocated, never changes (nor does a revoked entry become anything but
    Revoked). *)
Theorem revocation_monotone (ops1 ops2 : list op) (id : string) :
  (status_is (run ops1 NewRegistry) id StatusRevoked ->
   forallb (fun o => negb (registers id o)) ops2 = true ->
   status_is (run (ops1 ++ ops2) NewRegistry) id StatusRevoked) /\
  (forall e, stored (run ops1 NewRegistry) id = Some e -> CredentialID e = id) /\
  (forall p e, heap (run ops1 NewRegistry) !! p = Some e ->
     exists e', heap (run (ops1 ++ ops2) NewRegistry) !! p = Some e' /\
                CredentialID e' = CredentialID e /\
                (Status_of e = StatusRevoked -> Status_of e' = StatusRevoked)).
Proof.
  pose proof (run_well_formed ops1 _ NewRegistry_well_formed) as Hwf.
  split; [|split].
  - intros Hst Hops. rewrite run_app. by apply run_revoked.
  - intros e. apply (run_keyed ops1 _ NewRegistry_well_formed NewRegistry_keyed).
  - intros p e He. rewrite run_app. by apply run_cell.
Qed.

Lemma revocation_monotone_witness :
  status_is (run ([register_sample 10%Z; revoke_sample 20%Z] ++
                  [OpIsRevoked sample_id; revoke_sample 30%Z;
                   OpRegister "urn:uuid:2" "did:key:zIssuer" "did:key:zOther"
                     40%Z None]) NewRegistry)
    sample_id StatusRevoked.
Proof.
  apply (revocation_monotone [register_sample 10%Z; revoke_sample 20%Z]).
  - eexists. split; vm_compute; reflexivity.
  - vm_compute. reflexivity.
Defined.




(** C8, as stated, fails for a registry with a backing file: when the write
    of the file fails, [Revoke] of a registered, active credential returns
    that error, though the entry is revoked in memory. *)
Lemma Revoke_reports_persist_error :
  let r := snd (Register sample_id "did:key:zIssuer" "did:key:zSubject" 10%Z
                  None (NewRegistryWithFile_fresh "registry.json")) in
  stored r sample_id = Some sample_entry /\
  fst (Revoke sample_id "fraud detected" 20%Z (Some "no space left on device") r)
  = Err (ErrPersist "no space left on device") /\
  stored (snd (Revoke sample_id "fraud detected" 20%Z
                 (Some "no space left on device") r)) sample_id
  = Some (revoked_entry sample_entry 20%Z "fraud detected").
Proof. vm_compute. auto. Qed.

Lemma save_poke io p e r : save io (poke p e r) = save io r.
Proof. done. Qed.

(** C8, amended.  [Revoke] fails with [ErrCredentialNotFound] exactly when
    the id has no entry and with [ErrAlreadyRevoked] exactly when the entry's
    status is already Revoked; for an entry that is not yet Revoked it sets
    the status to Revoked, the revoked-at to the current time and the reason
    to the given one, and returns the outcome of persisting, which is success
    for a registry without a file and whenever the write succeeds.  After
    that [IsRevoked] answers true and any further [Revoke] of the id fails
    with [ErrAlreadyRevoked]. *)
Theorem Revoke_outcomes (r : Registry) (id reason : string) (now : Time)
    (io : option string) :
  let res := fst (Revoke id reason now io r) in
  let r' := snd (Revoke id reason now io r) in
  (res = Err ErrCredentialNotFound <-> entries r !! id = None) /\
  (res = Err ErrAlreadyRevoked <->
     exists e, stored r id = Some e /\ Status_of e = StatusRevoked) /\
  (forall e, stored r id = Some e -> Status_of e <> StatusRevoked ->
     res = save io r /\
     (path r = EmptyString \/ io = None -> res = Ok tt) /\
     stored r' id = Some (revoked_entry e now reason) /\
     entries r' = entries r /\
     IsRevoked id r' = Ok true /\
     forall reason2 now2 io2,
       fst (Revoke id reason2 now2 io2 r') = Err ErrAlreadyRevoked).
Proof.
  intros res r'. subst res r'.
  destruct (Revoke_cases id reason now io r)
    as [Hid|p Hp He|p e Hp He Hst|p e Hp He Hst].
  - simpl. split; [done|]. split.
    + split; [done|]. intros (e & Hs & _). apply stored_Some in Hs as (p & Hp & _).
      congruence.
    + intros e Hs. apply stored_Some in Hs as (p & Hp & _). congruence.
  - simpl. split; [split; [done|congruence]|]. split.
    + split; [done|]. intros (e & Hs & _).
      apply stored_Some in Hs as (p0 & Hp0 & He0). congruence.
    + intros e Hs. apply stored_Some in Hs as (p0 & Hp0 & He0). congruence.
  - simpl. split; [split; [done|congruence]|]. split.
    + split; [|done]. intros _. exists e. split; [|done].
      apply stored_Some. by exists p.
    + intros e0 Hs. apply stored_Some in Hs as (p0 & Hp0 & He0).
      assert (p0 = p) as -> by congruence. assert (e0 = e) as -> by congruence.
      done.
  - cbn [fst snd]. subst r'. rewrite save_poke.
    assert (forall e0, save io r <> Err e0 \/
              exists msg, e0 = ErrPersist msg) as Hsave.
    { intros e0. unfold save.
      destruct (String.eqb (path r) EmptyString); [by left|].
      destruct io as [msg|]; [|by left].
      destruct e0; try (left; congruence). right. by eexists. }
    split; [|split].
    + split.
      * intros Hres. destruct (Hsave ErrCredentialNotFound) as [?|[? ?]]; done.
      * congruence.
    + split.
      * intros Hres. destruct (Hsave ErrAlreadyRevoked) as [?|[? ?]]; done.
      * intros (e0 & Hs & Hst0). apply stored_Some in Hs as (p0 & Hp0 & He0).
        assert (p0 = p) as -> by congruence. congruence.
    + intros e0 Hs Hst0. apply stored_Some in Hs as (p0 & Hp0 & He0).
      assert (p0 = p) as -> by congruence. assert (e0 = e) as -> by congruence.
      split; [done|]. split.
      { unfold save. intros [Hpath | ->].
        - by rewrite Hpath.
        - by destruct (String.eqb _ _). }
      assert (stored (poke p (revoked_entry e now reason) r) id =
              Some (revoked_entry e now reason)) as Hstored.
      { apply stored_Some. exists p. simpl. by rewrite lookup_insert_eq. }
      split; [exact Hstored|]. split; [done|].
      apply stored_Some in Hstored as (p1 & Hp1 & He1). split.
      * unfold IsRevoked, CheckStatus. by rewrite Hp1, He1.
      * intros reason2 now2 io2. unfold Revoke. by rewrite Hp1, He1.
Qed.

Lemma Revoke_outcomes_witness :
  fst (Revoke sample_id "fraud detected" 20%Z None registered) = Ok tt /\
  IsRevoked sample_id
    (snd (Revoke sample_id "fraud detected" 20%Z None registered)) = Ok true.
Proof.
  destruct (Revoke_outcomes registered sample_id "fraud detected" 20%Z None)
    as (_ & _ & H).
  destruct (H sample_entry registered_stored) as (_ & Hok & _ & _ & Hrev & _).
  - discriminate.
  - split; [apply Hok; by left|exact Hrev].
Defined.

(** C10. When [Revoke] returns [ErrCredentialNotFound] or
    [ErrAlreadyRevoked], the registry -- its map and every entry -- is
    exactly as it was before the call. *)
Theorem Revoke_error_leaves_registry (r : Registry) (id reason : string)
    (now : Time) (io : option string) :
  fst (Revoke id reason now io r) = Err ErrCredentialNotFound \/
  fst (Revoke id reason now io r) = Err ErrAlreadyRevoked ->
  snd (Revoke id reason now io r) = r.
Proof.
  unfold Revoke.
  destruct (entries r !! id) as [p|]; [|done].
  destruct (heap r !! p) as [e|]; [|done].
  destruct (String.eqb (Status_of e) StatusRevoked); [done|].
  cbn [fst snd]. rewrite save_poke. unfold save.
  destruct (String.eqb (path r) EmptyString); [intros [?|?]; done|].
  destruct io; intros [?|?]; done.
Qed.

Lemma Revoke_error_leaves_registry_witness :
  snd (Revoke "urn:uuid:unknown" "reason" 20%Z None registered) = registered.
Proof.
  apply Revoke_error_leaves_registry. left. vm_compute. reflexivity.
Defined.

End RegistryClaims.

(** ** JSON: strings that the encoder leaves alone, and decoded maps *)

Module jsonFacts.
Import json.

Lemma coerce_ascii s :
  Forall (fun c => (N_of_ascii c < 128)%N) (list_ascii_of_string s) ->
  coerce s = s.
Proof.
  unfold coerce. induction s as [|c s IH]; [done|]. simpl.
  intros Hall. inversion Hall as [|? ? Hc Hs]; subst.
  unfold rune_size. apply N.ltb_lt in Hc. rewrite Hc. by rewrite IH.
Qed.

Lemma list_ascii_of_string_app s t :
  list_ascii_of_string (s +:+ t) =
  list_ascii_of_string s ++ list_ascii_of_string t.
Proof. induction s as [|c s IH]; [done|]. simpl. by rewrite IH. Qed.

Lemma ValidString_coerce s : ValidString s = true -> coerce s = s.
Proof. unfold ValidString. by intros ?%String.eqb_eq. Qed.

Lemma to_strings_strings l : to_strings (strings l) = Some (map coerce l).
Proof.
  unfold to_strings, strings. induction l as [|s l IH]; [done|].
  simpl in *. by rewrite IH.
Qed.

Lemma map_coerce_valid l :
  Forall (fun s => ValidString s = true) l -> map coerce l = l.
Proof.
  induction 1 as [|s l Hs _ IH]; [done|]. simpl.
  by rewrite (ValidString_coerce s Hs), IH.
Qed.

(** *** Numbers *)

Lemma int_range n : (- 2 ^ 63 <= int n < 2 ^ 63)%Z.
Proof.
  unfold int. pose proof (Z.mod_pos_bound (n + 2 ^ 63) (2 ^ 64) ltac:(done)).
  lia.
Qed.

Lemma int_small n : (- 2 ^ 63 <= n < 2 ^ 63)%Z -> int n = n.
Proof. intros Hn. unfold int. rewrite Z.mod_small; lia. Qed.

(** An integer of up to 53 bits is a [float64]. *)
Lemma float64_exact n : (Z.abs n < 2 ^ 53)%Z -> float64 n = Some n.
Proof.
  intros Hn. unfold float64.
  assert (Z.log2 (Z.abs n) < 53)%Z as Hlog.
  { destruct (Z.eq_dec (Z.abs n) 0%Z) as [->|Hne]; [done|].
    apply Z.log2_lt_pow2; lia. }
  destruct (Z.leb_spec (Z.log2 (Z.abs n) + 1 - 53) 0); [|lia].
  destruct (Z.leb_spec 1024 (Z.log2 (Z.abs n))); [lia|].
  f_equal. lia.
Qed.

(** Every [int] has a [float64]: there is no overflow on that range. *)
Lemma float64_int n : is_Some (float64 (int n)).
Proof.
  pose proof (int_range n) as Hr. unfold float64.
  set (a := Z.abs (int n)). assert (0 <= a <= 2 ^ 63)%Z as Ha by (unfold a; lia).
  set (excess := (Z.log2 a + 1 - 53)%Z).
  match goal with
  | |- is_Some (if (1024 <=? Z.log2 ?r)%Z then _ else _) =>
      assert (Z.log2 r < 1024)%Z as Hlog; [|
        destruct (Z.leb_spec 1024 (Z.log2 r)); [lia|by eexists]]
  end.
  destruct (Z.leb_spec excess 0) as [Hex|Hex].
  - pose proof (Z.log2_le_mono a (2 ^ 63) ltac:(lia)) as Hm.
    rewrite Z.log2_pow2 in Hm by lia. lia.
  - assert (0 < a)%Z as Hpos.
    { destruct (Z.eq_dec a 0%Z) as [H0|]; [|lia].
      unfold excess in Hex. rewrite H0 in Hex. simpl in Hex. lia. }
    pose proof (Z.log2_spec a Hpos) as [Hlo _].
    set (unit := (2 ^ excess)%Z) in *.
    assert (0 < unit <= a)%Z as Hunit.
    { split; [apply Z.pow_pos_nonneg; lia|].
      etransitivity; [|exact Hlo]. apply Z.pow_le_mono_r; unfold excess; lia. }
    pose proof (Z.div_mod a unit ltac:(lia)) as Hdm.
    pose proof (Z.mod_pos_bound a unit ltac:(lia)) as Hmod.
    pose proof (Z.div_pos a unit ltac:(lia) ltac:(lia)) as Hq.
    set (q := (a / unit)%Z) in *. set (rem := (a mod unit)%Z) in *.
    match goal with
    | |- (Z.log2 (?x * unit) < 1024)%Z =>
        assert (0 <= x <= q + 1)%Z as Hup by (destruct (_ || _); lia);
        generalize dependent x
    end.
    intros up Hup.
    assert (up * unit <= 2 ^ 64)%Z as Hle by nia.
    pose proof (Z.log2_le_mono (up * unit) (2 ^ 64) Hle) as Hm.
    rewrite Z.log2_pow2 in Hm by lia. lia.
Qed.

(** *** Maps *)

Lemma compare_eqb k k' :
  String.eqb k' k = match String.compare k k' with Eq => true | _ => false end.
Proof.
  destruct (String.eqb_spec k' k) as [->|Hne].
  - pose proof (String.compare_antisym k k) as Hc.
    by destruct (String.compare k k).
  - destruct (String.compare k k') eqn:Hc; try done.
    apply String.compare_eq_iff in Hc. congruence.
Qed.

Lemma lookup_store k k' v m :
  lookup k (store k' v m) = if String.eqb k' k then Some v else lookup k m.
Proof.
  induction m as [|[k0 v0] m IH]; [done|]. simpl.
  destruct (String.compare k' k0) eqn:Hc; simpl.
  - apply String.compare_eq_iff in Hc as <-. by destruct (String.eqb k' k).
  - done.
  - rewrite IH. destruct (String.eqb_spec k' k) as [->|]; [|done].
    rewrite (compare_eqb k k0), Hc. done.
Qed.

Lemma lookup_app k l1 l2 :
  lookup k (l1 ++ l2) =
  match lookup k l1 with Some v => Some v | None => lookup k l2 end.
Proof.
  induction l1 as [|[k0 v0] l1 IH]; [done|]. simpl.
  by destruct (String.eqb k0 k).
Qed.

Lemma lookup_absent k l :
  Forall (fun kv => fst kv <> k) l -> lookup k l = None.
Proof.
  induction 1 as [|[k0 v0] l Hk _ IH]; [done|]. simpl in *.
  apply String.eqb_neq in Hk. by rewrite Hk.
Qed.

(** A member that is written once comes back, decoded, under its key. *)
Lemma decode_members_lookup dec l acc m k :
  decode_members dec l acc = Some m ->
  lookup k m =
  match lookup k (rev l) with
  | Some x => dec x
  | None => lookup k acc
  end.
Proof.
  revert acc. induction l as [|[k0 x0] l IH]; intros acc; simpl.
  - by intros [= <-].
  - destruct (dec x0) as [x0'|] eqn:Hx0; [|done]. simpl. intros Hm.
    rewrite (IH _ Hm), lookup_app, lookup_store. simpl.
    destruct (lookup k (rev l)); [done|].
    by destruct (String.eqb k0 k).
Qed.

Lemma decode_members_total dec l acc :
  Forall (fun kv => is_Some (dec (snd kv))) l ->
  is_Some (decode_members dec l acc).
Proof.
  intros Hall. revert acc. induction Hall as [|[k0 x0] l [x0' Hx0] _ IH];
    intros acc; simpl; [by eexists|].
  simpl in Hx0. rewrite Hx0. simpl. apply IH.
Qed.

Lemma decode_items_strings l :
  decode_items to_interface (map string_ l) = Some (map string_ l).
Proof. induction l as [|s l IH]; [done|]. simpl. by rewrite IH. Qed.

Lemma to_interface_strings l : to_interface (strings l) = Some (strings l).
Proof. unfold strings. simpl. by rewrite decode_items_strings. Qed.

End jsonFacts.

(** ** Tokens: what [VerifyVC] reads from what [IssueVCWithID] wrote *)

Module vcFacts.
Import json jsonFacts paseto vc.

Lemma key_sizes `{Platform} pub priv :
  KeyPair pub priv ->
  length pub = PublicKeySize /\ length priv = PrivateKeySize.
Proof.
  intros (seed & Hseed & -> & ->).
  rewrite length_app, ed25519_public_size, Hseed. done.
Qed.

Lemma open_own_token `{Platform} pub priv token :
  KeyPair pub priv -> v4_public_open pub (v4_public_sign priv token) = Ok token.
Proof. intros (seed & Hseed & -> & ->). by apply v4_open_sign. Qed.


Lemma equal_eq a b : equal a b = true <-> a = b.
Proof.
  revert b. induction a as [|x a IH]; intros [|y b]; simpl; try done.
  rewrite andb_true_iff, IH. split.
  - intros [Hxy ->]. by rewrite (Byte.byte_dec_bl _ _ Hxy).
  - intros [= -> ->]. split; [apply Byte.byte_dec_lb|]; done.
Qed.

(** The secret keys that the constructor accepts are the private keys of
    the key pairs. *)
Lemma new_secret_key_iff `{Platform} priv :
  is_ok (NewV4AsymmetricSecretKeyFromBytes priv) = true <->
  exists pub, KeyPair pub priv.
Proof.
  unfold NewV4AsymmetricSecretKeyFromBytes. split.
  - destruct (Nat.eqb_spec (length priv) PrivateKeySize) as [Hlen|]; [|done].
    simpl. destruct (equal _ _) eqn:Heq; [|done]. intros _.
    apply equal_eq in Heq. exists (drop SeedSize priv), (take SeedSize priv).
    split; [|split].
    + rewrite length_take, Hlen. done.
    + done.
    + by rewrite take_drop.
  - intros (pub & seed & Hseed & -> & ->).
    rewrite length_app, ed25519_public_size, Hseed. simpl.
    rewrite <- Hseed at 1 2. rewrite drop_app_length, take_app_length.
    by rewrite (proj2 (equal_eq _ _) eq_refl).
Qed.

Lemma new_secret_key `{Platform} pub priv :
  KeyPair pub priv ->
  NewV4AsymmetricSecretKeyFromBytes priv = Ok {| secret_material := priv |}.
Proof.
  intros Hkp.
  assert (is_ok (NewV4AsymmetricSecretKeyFromBytes priv) = true) as Hok
    by (apply new_secret_key_iff; by exists pub).
  unfold NewV4AsymmetricSecretKeyFromBytes in *.
  destruct (negb _); [done|]. by destruct (negb _).
Qed.

Lemma new_public_key key :
  length key = PublicKeySize ->
  NewV4AsymmetricPublicKeyFromBytes key = Ok {| public_material := key |}.
Proof.
  intros Hlen. unfold NewV4AsymmetricPublicKeyFromBytes.
  by rewrite Hlen, Nat.eqb_refl.
Qed.

(** *** The subject, encoded and decoded *)

Ltac member_cases :=
  rewrite ?Forall_app; repeat split;
  unfold member, omitempty_string, omitempty_int, omitempty_strings;
  repeat case_match; repeat constructor.

Lemma decoded_object k v v' rest :
  to_interface v = Some v' ->
  Forall (fun kv => is_Some (to_interface (snd kv))) rest ->
  Forall (fun kv => fst kv <> k) rest ->
  exists m,
    to_interface (Object (member k v ++ rest)) = Some (Object m) /\
    lookup k m = Some v'.
Proof.
  intros Hv Hall Hkeys.
  destruct (decode_members_total to_interface (member k v ++ rest) [])
    as [m Hm].
  { apply Forall_app. split; [|done]. repeat constructor. simpl.
    by rewrite Hv. }
  exists m. change (to_interface (Object ?l)) with
    (Object <$> decode_members to_interface l []).
  rewrite Hm. split; [done|].
  rewrite (decode_members_lookup _ _ _ _ k Hm), rev_app_distr, lookup_app.
  rewrite lookup_absent by (by apply Forall_rev). simpl.
  by rewrite String.eqb_refl.
Qed.

Lemma marshal_subject_decoded subject :
  exists members m,
    marshal_subject subject = Object members /\
    to_interface (Object members) = Some (Object m) /\
    lookup "id" m = Some (Str (coerce (GetID subject))).
Proof.
  destruct subject as [s|s|s|s]; unfold marshal_subject, GetID;
    match goal with
    | |- context [Object (member "id" (string_ ?id) ++ ?rest)] =>
        destruct (decoded_object "id" (string_ id) (Str (coerce id)) rest)
          as (m & Hm & Hid);
        [done| |
         |by exists (member "id" (string_ id) ++ rest), m]
    end;
    member_cases; simpl; try done; try (by eexists);
    try (destruct (float64_int (edu_CreditsEarned s)) as [r ->]; by eexists);
    try (rewrite decode_items_strings; by eexists).
Qed.

Lemma decoded_subject_object subject :
  exists m,
    decoded_subject subject = SubjectJSON (Object m) /\
    lookup "id" m = Some (Str (coerce (GetID subject))).
Proof.
  destruct (marshal_subject_decoded subject) as (members & m & Hm & Hdec & Hid).
  exists m. unfold decoded_subject. by rewrite Hm, Hdec.
Qed.

Lemma coerce_CredentialType subject :
  coerce (CredentialType subject) = CredentialType subject.
Proof. by destruct subject. Qed.

Section with_platform.
Context `{Platform}.

Lemma IssueVCWithID_token pub issuerDID subjectDID priv subject credentialID
    now :
  KeyPair pub priv ->
  IssueVCWithID issuerDID subjectDID (Ed25519PrivateKey priv) subject
    credentialID now =
  Ok (v4_public_sign priv
        (issued_token issuerDID subjectDID subject credentialID now)).
Proof.
  intros Hkp. unfold IssueVCWithID, issued_token, issued_VC.
  rewrite (new_secret_key pub) by done. cbn [lift mbind result_bind].
  unfold V4Sign. cbn [secret_material].
  destruct (String.eqb_spec credentialID EmptyString) as [->|Hne]; done.
Qed.

Lemma unmarshal_issued_VC subject credentialID :
  unmarshal_VC (marshal_VC (issued_VC subject credentialID)) =
  Some {| vc_ID := coerce credentialID;
          vc_Type := ["VerifiableCredential"; CredentialType subject];
          vc_CredentialSubject := decoded_subject subject;
          vc_CredentialStatus :=
            if String.eqb credentialID EmptyString then None
            else Some {| cs_ID := coerce credentialID;
                         cs_Type := "RevocationRegistry2024" |} |}.
Proof.
  destruct (marshal_subject_decoded subject) as (members & m & Hm & Hdec & _).
  unfold decoded_subject. rewrite Hm, Hdec.
  unfold marshal_VC, issued_VC, omitempty_string.
  cbn [vc_ID vc_Type vc_CredentialSubject vc_CredentialStatus
       marshal_subject_value].
  rewrite Hm.
  destruct (String.eqb_spec credentialID EmptyString) as [->|Hne];
    cbn [unmarshal_VC member app field lookup String.eqb Ascii.eqb Bool.eqb
         mbind option_bind to_string string_ unmarshal_subject_value];
    rewrite to_strings_strings, Hdec; cbn [map fmap option_fmap option_map
      mbind option_bind]; rewrite coerce_CredentialType; done.
Qed.

Lemma issued_token_claims issuerDID subjectDID subject credentialID now :
  let token := issued_token issuerDID subjectDID subject credentialID now in
  GetIssuer token = Ok (coerce issuerDID) /\
  GetSubject token = Ok (coerce subjectDID) /\
  GetIssuedAt token = Ok (whole_seconds now) /\
  GetExpiration token = Ok (credential_expiry now) /\
  match GetString "jti" token with Ok s => s | Err _ => EmptyString end
    = coerce credentialID /\
  Get "vc" token = Ok (marshal_VC (issued_VC subject credentialID)).
Proof.
  unfold issued_token, GetIssuer, GetSubject, GetIssuedAt, GetExpiration,
    GetTime, GetString, Get, SetExpiration, SetIssuedAt, SetSubject, SetIssuer,
    SetTime, SetString, Set_, NewToken, credential_expiry, string_.
  destruct (String.eqb_spec credentialID EmptyString) as [->|Hne];
    cbn [claims mbind result_bind]; claim_lookup;
    cbn [mbind result_bind to_string];
    rewrite ?format_text, ?parse_format; done.
Qed.

(** [VerifyVC] on an issued token, at any instant: the parser's
    [NotExpired] rule decides. *)
Lemma VerifyVC_issued pub priv issuerDID subjectDID subject credentialID
    now now' :
  KeyPair pub priv ->
  VerifyVC
    (v4_public_sign priv
       (issued_token issuerDID subjectDID subject credentialID now))
    pub now' =
  if time.After now' (credential_expiry now)
  then Err (ErrPaseto ErrExpired)
  else Ok (verified_claims issuerDID subjectDID subject credentialID now).
Proof.
  intros Hkp. destruct (key_sizes pub priv Hkp) as [Hpub _].
  pose proof (issued_token_claims issuerDID subjectDID subject credentialID now)
    as (Hiss & Hsub & Hiat & Hexp & Hjti & Hvc).
  unfold VerifyVC. rewrite new_public_key by done.
  cbn [lift mbind result_bind]. unfold ParseV4Public.
  cbn [public_material]. rewrite open_own_token by done.
  cbn [mbind result_bind NewParser rules validate]. unfold NotExpired.
  rewrite Hexp. cbn [mbind result_bind].
  destruct (time.After now' (credential_expiry now)); [done|].
  cbn [lift mbind result_bind].
  rewrite Hiss, Hsub, Hiat, Hexp, Hjti, Hvc. cbn [lift mbind result_bind].
  by rewrite unmarshal_issued_VC.
Qed.


End with_platform.

End vcFacts.

(** ** Tokens: what [VerifyPresentation] reads from what
    [CreatePresentation] wrote *)

Module presentationFacts.
Import json jsonFacts paseto presentation vcFacts.

Lemma urn_uuid_head idBytes :
  exists rest, urn_uuid idBytes = String "u" rest.
Proof. eexists. unfold urn_uuid. reflexivity. Qed.

Lemma hex_digit_ascii n : (N_of_ascii (hex.digit n) < 128)%N.
Proof.
  unfold hex.digit. generalize (N.to_nat n) as k. intros k.
  do 16 (destruct k as [|k]; [done|]). done.
Qed.

Lemma EncodeToString_ascii src :
  Forall (fun c => (N_of_ascii c < 128)%N)
         (list_ascii_of_string (hex.EncodeToString src)).
Proof.
  induction src as [|b src IH]; [constructor|]. simpl.
  repeat constructor; [apply hex_digit_ascii..|exact IH].
Qed.

(** A presentation id is ASCII: the encoder leaves it as it is. *)
Lemma coerce_urn_uuid idBytes : coerce (urn_uuid idBytes) = urn_uuid idBytes.
Proof.
  apply coerce_ascii. unfold urn_uuid.
  rewrite !list_ascii_of_string_app, !Forall_app.
  repeat split; try apply EncodeToString_ascii; by repeat constructor.
Qed.

Section with_platform.
Context `{Platform}.

Lemma CreatePresentation_token pub holderDID priv credentials audience nonce
    idBytes now :
  KeyPair pub priv -> credentials <> [] ->
  CreatePresentation holderDID priv credentials audience nonce (Ok idBytes) now =
  Ok (v4_public_sign priv
        (created_token holderDID credentials audience nonce idBytes now)).
Proof.
  intros Hkp Hne. unfold CreatePresentation.
  destruct credentials as [|c credentials]; [done|].
  cbn [length Nat.eqb]. by rewrite (new_secret_key pub) by done.
Qed.

Lemma unmarshal_created_VP holderDID credentials audience nonce idBytes now :
  unmarshal_VP (marshal_VP (created_VP holderDID credentials idBytes)) =
  Some (VP (verified_presentation holderDID credentials audience nonce
              idBytes now)).
Proof.
  unfold marshal_VP, created_VP, omitempty_string.
  cbn [vp_Context vp_Type vp_ID vp_Holder vp_VerifiableCredential VP
       verified_presentation].
  unfold string_ at 1. rewrite coerce_urn_uuid.
  destruct (urn_uuid_head idBytes) as [rest ->].
  cbn [String.eqb]. cbn [unmarshal_VP member app field lookup String.eqb
    Ascii.eqb Bool.eqb mbind option_bind to_string string_].
  rewrite !to_strings_strings. done.
Qed.

Lemma created_token_claims holderDID credentials audience nonce idBytes now :
  let token := created_token holderDID credentials audience nonce idBytes now in
  GetIssuer token = Ok (coerce holderDID) /\
  GetSubject token = Ok (coerce holderDID) /\
  GetAudience token = Ok (coerce audience) /\
  GetIssuedAt token = Ok (whole_seconds now) /\
  GetExpiration token = Ok (presentation_expiry now) /\
  GetString "nonce" token = Ok (coerce nonce) /\
  Get "vp" token = Ok (marshal_VP (created_VP holderDID credentials idBytes)).
Proof.
  unfold created_token, GetIssuer, GetSubject, GetAudience, GetIssuedAt,
    GetExpiration, GetTime, GetString, Get, SetExpiration, SetIssuedAt,
    SetAudience, SetSubject, SetIssuer, SetTime, SetString, Set_, NewToken,
    presentation_expiry, string_.
  cbn [claims mbind result_bind]; claim_lookup;
    cbn [mbind result_bind to_string];
    rewrite ?format_text, ?parse_format; done.
Qed.

(** [VerifyPresentation] on a created token, in the order of its checks. *)
Lemma VerifyPresentation_created pub priv holderDID credentials audience nonce
    idBytes now expectedAudience expectedNonce now_parser now_check :
  KeyPair pub priv ->
  VerifyPresentation
    (v4_public_sign priv
       (created_token holderDID credentials audience nonce idBytes now))
    pub expectedAudience expectedNonce now_parser now_check =
  if time.After now_parser (presentation_expiry now)
  then Err (ErrPaseto ErrExpired)
  else if negb (String.eqb expectedAudience EmptyString)
          && negb (String.eqb (coerce audience) expectedAudience)
  then Err ErrAudienceMismatch
  else if negb (String.eqb expectedNonce EmptyString)
          && negb (String.eqb (coerce nonce) expectedNonce)
  then Err ErrNonceMismatch
  else if time.After now_check (presentation_expiry now)
  then Err ErrPresentationExpired
  else Ok (verified_presentation holderDID credentials audience nonce idBytes now).
Proof.
  intros Hkp. destruct (key_sizes pub priv Hkp) as [Hpub _].
  pose proof (created_token_claims holderDID credentials audience nonce
                idBytes now) as (Hiss & Hsub & Haud & Hiat & Hexp & Hnonce & Hvp).
  unfold VerifyPresentation. rewrite new_public_key by done.
  cbn [lift mbind result_bind]. unfold ParseV4Public.
  cbn [public_material]. rewrite open_own_token by done.
  cbn [mbind result_bind NewParser rules validate]. unfold NotExpired.
  rewrite Hexp. cbn [mbind result_bind].
  destruct (time.After now_parser (presentation_expiry now)); [done|].
  cbn [lift mbind result_bind].
  rewrite Hiss, Hsub, Haud, Hiat, Hexp, Hnonce. cbn [lift mbind result_bind].
  destruct (negb (String.eqb expectedAudience EmptyString)
            && negb (String.eqb (coerce audience) expectedAudience)); [done|].
  destruct (negb (String.eqb expectedNonce EmptyString)
            && negb (String.eqb (coerce nonce) expectedNonce)); [done|].
  destruct (time.After now_check (presentation_expiry now)); [done|].
  rewrite Hvp. cbn [lift mbind result_bind].
  by rewrite (unmarshal_created_VP _ _ audience nonce _ now).
Qed.

End with_platform.

End presentationFacts.

(** ** Credentials and presentations: the claims *)

Module TokenClaims.
Import json jsonFacts paseto vcFacts presentationFacts Examples Utf8Examples.

(** C1, as stated, fails: on every platform and with every key pair, a
    credential verified 366 days after it was issued is rejected, with the
    error of the parser's expiry rule.  (The last line: such a platform and
    key pair exist.) *)
Lemma expired_credential_is_rejected :
  (forall (H : Platform) (pub priv : bytes),
     KeyPair pub priv ->
     exists token,
       vc.IssueVCWithID "did:key:zIssuer" "did:key:zSubject"
         (vc.Ed25519PrivateKey priv) sample_identity "urn:uuid:1" t0
       = Ok token /\
       vc.VerifyVC token pub (t0 + 366 * day)%Z =
       Err (vc.ErrPaseto ErrExpired)) /\
  KeyPair (H := Toy.platform) Toy.sample_pub Toy.sample_priv.
Proof.
  split; [|apply Toy.sample_key_pair].
  intros H pub priv Hkp. destruct (key_sizes pub priv Hkp) as [_ Hpriv].
  eexists. split; [by apply (IssueVCWithID_token pub)|].
  rewrite VerifyVC_issued by done. reflexivity.
Qed.

(** C1, amended.  For every credential token produced by [IssueVCWithID]
    and the matching public key, [VerifyVC] rejects the token once the
    instant of verification is after the token's expires-at claim (issue time
    plus 365 days, in whole seconds): the parser that [VerifyVC] makes with
    [paseto.NewParser()] carries the expiry rule.  Up to that instant
    verification succeeds and returns the claims. *)
Theorem VerifyVC_rejects_expired `{Platform} (pub priv : bytes)
    (issuerDID subjectDID : string) (subject : vc.CredentialSubject)
    (credentialID : string) (now now' : Time) :
  KeyPair pub priv ->
  exists token claims,
    vc.IssueVCWithID issuerDID subjectDID (vc.Ed25519PrivateKey priv) subject
      credentialID now = Ok token /\
    vc.ExpiresAt claims =
      whole_seconds (time.Add now (365 * 24 * time.Hour)%Z) /\
    (time.After now' (vc.ExpiresAt claims) = true ->
       vc.VerifyVC token pub now' = Err (vc.ErrPaseto ErrExpired)) /\
    (time.After now' (vc.ExpiresAt claims) = false ->
       vc.VerifyVC token pub now' = Ok claims).
Proof.
  intros Hkp. destruct (key_sizes pub priv Hkp) as [_ Hpriv].
  exists (v4_public_sign priv
            (vc.issued_token issuerDID subjectDID subject credentialID now)),
         (vc.verified_claims issuerDID subjectDID subject credentialID now).
  split; [by apply (IssueVCWithID_token pub)|]. split; [done|].
  rewrite VerifyVC_issued by done. cbn [vc.ExpiresAt vc.verified_claims].
  split; by intros ->.
Qed.

Lemma VerifyVC_rejects_expired_witness :
  exists token claims,
    vc.IssueVCWithID (H := Toy.platform) "did:key:zIssuer"
      "did:key:zSubject" (vc.Ed25519PrivateKey Toy.sample_priv)
      sample_identity "urn:uuid:1" t0 = Ok token /\
    vc.ExpiresAt claims = whole_seconds (time.Add t0 (365 * 24 * time.Hour)%Z) /\
    (time.After (t0 + day)%Z (vc.ExpiresAt claims) = true ->
       vc.VerifyVC (H := Toy.platform) token Toy.sample_pub (t0 + day)%Z =
       Err (vc.ErrPaseto ErrExpired)) /\
    (time.After (t0 + day)%Z (vc.ExpiresAt claims) = false ->
       vc.VerifyVC (H := Toy.platform) token Toy.sample_pub (t0 + day)%Z = Ok claims).
Proof.
  apply (VerifyVC_rejects_expired (H := Toy.platform)).
  apply Toy.sample_key_pair.
Defined.




(** C6, as stated, fails: on every platform and with every key pair, a
    presentation created for an audience that is not valid UTF-8 is not
    accepted with that very audience, at the instant of its creation: the
    token carries U+FFFD in place of the byte 0xFF, and the comparison with
    the expected audience reports a mismatch.  (The last line: such a
    platform and key pair exist.) *)
Lemma presentation_roundtrip_fails :
  (forall (H : Platform) (pub priv : bytes),
     KeyPair pub priv ->
     exists token,
       presentation.CreatePresentation "did:key:z6MkHolder" priv
         ["v4.public.first"; "v4.public.second"] not_utf8
         "test-nonce-12345" (Ok (replicate 16 x2a)) t0 = Ok token /\
       presentation.VerifyPresentation token pub not_utf8 "test-nonce-12345"
         t0 t0 = Err presentation.ErrAudienceMismatch) /\
  KeyPair (H := Toy.platform) Toy.sample_pub Toy.sample_priv.
Proof.
  split; [|apply Toy.sample_key_pair].
  intros H pub priv Hkp.
  eexists. split; [by apply (CreatePresentation_token pub)|].
  rewrite VerifyPresentation_created by done. reflexivity.
Qed.

(** C6, amended.  For every holder key pair, non-empty list of credential
    tokens, audience and nonce, all of them valid UTF-8, and a presentation
    that has not expired when it is verified (it does 15 minutes after its
    creation, in whole seconds; the clock is read twice): [VerifyPresentation] with the audience and nonce of
    [CreatePresentation] succeeds and returns exactly the given tokens, in
    their order; a non-empty expected audience other than the token's fails
    with the audience mismatch; a non-empty expected nonce other than the
    token's fails with the nonce mismatch; and an empty expected audience or
    nonce is not compared at all. *)
Theorem presentation_roundtrip `{Platform} (pub priv : bytes)
    (holderDID : string) (credentials : list string) (audience nonce : string)
    (idBytes : bytes) (now now_parser now_check : Time) :
  KeyPair pub priv ->
  credentials <> [] ->
  Forall (fun token => ValidString token = true) credentials ->
  ValidString audience = true ->
  ValidString nonce = true ->
  (now_parser <= presentation.presentation_expiry now)%Z ->
  (now_check <= presentation.presentation_expiry now)%Z ->
  exists token,
    presentation.CreatePresentation holderDID priv credentials audience nonce
      (Ok idBytes) now = Ok token /\
    (exists claims,
       presentation.VerifyPresentation token pub audience nonce
         now_parser now_check = Ok claims /\
       presentation.vp_VerifiableCredential (presentation.VP claims) =
         credentials) /\
    (forall expectedAudience expectedNonce,
       expectedAudience <> EmptyString -> expectedAudience <> audience ->
       presentation.VerifyPresentation token pub expectedAudience expectedNonce
         now_parser now_check = Err presentation.ErrAudienceMismatch) /\
    (forall expectedAudience expectedNonce,
       expectedAudience = EmptyString \/ expectedAudience = audience ->
       expectedNonce <> EmptyString -> expectedNonce <> nonce ->
       presentation.VerifyPresentation token pub expectedAudience expectedNonce
         now_parser now_check = Err presentation.ErrNonceMismatch) /\
    (forall expectedAudience expectedNonce,
       expectedAudience = EmptyString \/ expectedAudience = audience ->
       expectedNonce = EmptyString \/ expectedNonce = nonce ->
       exists claims,
         presentation.VerifyPresentation token pub expectedAudience
           expectedNonce now_parser now_check = Ok claims /\
         presentation.vp_VerifiableCredential (presentation.VP claims) =
           credentials).
Proof.
  intros Hkp Hne Hcreds%map_coerce_valid Haudience%ValidString_coerce
    Hnonce%ValidString_coerce Hfresh_parser Hfresh.
  assert (time.After now_check (presentation.presentation_expiry now) = false) as Hcheck
    by (apply Z.ltb_ge; lia).
  assert (time.After now_parser (presentation.presentation_expiry now) = false) as Hparser
    by (apply Z.ltb_ge; lia).
  assert (forall expected actual : string,
            expected = EmptyString \/ expected = actual ->
            negb (String.eqb expected EmptyString)
            && negb (String.eqb actual expected) = false) as Hskip.
  { intros expected actual [->| ->]; [done|].
    rewrite String.eqb_refl. by destruct (String.eqb actual EmptyString). }
  assert (forall expected actual : string,
            expected <> EmptyString -> expected <> actual ->
            negb (String.eqb expected EmptyString)
            && negb (String.eqb actual expected) = true) as Hmismatch.
  { intros expected actual Hempty Hother.
    apply String.eqb_neq in Hempty. rewrite Hempty.
    assert (actual <> expected) as Hne' by congruence.
    apply String.eqb_neq in Hne'. by rewrite Hne'. }
  eexists. split; [by apply (CreatePresentation_token pub)|].
  assert (forall expectedAudience expectedNonce,
    expectedAudience = EmptyString \/ expectedAudience = audience ->
    expectedNonce = EmptyString \/ expectedNonce = nonce ->
    exists claims,
      presentation.VerifyPresentation
        (v4_public_sign priv
           (presentation.created_token holderDID credentials audience nonce idBytes now))
        pub expectedAudience expectedNonce now_parser now_check = Ok claims /\
      presentation.vp_VerifiableCredential (presentation.VP claims) =
        credentials) as Hok.
  { intros expectedAudience expectedNonce Haud Hnon.
    rewrite VerifyPresentation_created, Hparser, Hcheck, Haudience, Hnonce
      by done.
    rewrite (Hskip _ _ Haud), (Hskip _ _ Hnon). by eexists. }
  split; [apply Hok; by right|]. split; [|split; [|exact Hok]].
  - intros expectedAudience expectedNonce Hempty Hother.
    rewrite VerifyPresentation_created, Hparser, Haudience by done.
    by rewrite Hmismatch.
  - intros expectedAudience expectedNonce Haud Hempty Hother.
    rewrite VerifyPresentation_created, Hparser, Haudience, Hnonce by done.
    by rewrite (Hskip _ _ Haud), Hmismatch.
Qed.

Lemma presentation_roundtrip_witness :
  exists token,
    presentation.CreatePresentation (H := Toy.platform)
      "did:key:z6MkHolder" Toy.sample_priv
      ["v4.public.first"; "v4.public.second"] "did:key:z6MkVerifier"
      "test-nonce-12345" (Ok (replicate 16 x2a)) t0 = Ok token /\
    (exists claims,
       presentation.VerifyPresentation (H := Toy.platform) token
      Toy.sample_pub
         "did:key:z6MkVerifier" "test-nonce-12345"
         (t0 + time.Minute)%Z (t0 + time.Minute)%Z = Ok claims /\
       presentation.vp_VerifiableCredential (presentation.VP claims) =
         ["v4.public.first"; "v4.public.second"]) /\
    presentation.VerifyPresentation (H := Toy.platform) token
      Toy.sample_pub
      "did:key:z6MkOther" "test-nonce-12345"
      (t0 + time.Minute)%Z (t0 + time.Minute)%Z =
      Err presentation.ErrAudienceMismatch /\
    presentation.VerifyPresentation (H := Toy.platform) token
      Toy.sample_pub
      "did:key:z6MkVerifier" "another-nonce"
      (t0 + time.Minute)%Z (t0 + time.Minute)%Z =
      Err presentation.ErrNonceMismatch /\
    is_ok (presentation.VerifyPresentation (H := Toy.platform) token
      Toy.sample_pub
             EmptyString EmptyString
             (t0 + time.Minute)%Z (t0 + time.Minute)%Z) = true.
Proof.
  destruct (presentation_roundtrip (H := Toy.platform)
              Toy.sample_pub Toy.sample_priv "did:key:z6MkHolder"
              ["v4.public.first"; "v4.public.second"] "did:key:z6MkVerifier"
              "test-nonce-12345" (replicate 16 x2a) t0
              (t0 + time.Minute)%Z (t0 + time.Minute)%Z)
    as (token & Hcreate & Hround & Haud & Hnonce & Hskip).
  - apply Toy.sample_key_pair.
  - discriminate.
  - by repeat constructor.
  - reflexivity.
  - reflexivity.
  - vm_compute. discriminate.
  - vm_compute. discriminate.
  - exists token. split; [exact Hcreate|]. split; [exact Hround|].
    split; [by apply Haud|]. split; [apply Hnonce; [by right|done..]|].
    destruct (Hskip EmptyString EmptyString) as (claims & -> & _); auto.
Defined.

End TokenClaims.

(** * Further properties of the code *)

(** ** Identifiers: what resolves, and to what *)

Module IdentifierFacts.
Import Radix RadixFacts base58 base58Facts resolver resolverFacts Examples.

Lemma index_get c s d :
  index c s = Some d ->
  String.get (N.to_nat d) s = Some c /\ (d < N.of_nat (String.length s))%N.
Proof.
  revert d. induction s as [|c' s IH]; intros d; [done|]. simpl.
  destruct (Ascii.eqb_spec c c') as [->|Hne].
  - intros [= <-]. split; [done|lia].
  - destruct (index c s) as [d'|]; [|done]. simpl. intros [= <-].
    destruct (IH d' eq_refl) as [Hget Hlt].
    rewrite N2Nat.inj_succ. split; [done|lia].
Qed.

Lemma char_of_digit_of_char c d :
  digit_of_char c = Some d -> (d < 58)%N /\ char_of_digit d = c.
Proof.
  intros Hd. apply index_get in Hd as [Hget Hlt]. split; [exact Hlt|].
  unfold char_of_digit. by rewrite Hget.
Qed.

Lemma digits_of_inv cs ds :
  digits_of cs = Ok ds ->
  Forall (fun d => (d < 58)%N) ds /\ map char_of_digit ds = cs.
Proof.
  revert ds. induction cs as [|c cs IH]; intros ds; simpl.
  - intros [= <-]. split; [constructor|done].
  - destruct (127 <? N_of_ascii c)%N; [done|].
    destruct (digit_of_char c) as [d|] eqn:Hd; [|done].
    destruct (digits_of cs) as [ds'|]; [|done]. simpl. intros [= <-].
    destruct (IH ds' eq_refl) as [Hall Hmap].
    apply char_of_digit_of_char in Hd as [Hlt Hc].
    split; [by constructor|]. simpl. by rewrite Hc, Hmap.
Qed.

Lemma to_N_byte_of_N ds :
  Forall (fun d => (d < 256)%N) ds -> map Byte.to_N (map byte_of_N ds) = ds.
Proof.
  induction 1 as [|d ds Hd _ IH]; [done|]. simpl. rewrite IH. f_equal.
  unfold byte_of_N. destruct (Byte.of_N d) as [b|] eqn:Hb.
  - by apply Byte.to_of_N.
  - pose proof (Byte.to_of_N_option_map d) as Hopt. rewrite Hb in Hopt.
    simpl in Hopt. destruct (N.leb_spec d 255); [done|lia].
Qed.

Lemma zeros_and_digits_range b k n :
  (2 <= b)%N -> Forall (fun d => (d < b)%N) (replicate k 0%N ++ to_digits b n).
Proof.
  intros Hb. apply Forall_app. split.
  - apply list.Forall_forall. intros d Hd.
    apply elem_of_replicate in Hd as [-> _]. lia.
  - by apply to_digits_normal.
Qed.

(** Encoding what [Decode] read gives the string back. *)
Lemma Encode_Decode str bin : Decode str = Ok bin -> Encode bin = str.
Proof.
  unfold Decode. destruct (String.length str =? 0)%nat; [done|].
  destruct (digits_of (list_ascii_of_string str)) as [ds|] eqn:Hds; [|done].
  simpl. intros [= <-]. apply digits_of_inv in Hds as [Hall Hchars].
  destruct (split_leading_zeros 58 ds Hall) as (ds' & Hsplit & Hnorm).
  set (z := leading_zeros ds) in *.
  set (n := from_digits 58 ds).
  assert (n = from_digits 58 ds') as Hn
    by (unfold n; by rewrite Hsplit, from_digits_zeros).
  unfold Encode, encoded_digits.
  rewrite to_N_byte_of_N by (apply zeros_and_digits_range; lia).
  rewrite leading_zeros_app by (apply (to_digits_normal 256); lia).
  rewrite from_digits_zeros, from_to_digits by lia.
  rewrite Hn, to_from_digits by (done || lia).
  rewrite <- Hsplit, Hchars. apply string_of_list_ascii_of_string.
Qed.

Lemma Encode_nil : Encode [] = EmptyString.
Proof. reflexivity. Qed.

Lemma Encode_inj bin1 bin2 : Encode bin1 = Encode bin2 -> bin1 = bin2.
Proof.
  intros Heq.
  destruct bin1 as [|b1 bin1], bin2 as [|b2 bin2]; [done| | |].
  - pose proof (Decode_Encode (b2 :: bin2) ltac:(done)) as Hdec.
    by rewrite <- Heq in Hdec.
  - pose proof (Decode_Encode (b1 :: bin1) ltac:(done)) as Hdec.
    by rewrite Heq in Hdec.
  - pose proof (Decode_Encode (b1 :: bin1) ltac:(done)) as Hdec.
    rewrite Heq, Decode_Encode in Hdec by done. congruence.
Qed.

Lemma resolveKey_Ok identifier key :
  resolveKey identifier = Ok key <->
  length key = 32%nat /\ identifier = "z" +:+ Encode ([xed; x01] ++ key).
Proof.
  split.
  - destruct identifier as [|c rest]; [done|].
    destruct (Ascii.eqb_spec c "z") as [->|Hne].
    + rewrite resolveKey_z.
      destruct (Decode rest) as [decoded|e] eqn:Hdec; [|done].
      destruct decoded as [|b0 [|b1 key']]; [done..|].
      destruct (Byte.eqb b0 xed) eqn:H0; [|done].
      destruct (Byte.eqb b1 x01) eqn:H1; [|done].
      destruct (Nat.eqb_spec (length key') 32) as [Hlen|]; [|done].
      simpl. intros [= <-]. apply Byte.byte_dec_bl in H0, H1. subst.
      apply Encode_Decode in Hdec. split; [done|]. simpl. by rewrite Hdec.
    + rewrite resolveKey_not_z; [done|]. intros rest' [= -> _]. done.
  - intros [Hlen ->]. by apply resolveKey_encoded.
Qed.

Lemma Split_nonempty s sep : Split s sep <> [].
Proof.
  destruct s as [|c s]; [done|]. simpl.
  destruct (Ascii.eqb c sep); [done|]. by destruct (Split s sep).
Qed.

Lemma Split_inj s1 s2 sep : Split s1 sep = Split s2 sep -> s1 = s2.
Proof.
  revert s2. induction s1 as [|c1 s1 IH]; intros [|c2 s2]; simpl; [done| | |].
  - destruct (Ascii.eqb c2 sep).
    + intros [= Hnil]. symmetry in Hnil. by apply Split_nonempty in Hnil.
    + by destruct (Split s2 sep).
  - destruct (Ascii.eqb c1 sep).
    + intros [= Hnil]. by apply Split_nonempty in Hnil.
    + by destruct (Split s1 sep).
  - destruct (Ascii.eqb_spec c1 sep) as [->|H1],
             (Ascii.eqb_spec c2 sep) as [->|H2].
    + intros [= Heq]. by rewrite (IH _ Heq).
    + by destruct (Split s2 sep).
    + by destruct (Split s1 sep).
    + specialize (IH s2).
      destruct (Split s1 sep) as [|p1 ps1] eqn:E1;
        [by apply Split_nonempty in E1|].
      destruct (Split s2 sep) as [|p2 ps2] eqn:E2;
        [by apply Split_nonempty in E2|].
      intros [= -> -> ->]. by rewrite IH.
Qed.

Lemma resolveKey_wrong_length key :
  length key <> 32%nat ->
  resolveKey ("z" +:+ Encode ([xed; x01] ++ key)) = Err ErrInvalidKeyLength.
Proof.
  intros Hlen. change ("z" +:+ ?s) with (String "z" s).
  rewrite resolveKey_z, Decode_Encode by done. simpl.
  apply Nat.eqb_neq in Hlen. by rewrite Hlen.
Qed.

Lemma Resolve_Ok_parts did key :
  Resolve did = Ok key ->
  length key = 32%nat /\
  exists rest,
    Split did ":" = "did" :: "key" :: ("z" +:+ Encode ([xed; x01] ++ key)) :: rest.
Proof.
  intros Hres.
  destruct (Nat.lt_ge_cases (length (Split did ":")) 3) as [Hlt|Hge].
  { by rewrite (Resolve_short _ Hlt) in Hres. }
  destruct (parts_at_least_3 _ Hge) as [rest Hparts].
  rewrite (Resolve_parts _ _ _ _ _ Hparts) in Hres.
  destruct (String.eqb_spec (nth 0 (Split did ":") EmptyString) "did")
    as [H0|]; [|done].
  destruct (String.eqb_spec (nth 1 (Split did ":") EmptyString) "key")
    as [H1|]; [|done].
  simpl in Hres. apply resolveKey_Ok in Hres as [Hlen H2].
  split; [done|]. exists rest. by rewrite Hparts, H0, H1, H2.
Qed.

(** X1. [Resolve] succeeds with a key exactly on the identifiers whose first
    three colon-delimited parts are "did", "key" and 'z' followed by the
    base58 encoding of the tag and that key, the key being 32 bytes long. *)
Theorem Resolve_succeeds_iff (did : string) (key : bytes) :
  Resolve did = Ok key <->
  length key = 32%nat /\
  exists rest,
    Split did ":" = "did" :: "key" :: ("z" +:+ Encode ([xed; x01] ++ key)) :: rest.
Proof.
  split; [apply Resolve_Ok_parts|].
  intros [Hlen [rest Hparts]].
  rewrite (Resolve_parts _ _ _ _ _ Hparts). simpl.
  by apply resolveKey_encoded.
Qed.

(** X2. The round trip in the other direction: an identifier of exactly
    three colon-delimited parts that resolves to a key is the identifier
    that [CreateDIDKey] derives from that key. *)
Theorem Resolve_CreateDIDKey_roundtrip (did : string) (key : bytes) :
  Resolve did = Ok key ->
  length (Split did ":") = 3%nat ->
  exists d, did.CreateDIDKey key = Ok d /\ did.DID d = did.
Proof.
  intros Hres Hlen. apply Resolve_Ok_parts in Hres as [_ [rest Hparts]].
  eexists. split; [reflexivity|]. simpl.
  rewrite Hparts in Hlen. destruct rest; [|done].
  apply (Split_inj _ _ ":").
  rewrite Hparts. apply IdentifierCodec.did_string.
Qed.

Lemma Resolve_CreateDIDKey_roundtrip_witness :
  exists d, did.CreateDIDKey sample_key = Ok d /\ did.DID d = sample_did.
Proof.
  apply (Resolve_CreateDIDKey_roundtrip sample_did sample_key);
    vm_compute; reflexivity.
Defined.

(** X3. [CreateDIDKey] is injective: two keys, of any length, get the same
    identifier only when they are the same bytes. *)
Theorem CreateDIDKey_injective (pub1 pub2 : bytes) (d1 d2 : did.DIDKey) :
  did.CreateDIDKey pub1 = Ok d1 ->
  did.CreateDIDKey pub2 = Ok d2 ->
  did.DID d1 = did.DID d2 <-> pub1 = pub2.
Proof.
  intros [= <-] [= <-]. simpl. split; [|by intros ->].
  intros [= Heq]. apply Encode_inj in Heq.
  by apply (app_inv_head [xed; x01]) in Heq.
Qed.

Lemma CreateDIDKey_injective_witness :
  exists d1 d2,
    did.CreateDIDKey sample_key = Ok d1 /\
    did.CreateDIDKey (x01 :: sample_key) = Ok d2 /\
    (did.DID d1 = did.DID d2 <-> sample_key = x01 :: sample_key).
Proof.
  eexists _, _. split; [reflexivity|]. split; [reflexivity|].
  apply (CreateDIDKey_injective sample_key (x01 :: sample_key)); reflexivity.
Defined.

(** X4. [CreateDIDKey] does not look at the length of the key: for a key
    that is not 32 bytes long, the empty one included, it still returns an
    identifier, and [Resolve] rejects that identifier with
    [ErrInvalidKeyLength]. *)
Theorem CreateDIDKey_wrong_length (pub : bytes) :
  length pub <> 32%nat ->
  exists d,
    did.CreateDIDKey pub = Ok d /\
    Resolve (did.DID d) = Err ErrInvalidKeyLength.
Proof.
  intros Hlen. eexists. split; [reflexivity|].
  change (Resolve ("did:key:" +:+ ("z" +:+ Encode ([xed; x01] ++ pub))) =
          Err ErrInvalidKeyLength).
  rewrite (Resolve_parts _ _ _ _ _ (IdentifierCodec.did_string pub)). simpl.
  by apply resolveKey_wrong_length.
Qed.

Lemma CreateDIDKey_wrong_length_witness :
  exists d,
    did.CreateDIDKey [] = Ok d /\
    Resolve (did.DID d) = Err ErrInvalidKeyLength.
Proof. apply (CreateDIDKey_wrong_length []). simpl. lia. Defined.

(** X5. The document that [CreateDIDKey] builds for a non-empty key has one
    verification method, controlled by the identifier and named
    [<did>#key-1]; its [publicKeyBase58] decodes to the key, and the
    authentication and assertion lists name that method and no other. *)
Theorem CreateDIDKey_document (pub : bytes) (d : did.DIDKey) :
  pub <> [] ->
  did.CreateDIDKey pub = Ok d ->
  did.PublicKey d = pub /\
  did.doc_ID (did.DIDDocument_of d) = did.DID d /\
  exists vm,
    did.doc_VerificationMethod (did.DIDDocument_of d) = [vm] /\
    did.vm_ID vm = did.DID d +:+ "#key-1" /\
    did.vm_Controller vm = did.DID d /\
    Decode (did.vm_PublicKeyBase58 vm) = Ok pub /\
    did.doc_Authentication (did.DIDDocument_of d) = [did.vm_ID vm] /\
    did.doc_AssertionMethod (did.DIDDocument_of d) = [did.vm_ID vm].
Proof.
  intros Hne [= <-]. simpl. split; [done|]. split; [done|].
  eexists. split; [reflexivity|]. simpl.
  by rewrite Decode_Encode.
Qed.

Lemma CreateDIDKey_document_witness :
  exists d,
    did.CreateDIDKey sample_key = Ok d /\
    did.PublicKey d = sample_key /\
    did.doc_ID (did.DIDDocument_of d) = did.DID d /\
    exists vm,
      did.doc_VerificationMethod (did.DIDDocument_of d) = [vm] /\
      did.vm_ID vm = did.DID d +:+ "#key-1" /\
      did.vm_Controller vm = did.DID d /\
      Decode (did.vm_PublicKeyBase58 vm) = Ok sample_key /\
      did.doc_Authentication (did.DIDDocument_of d) = [did.vm_ID vm] /\
      did.doc_AssertionMethod (did.DIDDocument_of d) = [did.vm_ID vm].
Proof.
  eexists. split; [reflexivity|].
  apply (CreateDIDKey_document sample_key); [discriminate|reflexivity].
Defined.

End IdentifierFacts.

(** ** The registry: what the operations keep *)

Module RegistryFacts.
Import revocation revocationFacts registry_state Examples.

Lemma fresh_well_formed path : well_formed (NewRegistryWithFile_fresh path).
Proof. intros id p. simpl. by rewrite lookup_empty. Qed.

Lemma fresh_keyed path : keyed (NewRegistryWithFile_fresh path).
Proof. intros id e. unfold stored. simpl. by rewrite lookup_empty. Qed.

Lemma keyed_separate r : well_formed r -> keyed r -> separate r.
Proof.
  intros Hwf Hk id1 id2 p H1 H2. destruct (Hwf id1 p H1) as [e He].
  rewrite <- (Hk id1 e), <- (Hk id2 e); [done| |];
    apply stored_Some; by exists p.
Qed.

Lemma built_invariants path ops :
  let r := run ops (NewRegistryWithFile_fresh path) in
  well_formed r /\ keyed r /\ separate r.
Proof.
  intros r.
  assert (well_formed r) by apply run_well_formed, fresh_well_formed.
  assert (keyed r)
    by (apply run_keyed; [apply fresh_well_formed|apply fresh_keyed]).
  auto using keyed_separate.
Qed.

Lemma Register_stored id iss sub now io r :
  stored (snd (Register id iss sub now io r)) id =
  Some (active_entry id iss sub now).
Proof.
  rewrite Register_registry. apply stored_Some. exists (new_cell r). simpl.
  by rewrite !lookup_insert_eq.
Qed.

Lemma Register_frame id iss sub now io r id' :
  well_formed r -> id' <> id ->
  stored (snd (Register id iss sub now io r)) id' = stored r id'.
Proof.
  intros Hwf Hne. rewrite Register_registry. unfold stored. simpl.
  rewrite lookup_insert_ne by done.
  destruct (entries r !! id') as [p|] eqn:Hp; [|done]. simpl.
  destruct (Hwf id' p Hp) as [e He].
  rewrite lookup_insert_ne; [done|].
  intros <-. by rewrite new_cell_fresh in He.
Qed.

Lemma Revoke_frame id reason now io r id' :
  separate r -> id' <> id ->
  stored (snd (Revoke id reason now io r)) id' = stored r id'.
Proof.
  intros Hsep Hne.
  destruct (Revoke_cases id reason now io r) as [?|?|?|p e Hp He Hst];
    try done.
  unfold stored. simpl.
  destruct (entries r !! id') as [p'|] eqn:Hp'; [|done]. simpl.
  rewrite lookup_insert_ne; [done|].
  intros ->. by apply Hne, (Hsep id' id p').
Qed.

Lemma step_settled r o :
  (forall p e, heap r !! p = Some e -> settled e) ->
  forall p e, heap (step r o) !! p = Some e -> settled e.
Proof.
  intros Hall p e. destruct o as [id iss sub now io|id reason now io| | | |];
    cbn [step]; try apply Hall.
  - rewrite Register_registry. simpl.
    destruct (decide (new_cell r = p)) as [->|Hne].
    + rewrite lookup_insert_eq. intros [= <-]. by left.
    + rewrite lookup_insert_ne by done. apply Hall.
  - destruct (Revoke_cases id reason now io r) as [?|?|?|p0 e0 Hp0 He0 Hst];
      try apply Hall.
    simpl. destruct (decide (p0 = p)) as [->|Hne].
    + rewrite lookup_insert_eq. intros [= <-]. by right.
    + rewrite lookup_insert_ne by done. apply Hall.
Qed.

Lemma run_settled ops r :
  (forall p e, heap r !! p = Some e -> settled e) ->
  forall p e, heap (run ops r) !! p = Some e -> settled e.
Proof.
  revert r. induction ops as [|o ops IH]; intros r Hall; [done|].
  simpl. by apply IH, step_settled.
Qed.

(** What one of the two listings computes over a list of map entries all of
    whose pointers are live. *)
Lemma list_by_foldr field wanted (h : gmap ptr Entry)
    (l : list (string * ptr)) :
  (forall id p, (id, p) ∈ l -> is_Some (h !! p)) ->
  exists res,
    foldr (fun '(_, entry) acc =>
             results ← acc;
             match h !! entry with
             | None => Err PanicNilEntry
             | Some e =>
                 if String.eqb (field e) wanted then Ok (entry :: results)
                 else Ok results
             end)
          (Ok []) l = Ok res /\
    sublist res (l.*2) /\
    forall p, p ∈ res <->
      exists id e, (id, p) ∈ l /\ h !! p = Some e /\ field e = wanted.
Proof.
  induction l as [|[id0 p0] l IH]; intros Hlive.
  - exists []. split; [done|]. split; [done|]. intros p. split.
    + by intros ?%elem_of_nil.
    + by intros (? & ? & ?%elem_of_nil & _).
  - destruct IH as (res & Hres & Hsub & Hmem).
    { intros id p Hin. apply (Hlive id). by right. }
    destruct (Hlive id0 p0) as [e0 He0]; [by left|].
    simpl. rewrite Hres. simpl. rewrite He0.
    destruct (String.eqb_spec (field e0) wanted) as [Hf|Hf].
    + exists (p0 :: res). split; [done|]. split; [by constructor|].
      intros p. rewrite elem_of_cons, Hmem. split.
      * intros [->|(id & e & Hin & He & Hfe)].
        -- exists id0, e0. split; [by left|done].
        -- exists id, e. split; [by right|done].
      * intros (id & e & Hin & He & Hfe).
        apply elem_of_cons in Hin as [[= -> ->]|Hin]; [by left|].
        right. by exists id, e.
    + exists res. split; [done|]. split; [by constructor|].
      intros p. rewrite Hmem. split.
      * intros (id & e & Hin & He & Hfe). exists id, e. split; [by right|done].
      * intros (id & e & Hin & He & Hfe).
        apply elem_of_cons in Hin as [[= -> ->]|Hin]; [congruence|].
        by exists id, e.
Qed.

Lemma list_by_listing field wanted r :
  well_formed r -> separate r ->
  exists l,
    list_by field wanted r = Ok l /\
    NoDup l /\
    forall p, p ∈ l <->
      exists id e,
        entries r !! id = Some p /\ heap r !! p = Some e /\ field e = wanted.
Proof.
  intros Hwf Hsep.
  destruct (list_by_foldr field wanted (heap r) (map_to_list (entries r)))
    as (l & Hl & Hsub & Hmem).
  { intros id p Hin. apply elem_of_map_to_list in Hin. by apply (Hwf id). }
  exists l. split; [exact Hl|]. split.
  - refine (sublist_NoDup _ _ _ Hsub).
    apply NoDup_fmap_2_strong; [|apply NoDup_map_to_list].
    intros [id1 p1] [id2 p2] H1 H2. simpl. intros <-.
    apply elem_of_map_to_list in H1, H2. by rewrite (Hsep id1 id2 p1).
  - intros p. rewrite Hmem. split; intros (id & e & Hin & He);
      exists id, e; (split; [|done]); by apply elem_of_map_to_list.
Qed.

(** X6. [Register] stores, under the credential id, an Active entry with the
    given issuer and subject, issued now, with no revocation time and no
    reason, whatever was stored under that id before; it reports nothing but
    the outcome of persisting, and the entry is stored even when persisting
    fails.  [CheckStatus] then finds the entry and [IsRevoked] answers
    false; in a registry without nil entries the other credentials are as
    they were. *)
Theorem Register_stores_active_entry (r : Registry) (id iss sub : string)
    (now : Time) (io : option string) :
  let res := fst (Register id iss sub now io r) in
  let r' := snd (Register id iss sub now io r) in
  stored r' id = Some (active_entry id iss sub now) /\
  (exists p, CheckStatus id r' = Ok p /\ heap r !! p = None) /\
  IsRevoked id r' = Ok false /\
  (path r = EmptyString \/ io = None -> res = Ok tt) /\
  (forall msg, path r <> EmptyString -> io = Some msg ->
     res = Err (ErrPersist msg)) /\
  (well_formed r -> well_formed r' /\
     forall id', id' <> id -> stored r' id' = stored r id').
Proof.
  intros res r'. split; [apply Register_stored|].
  pose proof (Register_stored id iss sub now io r) as Hs.
  apply stored_Some in Hs as (p & Hp & He). fold r' in Hp, He.
  split; [|split; [|split; [|split]]].
  - exists (new_cell r). split; [|apply new_cell_fresh].
    unfold CheckStatus, r'. rewrite Register_registry. simpl.
    by rewrite lookup_insert_eq.
  - unfold IsRevoked, CheckStatus. by rewrite Hp, He.
  - unfold res. simpl. unfold save. simpl. intros [-> | ->]; [done|].
    by destruct (String.eqb _ _).
  - intros msg Hpath ->. unfold res. simpl. unfold save. simpl.
    apply String.eqb_neq in Hpath. by rewrite Hpath.
  - intros Hwf. split.
    + apply (step_well_formed r (OpRegister id iss sub now io) Hwf).
    + intros id' Hne. by apply Register_frame.
Qed.

(** X7. In a registry built by the operations from an empty one, with or
    without a backing file, an operation changes the entry of no credential
    but the one it registers or revokes. *)
Theorem step_leaves_other_credentials (path : string) (ops : list op)
    (o : op) (id : string) :
  addresses id o = false ->
  stored (step (run ops (NewRegistryWithFile_fresh path)) o) id =
  stored (run ops (NewRegistryWithFile_fresh path)) id.
Proof.
  intros Ho. destruct (built_invariants path ops) as (Hwf & _ & Hsep).
  destruct o as [id' iss sub now io|id' reason now io| | | |];
    cbn [step]; try done; simpl in Ho; apply String.eqb_neq in Ho.
  - by apply Register_frame.
  - by apply Revoke_frame.
Qed.

(** Two credentials are registered and the second is then revoked: the
    entry of the first is as it was, while the second has become Revoked. *)
Lemma step_leaves_other_credentials_witness :
  exists r o,
    r = run [register_sample 10%Z;
             OpRegister "urn:uuid:2" "did:key:zIssuer" "did:key:zOther"
               11%Z None]
          (NewRegistryWithFile_fresh "registry.json") /\
    o = OpRevoke "urn:uuid:2" "mistake" 20%Z (Some "disk full") /\
    stored (step r o) sample_id = stored r sample_id /\
    stored r sample_id = Some sample_entry /\
    IsRevoked "urn:uuid:2" r = Ok false /\
    IsRevoked "urn:uuid:2" (step r o) = Ok true.
Proof.
  eexists _, _. split; [reflexivity|]. split; [reflexivity|].
  split; [|by vm_compute].
  apply (step_leaves_other_credentials "registry.json"
           [register_sample 10%Z;
            OpRegister "urn:uuid:2" "did:key:zIssuer" "did:key:zOther"
              11%Z None]).
  reflexivity.
Defined.

(** X8. In a registry built by the operations from an empty one,
    [ListByIssuer] and [ListBySubject] do not fail, and return, each once,
    exactly the entries of the map whose issuer, respectively subject, is
    the given one. *)
Theorem listings_are_exact (path : string) (ops : list op) (who : string) :
  let r := run ops (NewRegistryWithFile_fresh path) in
  (exists l,
     ListByIssuer who r = Ok l /\ NoDup l /\
     forall p, p ∈ l <->
       exists id e, entries r !! id = Some p /\ heap r !! p = Some e /\
                    IssuerDID e = who) /\
  (exists l,
     ListBySubject who r = Ok l /\ NoDup l /\
     forall p, p ∈ l <->
       exists id e, entries r !! id = Some p /\ heap r !! p = Some e /\
                    SubjectDID e = who).
Proof.
  intros r. destruct (built_invariants path ops) as (Hwf & _ & Hsep).
  split; by apply list_by_listing.
Qed.


(** X10. In a registry built by the operations from an empty one, every
    entry is either Active, with no revocation time and no reason, or
    Revoked; [IsRevoked] never meets a nil entry, fails exactly for the
    credentials that have no entry, and otherwise answers true for the
    Revoked and false for the Active ones. *)
Theorem entries_are_active_or_revoked (path : string) (ops : list op)
    (id : string) :
  let r := run ops (NewRegistryWithFile_fresh path) in
  (forall e, stored r id = Some e -> settled e) /\
  (IsRevoked id r = Err ErrCredentialNotFound <-> stored r id = None) /\
  (IsRevoked id r = Ok true <-> status_is r id StatusRevoked) /\
  (IsRevoked id r = Ok false <-> status_is r id StatusActive).
Proof.
  intros r. destruct (built_invariants path ops) as (Hwf & _ & _).
  assert (forall e, stored r id = Some e -> settled e) as Hset.
  { intros e Hs. apply stored_Some in Hs as (p & _ & He).
    apply (run_settled ops (NewRegistryWithFile_fresh path)) with p; [|done].
    intros p' e'. simpl. by rewrite lookup_empty. }
  split; [exact Hset|]. fold r in Hwf. clearbody r.
  unfold IsRevoked, CheckStatus, status_is.
  destruct (stored r id) as [e|] eqn:Hs.
  - pose proof Hs as Hs'. apply stored_Some in Hs' as (p & Hp & He).
    rewrite Hp, He. split; [done|].
    destruct (Hset e eq_refl) as [(Hst & _)|Hst]; rewrite Hst; simpl.
    + split; split; try done.
      * intros (e' & [= <-] & Hst'). by rewrite Hst in Hst'.
      * intros _. by exists e.
    + split; split; try done.
      * intros _. by exists e.
      * intros (e' & [= <-] & Hst'). by rewrite Hst in Hst'.
  - unfold stored in Hs. destruct (entries r !! id) as [p|] eqn:Hp.
    + simpl in Hs. destruct (Hwf id p Hp) as [e He]. congruence.
    + split; [done|]. split; split; try done; by intros (e & ? & _).
Qed.

End RegistryFacts.

(** ** Random identifiers: credential ids, presentation ids, nonces *)

Module RandomIdFacts.
Import hex credential_id Examples.

Lemma digit_index n :
  (n < 16)%N -> base58.index (digit n) hextable = Some n.
Proof.
  intros Hn. destruct n as [|p]; [done|].
  repeat (destruct p as [p|p|]; try lia; try done).
Qed.

Lemma digit_inj n m : (n < 16)%N -> (m < 16)%N -> digit n = digit m -> n = m.
Proof.
  intros Hn Hm Heq. apply digit_index in Hn, Hm. congruence.
Qed.

Lemma byte_digits_inj (a b : byte) :
  digit (Byte.to_N a / 16) = digit (Byte.to_N b / 16) ->
  digit (Byte.to_N a mod 16) = digit (Byte.to_N b mod 16) ->
  a = b.
Proof.
  intros Hhi Hlo.
  pose proof (Byte.to_N_bounded a) as Ha. pose proof (Byte.to_N_bounded b) as Hb.
  apply digit_inj in Hhi;
    [|apply N.Div0.div_lt_upper_bound; lia|apply N.Div0.div_lt_upper_bound; lia].
  apply digit_inj in Hlo; [|by apply N.mod_lt|by apply N.mod_lt].
  assert (Byte.to_N a = Byte.to_N b) as Heq.
  { rewrite (N.div_mod (Byte.to_N a) 16), (N.div_mod (Byte.to_N b) 16) by done.
    by rewrite Hhi, Hlo. }
  apply (f_equal Byte.of_N) in Heq. rewrite !Byte.of_to_N in Heq. congruence.
Qed.

Lemma EncodeToString_length src :
  String.length (EncodeToString src) = (2 * length src)%nat.
Proof. induction src as [|b src IH]; [done|]. simpl. rewrite IH. lia. Qed.

Lemma EncodeToString_inj src1 src2 :
  EncodeToString src1 = EncodeToString src2 -> src1 = src2.
Proof.
  revert src2. induction src1 as [|a src1 IH]; intros [|b src2]; try done.
  simpl. intros [= Hhi Hlo Hrest].
  by rewrite (byte_digits_inj a b Hhi Hlo), (IH src2 Hrest).
Qed.

Lemma EncodeToString_app src1 src2 :
  EncodeToString (src1 ++ src2) = EncodeToString src1 +:+ EncodeToString src2.
Proof. induction src1 as [|b src1 IH]; [done|]. simpl. by rewrite IH. Qed.

Lemma EncodeToString_hex src :
  Forall (fun c => is_hex_digit c = true)
         (list_ascii_of_string (EncodeToString src)).
Proof.
  induction src as [|b src IH]; [constructor|]. simpl.
  pose proof (Byte.to_N_bounded b) as Hb.
  constructor; [|constructor; [|exact IH]]; unfold is_hex_digit;
    rewrite digit_index; try done.
  - apply N.Div0.div_lt_upper_bound. lia.
  - by apply N.mod_lt.
Qed.

Ltac sixteen_bytes b H :=
  do 16 (destruct b as [|? b]; [discriminate H|]);
  destruct b; [|discriminate H].

(** X11. Given 16 random bytes, [GenerateCredentialID] returns a string of
    45 characters: "urn:uuid:" followed by the 32 hexadecimal digits of the
    bytes, in order, in groups of 8, 4, 4, 4 and 12 separated by hyphens;
    it is the format of the presentation ids.  An error of the random
    source is returned as it is. *)
Theorem GenerateCredentialID_format (random : bytes) :
  length random = 16%nat ->
  (forall err, GenerateCredentialID (Err err) = Err err) /\
  exists id h1 h2 h3 h4 h5,
    GenerateCredentialID (Ok random) = Ok id /\
    id = presentation.urn_uuid random /\
    String.length id = 45%nat /\
    id = "urn:uuid:" +:+ h1 +:+ "-" +:+ h2 +:+ "-" +:+ h3 +:+ "-" +:+ h4 +:+
         "-" +:+ h5 /\
    String.length h1 = 8%nat /\ String.length h2 = 4%nat /\
    String.length h3 = 4%nat /\ String.length h4 = 4%nat /\
    String.length h5 = 12%nat /\
    h1 +:+ h2 +:+ h3 +:+ h4 +:+ h5 = EncodeToString random.
Proof.
  intros Hlen. split; [done|]. sixteen_bytes random Hlen.
  eexists _, (EncodeToString (presentation.slice _ 0 4)),
    (EncodeToString (presentation.slice _ 4 6)),
    (EncodeToString (presentation.slice _ 6 8)),
    (EncodeToString (presentation.slice _ 8 10)),
    (EncodeToString (drop 10 _)).
  split; [reflexivity|]. repeat split.
Qed.

Lemma GenerateCredentialID_format_witness :
  exists id,
    GenerateCredentialID (Ok (take 16 sample_key)) = Ok id /\
    String.length id = 45%nat.
Proof.
  destruct (GenerateCredentialID_format (take 16 sample_key) eq_refl)
    as (_ & id & h1 & h2 & h3 & h4 & h5 & Hid & _ & Hlen & _).
  exists id. split; [exact Hid|exact Hlen].
Defined.

(** X12. Different random bytes give different credential ids:
    [GenerateCredentialID] is injective on the 16-byte buffers. *)
Theorem GenerateCredentialID_injective (random1 random2 : bytes) :
  length random1 = 16%nat -> length random2 = 16%nat ->
  GenerateCredentialID (Ok random1) = GenerateCredentialID (Ok random2) <->
  random1 = random2.
Proof.
  intros H1 H2. split; [|by intros ->].
  sixteen_bytes random1 H1. sixteen_bytes random2 H2.
  unfold GenerateCredentialID. intros [= Heq].
  repeat match goal with
         | Hhi : digit (Byte.to_N ?a / 16) = digit (Byte.to_N ?b / 16),
           Hlo : digit (Byte.to_N ?a mod 16) = digit (Byte.to_N ?b mod 16) |- _ =>
             apply (byte_digits_inj a b Hhi) in Hlo; clear Hhi; subst a
         end.
  reflexivity.
Qed.

Lemma GenerateCredentialID_injective_witness :
  GenerateCredentialID (Ok (take 16 sample_key)) =
  GenerateCredentialID (Ok (drop 16 sample_key)) <->
  take 16 sample_key = drop 16 sample_key.
Proof.
  apply GenerateCredentialID_injective; reflexivity.
Defined.

(** X13. [GenerateNonce] returns the bytes it was given in lowercase
    hexadecimal, two digits for each byte -- 64 characters for the 32 bytes
    it asks for -- so that different bytes give different nonces; an error
    of the random source is returned as [ErrRand]. *)
Theorem GenerateNonce_hex (random : bytes) :
  (forall err, presentation.GenerateNonce (Err err) =
               Err (presentation.ErrRand err)) /\
  exists nonce,
    presentation.GenerateNonce (Ok random) = Ok nonce /\
    String.length nonce = (2 * length random)%nat /\
    Forall (fun c => is_hex_digit c = true) (list_ascii_of_string nonce) /\
    forall random',
      presentation.GenerateNonce (Ok random') = Ok nonce -> random' = random.
Proof.
  split; [done|]. eexists. split; [reflexivity|].
  split; [apply EncodeToString_length|].
  split; [apply EncodeToString_hex|].
  intros random' [= Heq]. by apply EncodeToString_inj.
Qed.

End RandomIdFacts.

(** ** Tokens: keys, errors and validity periods *)

Module TokenFacts.
Import json jsonFacts paseto vcFacts presentationFacts Examples.

Lemma whole_seconds_add t k :
  whole_seconds (time.Add t (k * time.Second)%Z) =
  (whole_seconds t + k * time.Second)%Z.
Proof.
  unfold whole_seconds, time.Add. rewrite Z.div_add by done. lia.
Qed.

Lemma whole_seconds_bounds t :
  (whole_seconds t <= t < whole_seconds t + time.Second)%Z.
Proof.
  unfold whole_seconds.
  pose proof (Z.div_mod t time.Second ltac:(done)) as Hdm.
  pose proof (Z.mod_pos_bound t time.Second ltac:(done)) as Hm. lia.
Qed.

Section with_platform.
Context `{Platform}.

Lemma issued_token_no_audience issuerDID subjectDID subject credentialID now :
  GetAudience (vc.issued_token issuerDID subjectDID subject credentialID now) =
  Err (ErrNoClaim "aud").
Proof.
  unfold vc.issued_token, GetAudience, GetString, Get, SetExpiration,
    SetIssuedAt, SetSubject, SetIssuer, SetTime, SetString, Set_, NewToken.
  destruct (String.eqb_spec credentialID EmptyString) as [->|Hne];
    cbn [claims mbind result_bind]; claim_lookup; done.
Qed.

Lemma created_token_no_credential holderDID credentials audience nonce idBytes
    now :
  let token :=
    presentation.created_token holderDID credentials audience nonce idBytes now
  in
  GetString "jti" token = Err (ErrNoClaim "jti") /\
  Get "vc" token = Err (ErrNoClaim "vc").
Proof.
  unfold presentation.created_token, GetString, Get, SetExpiration,
    SetIssuedAt, SetAudience, SetSubject, SetIssuer, SetTime, SetString, Set_,
    NewToken.
  cbn [claims mbind result_bind]; claim_lookup; done.
Qed.

(** A credential token offered as a presentation. *)
Lemma VerifyPresentation_issued pub priv issuerDID subjectDID subject
    credentialID now expectedAudience expectedNonce now_parser now_check :
  KeyPair pub priv ->
  presentation.VerifyPresentation
    (v4_public_sign priv
       (vc.issued_token issuerDID subjectDID subject credentialID now))
    pub expectedAudience expectedNonce now_parser now_check =
  if time.After now_parser (vc.credential_expiry now)
  then Err (presentation.ErrPaseto ErrExpired)
  else Err (presentation.ErrPaseto (ErrNoClaim "aud")).
Proof.
  intros Hkp. destruct (key_sizes pub priv Hkp) as [Hpub _].
  pose proof (issued_token_claims issuerDID subjectDID subject credentialID now)
    as (Hiss & Hsub & Hiat & Hexp & Hjti & Hvc).
  unfold presentation.VerifyPresentation. rewrite new_public_key by done.
  cbn [presentation.lift mbind result_bind]. unfold ParseV4Public.
  cbn [public_material]. rewrite open_own_token by done.
  cbn [mbind result_bind NewParser rules validate]. unfold NotExpired.
  rewrite Hexp. cbn [mbind result_bind].
  destruct (time.After now_parser (vc.credential_expiry now)); [done|].
  cbn [presentation.lift mbind result_bind].
  rewrite Hiss, Hsub, issued_token_no_audience. done.
Qed.

(** A presentation token offered as a credential. *)
Lemma VerifyVC_created pub priv holderDID credentials audience nonce idBytes
    now now' :
  KeyPair pub priv ->
  vc.VerifyVC
    (v4_public_sign priv
       (presentation.created_token holderDID credentials audience nonce
          idBytes now))
    pub now' =
  if time.After now' (presentation.presentation_expiry now)
  then Err (vc.ErrPaseto ErrExpired)
  else Err (vc.ErrPaseto (ErrNoClaim "vc")).
Proof.
  intros Hkp. destruct (key_sizes pub priv Hkp) as [Hpub _].
  pose proof (created_token_claims holderDID credentials audience nonce
                idBytes now) as (Hiss & Hsub & Haud & Hiat & Hexp & Hnonce & Hvp).
  pose proof (created_token_no_credential holderDID credentials audience nonce
                idBytes now) as (Hjti & Hvc).
  unfold vc.VerifyVC. rewrite new_public_key by done.
  cbn [vc.lift mbind result_bind]. unfold ParseV4Public.
  cbn [public_material]. rewrite open_own_token by done.
  cbn [mbind result_bind NewParser rules validate]. unfold NotExpired.
  rewrite Hexp. cbn [mbind result_bind].
  destruct (time.After now' (presentation.presentation_expiry now)); [done|].
  cbn [vc.lift mbind result_bind].
  rewrite Hiss, Hsub, Hiat, Hexp, Hvc. done.
Qed.

End with_platform.


(** X15. With a public key that is not 32 bytes long, [VerifyVC] and
    [VerifyPresentation] fail with the key-length error, whatever the token
    is and at any time. *)
Theorem verification_key_length `{Platform} (publicKey : bytes)
    (tokenString expectedAudience expectedNonce : string)
    (now_parser now : Time) :
  length publicKey <> PublicKeySize ->
  vc.VerifyVC tokenString publicKey now = Err (vc.ErrPaseto ErrKeyLength) /\
  presentation.VerifyPresentation tokenString publicKey expectedAudience
    expectedNonce now_parser now = Err (presentation.ErrPaseto ErrKeyLength).
Proof.
  intros Hlen. apply Nat.eqb_neq in Hlen.
  unfold vc.VerifyVC, presentation.VerifyPresentation,
    NewV4AsymmetricPublicKeyFromBytes.
  by rewrite Hlen.
Qed.

Lemma verification_key_length_witness :
  vc.VerifyVC (H := Toy.platform) "v4.public.token" (take 31 Toy.sample_pub) t0
  = Err (vc.ErrPaseto ErrKeyLength) /\
  presentation.VerifyPresentation (H := Toy.platform) "v4.public.token"
    (take 31 Toy.sample_pub) "did:key:z6MkVerifier" "test-nonce-12345" t0 t0
  = Err (presentation.ErrPaseto ErrKeyLength).
Proof.
  apply (verification_key_length (H := Toy.platform)). vm_compute. lia.
Defined.

(** X16. The checks of [CreatePresentation], in their order: an empty list
    of credentials gives [ErrNoCredentials] whatever the key is; then a
    private key that is not 64 bytes long gives the key-length error, and a
    64-byte key whose second half is not the public key of its first half
    gives "key was not valid", before any random byte is asked for; then,
    with the private key of a key pair, an error of the random source is
    returned as [ErrRand]; otherwise a token is returned. *)
Theorem CreatePresentation_checks `{Platform} (holderDID : string)
    (holderPrivateKey : bytes) (credentials : list string)
    (audience nonce : string) (random : result string bytes) (now : Time) :
  let res := presentation.CreatePresentation holderDID holderPrivateKey
               credentials audience nonce random now in
  (credentials = [] -> res = Err presentation.ErrNoCredentials) /\
  (credentials <> [] -> length holderPrivateKey <> PrivateKeySize ->
     res = Err (presentation.ErrPaseto ErrKeyLength)) /\
  (credentials <> [] -> length holderPrivateKey = PrivateKeySize ->
   drop SeedSize holderPrivateKey <>
     ed25519_public (take SeedSize holderPrivateKey) ->
     res = Err (presentation.ErrPaseto ErrKeyInvalid)) /\
  (credentials <> [] -> (exists pub, KeyPair pub holderPrivateKey) ->
     (forall err, random = Err err -> res = Err (presentation.ErrRand err)) /\
     (forall idBytes, random = Ok idBytes -> exists token, res = Ok token)).
Proof.
  intros res. unfold res, presentation.CreatePresentation. split; [by intros ->|].
  split; [|split].
  - intros Hne Hlen. destruct credentials; [done|]. cbn [length Nat.eqb].
    unfold NewV4AsymmetricSecretKeyFromBytes.
    apply Nat.eqb_neq in Hlen. by rewrite Hlen.
  - intros Hne Hlen Hkey. destruct credentials; [done|]. cbn [length Nat.eqb].
    unfold NewV4AsymmetricSecretKeyFromBytes.
    rewrite Hlen, Nat.eqb_refl. simpl.
    destruct (equal _ _) eqn:Heq; [|done]. by apply equal_eq in Heq.
  - intros Hne [pub Hkp]. destruct credentials; [done|]. cbn [length Nat.eqb].
    rewrite (new_secret_key pub) by done.
    cbn [presentation.lift mbind result_bind].
    split.
    + by intros err ->.
    + intros idBytes ->. by eexists.
Qed.

(** X17. A credential token is never accepted as a presentation, nor a
    presentation token as a credential, even with the signer's own public
    key: before the token expires [VerifyPresentation] misses the audience
    claim and [VerifyVC] the credential claim, and afterwards the expiry rule
    rejects it. *)
Theorem tokens_are_not_interchangeable `{Platform} (pub priv : bytes)
    (issuerDID subjectDID : string) (subject : vc.CredentialSubject)
    (credentialID : string) (credentials : list string)
    (audience nonce : string) (idBytes : bytes) (now : Time) :
  KeyPair pub priv ->
  credentials <> [] ->
  exists credential presented,
    vc.IssueVCWithID issuerDID subjectDID (vc.Ed25519PrivateKey priv) subject
      credentialID now = Ok credential /\
    presentation.CreatePresentation issuerDID priv credentials audience nonce
      (Ok idBytes) now = Ok presented /\
    (forall expectedAudience expectedNonce now_parser now_check,
       presentation.VerifyPresentation credential pub expectedAudience
         expectedNonce now_parser now_check =
       if time.After now_parser (vc.credential_expiry now)
       then Err (presentation.ErrPaseto ErrExpired)
       else Err (presentation.ErrPaseto (ErrNoClaim "aud"))) /\
    (forall now',
       vc.VerifyVC presented pub now' =
       if time.After now' (presentation.presentation_expiry now)
       then Err (vc.ErrPaseto ErrExpired)
       else Err (vc.ErrPaseto (ErrNoClaim "vc"))).
Proof.
  intros Hkp Hne.
  eexists _, _. split; [by apply (IssueVCWithID_token pub)|].
  split; [by apply (CreatePresentation_token pub)|]. split.
  - intros. by apply VerifyPresentation_issued.
  - intros. by apply VerifyVC_created.
Qed.

Lemma tokens_are_not_interchangeable_witness :
  exists credential presented,
    vc.IssueVCWithID (H := Toy.platform) "did:key:zIssuer" "did:key:zSubject"
      (vc.Ed25519PrivateKey Toy.sample_priv) sample_identity "urn:uuid:1" t0
    = Ok credential /\
    presentation.CreatePresentation (H := Toy.platform) "did:key:zIssuer"
      Toy.sample_priv ["v4.public.first"] "did:key:z6MkVerifier"
      "test-nonce-12345" (Ok (replicate 16 x2a)) t0 = Ok presented /\
    presentation.VerifyPresentation (H := Toy.platform) credential
      Toy.sample_pub EmptyString EmptyString t0 t0 =
    Err (presentation.ErrPaseto (ErrNoClaim "aud")) /\
    vc.VerifyVC (H := Toy.platform) presented Toy.sample_pub t0 =
    Err (vc.ErrPaseto (ErrNoClaim "vc")).
Proof.
  destruct (tokens_are_not_interchangeable (H := Toy.platform)
              Toy.sample_pub Toy.sample_priv "did:key:zIssuer"
              "did:key:zSubject" sample_identity "urn:uuid:1"
              ["v4.public.first"] "did:key:z6MkVerifier" "test-nonce-12345"
              (replicate 16 x2a) t0 Toy.sample_key_pair ltac:(discriminate))
    as (credential & presented & Hc & Hp & Hvp & Hvc).
  exists credential, presented. split; [exact Hc|]. split; [exact Hp|].
  split; [apply (Hvp EmptyString EmptyString t0 t0)|apply (Hvc t0)].
Defined.

(** X18. The validity periods, as a verifier reads them: the claims that
    [VerifyVC] returns for an issued credential carry an issued-at that is
    the issue time cut to whole seconds and an expires-at exactly 365 days
    later; those that [VerifyPresentation] returns for a created
    presentation expire exactly 15 minutes after their issued-at. *)
Theorem validity_periods `{Platform} (pub priv : bytes)
    (issuerDID subjectDID : string) (subject : vc.CredentialSubject)
    (credentialID : string) (credentials : list string)
    (audience nonce : string) (idBytes : bytes) (now now' : Time) :
  KeyPair pub priv ->
  credentials <> [] ->
  exists credential presented,
    vc.IssueVCWithID issuerDID subjectDID (vc.Ed25519PrivateKey priv) subject
      credentialID now = Ok credential /\
    presentation.CreatePresentation issuerDID priv credentials audience nonce
      (Ok idBytes) now = Ok presented /\
    (forall claims,
       vc.VerifyVC credential pub now' = Ok claims ->
       (vc.IssuedAt claims <= now < vc.IssuedAt claims + time.Second)%Z /\
       vc.ExpiresAt claims =
         (vc.IssuedAt claims + 365 * 24 * 3600 * time.Second)%Z) /\
    (forall claims expectedAudience expectedNonce now_check,
       presentation.VerifyPresentation presented pub expectedAudience
         expectedNonce now' now_check = Ok claims ->
       (presentation.IssuedAt claims <= now
        < presentation.IssuedAt claims + time.Second)%Z /\
       presentation.ExpiresAt claims =
         (presentation.IssuedAt claims + 15 * 60 * time.Second)%Z).
Proof.
  intros Hkp Hne.
  eexists _, _. split; [by apply (IssueVCWithID_token pub)|].
  split; [by apply (CreatePresentation_token pub)|]. split.
  - intros claims. rewrite VerifyVC_issued by done.
    destruct (time.After now' (vc.credential_expiry now)); [done|].
    intros [= <-]. cbn [vc.IssuedAt vc.ExpiresAt vc.verified_claims].
    split; [apply whole_seconds_bounds|].
    unfold vc.credential_expiry.
    replace (365 * 24 * time.Hour)%Z with (365 * 24 * 3600 * time.Second)%Z
      by done.
    apply whole_seconds_add.
  - intros claims expectedAudience expectedNonce now_check.
    rewrite VerifyPresentation_created by done.
    repeat match goal with
           | |- (if ?b then _ else _) = _ -> _ => destruct b; [done|]
           end.
    intros [= <-].
    cbn [presentation.IssuedAt presentation.ExpiresAt
         presentation.verified_presentation].
    split; [apply whole_seconds_bounds|].
    unfold presentation.presentation_expiry.
    replace (15 * time.Minute)%Z with (15 * 60 * time.Second)%Z by done.
    apply whole_seconds_add.
Qed.

Lemma validity_periods_witness :
  exists credential presented,
    vc.IssueVCWithID (H := Toy.platform) "did:key:zIssuer" "did:key:zSubject"
      (vc.Ed25519PrivateKey Toy.sample_priv) sample_identity "urn:uuid:1"
      (t0 + 1)%Z = Ok credential /\
    presentation.CreatePresentation (H := Toy.platform) "did:key:zIssuer"
      Toy.sample_priv ["v4.public.first"] "did:key:z6MkVerifier"
      "test-nonce-12345" (Ok (replicate 16 x2a)) (t0 + 1)%Z = Ok presented /\
    (forall claims,
       vc.VerifyVC (H := Toy.platform) credential Toy.sample_pub (t0 + time.Minute)%Z
       = Ok claims ->
       (vc.IssuedAt claims <= t0 + 1 < vc.IssuedAt claims + time.Second)%Z /\
       vc.ExpiresAt claims =
         (vc.IssuedAt claims + 365 * 24 * 3600 * time.Second)%Z) /\
    (forall claims expectedAudience expectedNonce now_check,
       presentation.VerifyPresentation (H := Toy.platform) presented
         Toy.sample_pub expectedAudience expectedNonce (t0 + time.Minute)%Z now_check
       = Ok claims ->
       (presentation.IssuedAt claims <= t0 + 1
        < presentation.IssuedAt claims + time.Second)%Z /\
       presentation.ExpiresAt claims =
         (presentation.IssuedAt claims + 15 * 60 * time.Second)%Z).
Proof.
  apply (validity_periods (H := Toy.platform) Toy.sample_pub Toy.sample_priv).
  - apply Toy.sample_key_pair.
  - discriminate.
Defined.

(** X19. The verdict of [VerifyPresentation] on a created presentation,
    check by check: first the parser's expiry rule, then the audience when
    one is expected, then the nonce when one is expected, then the
    function's own expiry check, and only then the claims -- holder as
    issuer and subject, the audience and nonce of the creation, the
    presentation id made of the random bytes, the credential tokens.  Every
    string is compared and returned as the JSON encoder wrote it, with
    U+FFFD for each byte that is not part of well-formed UTF-8.  The
    function's own "presentation expired" can be the answer only when the
    presentation expires between the two readings of the clock. *)
Theorem VerifyPresentation_verdict `{Platform} (pub priv : bytes)
    (holderDID : string) (credentials : list string) (audience nonce : string)
    (idBytes : bytes) (now : Time) :
  KeyPair pub priv ->
  credentials <> [] ->
  exists token,
    presentation.CreatePresentation holderDID priv credentials audience nonce
      (Ok idBytes) now = Ok token /\
    forall expectedAudience expectedNonce now_parser now_check,
      let res := presentation.VerifyPresentation token pub expectedAudience
                   expectedNonce now_parser now_check in
      res =
        (if time.After now_parser (presentation.presentation_expiry now)
         then Err (presentation.ErrPaseto ErrExpired)
         else if negb (String.eqb expectedAudience EmptyString)
                 && negb (String.eqb (coerce audience) expectedAudience)
         then Err presentation.ErrAudienceMismatch
         else if negb (String.eqb expectedNonce EmptyString)
                 && negb (String.eqb (coerce nonce) expectedNonce)
         then Err presentation.ErrNonceMismatch
         else if time.After now_check (presentation.presentation_expiry now)
         then Err presentation.ErrPresentationExpired
         else Ok {| presentation.Issuer := coerce holderDID;
                    presentation.Subject := coerce holderDID;
                    presentation.Audience := coerce audience;
                    presentation.Nonce := coerce nonce;
                    presentation.IssuedAt := whole_seconds now;
                    presentation.ExpiresAt :=
                      whole_seconds (time.Add now (15 * time.Minute)%Z);
                    presentation.VP :=
                      {| presentation.vp_Context :=
                           ["https://www.w3.org/2018/credentials/v1"];
                         presentation.vp_Type := ["VerifiablePresentation"];
                         presentation.vp_ID := presentation.urn_uuid idBytes;
                         presentation.vp_Holder := coerce holderDID;
                         presentation.vp_VerifiableCredential :=
                           map coerce credentials
                      |} |}) /\
      (res = Err presentation.ErrPresentationExpired ->
       (now_parser <= presentation.presentation_expiry now < now_check)%Z).
Proof.
  intros Hkp Hne.
  eexists. split; [by apply (CreatePresentation_token pub)|].
  intros expectedAudience expectedNonce now_parser now_check res.
  unfold res. rewrite VerifyPresentation_created by done.
  split; [reflexivity|]. unfold time.After.
  destruct (Z.ltb_spec (presentation.presentation_expiry now) now_parser);
    [done|].
  repeat match goal with
         | |- (if ?b && ?c then _ else _) = _ -> _ => destruct (b && c); [done|]
         end.
  destruct (Z.ltb_spec (presentation.presentation_expiry now) now_check);
    [|done].
  intros _. lia.
Qed.

Lemma VerifyPresentation_verdict_witness :
  exists token,
    presentation.CreatePresentation (H := Toy.platform) "did:key:z6MkHolder"
      Toy.sample_priv ["v4.public.first"] "did:key:z6MkVerifier"
      "test-nonce-12345" (Ok (replicate 16 x2a)) t0 = Ok token /\
    presentation.VerifyPresentation (H := Toy.platform) token Toy.sample_pub
      "did:key:z6MkVerifier" "test-nonce-12345" (t0 + 15 * time.Minute)%Z
      (t0 + 15 * time.Minute + 1)%Z = Err presentation.ErrPresentationExpired.
Proof.
  destruct (VerifyPresentation_verdict (H := Toy.platform)
              Toy.sample_pub Toy.sample_priv "did:key:z6MkHolder"
              ["v4.public.first"] "did:key:z6MkVerifier" "test-nonce-12345"
              (replicate 16 x2a) t0 Toy.sample_key_pair ltac:(discriminate))
    as (token & Htoken & Hverdict).
  exists token. split; [exact Htoken|].
  destruct (Hverdict "did:key:z6MkVerifier" "test-nonce-12345"
              (t0 + 15 * time.Minute)%Z (t0 + 15 * time.Minute + 1)%Z)
    as [Hres _].
  exact Hres.
Defined.

(** X20. What a verifier finds in a verified credential.  The subject
    comes back as a map: the decoding into [interface{}] of the JSON object
    of the issued subject, whose [id] member is the subject's id as the
    encoder wrote it, and in which a whole number of up to 53 bits -- the
    credits of an education subject, say -- is that number.  The credential
    carries a status reference, of type RevocationRegistry2024 and with the
    credential id, exactly when a credential id was given at issuance. *)
Theorem verified_credential_payload `{Platform} (pub priv : bytes)
    (issuerDID subjectDID : string) (subject : vc.CredentialSubject)
    (credentialID : string) (now now' : Time) :
  KeyPair pub priv ->
  time.After now' (vc.credential_expiry now) = false ->
  exists token claims members decoded,
    vc.IssueVCWithID issuerDID subjectDID (vc.Ed25519PrivateKey priv) subject
      credentialID now = Ok token /\
    vc.VerifyVC token pub now' = Ok claims /\
    vc.marshal_subject subject = Object members /\
    to_interface (Object members) = Some (Object decoded) /\
    vc.vc_CredentialSubject (vc.VC claims) = vc.SubjectJSON (Object decoded) /\
    lookup "id" decoded = Some (Str (coerce (vc.GetID subject))) /\
    (forall s, subject = vc.Education s ->
       (0 < Z.abs (vc.edu_CreditsEarned s) < 2 ^ 53)%Z ->
       lookup "creditsEarned" decoded =
       Some (Number (vc.edu_CreditsEarned s))) /\
    vc.vc_CredentialStatus (vc.VC claims) =
      (if String.eqb credentialID EmptyString then None
       else Some {| vc.cs_ID := coerce credentialID;
                    vc.cs_Type := "RevocationRegistry2024" |}).
Proof.
  intros Hkp Hfresh.
  destruct (marshal_subject_decoded subject)
    as (members & decoded & Hm & Hdec & Hid).
  exists (v4_public_sign priv
            (vc.issued_token issuerDID subjectDID subject credentialID now)),
         (vc.verified_claims issuerDID subjectDID subject credentialID now),
         members, decoded.
  split; [by apply (IssueVCWithID_token pub)|].
  rewrite VerifyVC_issued, Hfresh by done. split; [reflexivity|].
  split; [exact Hm|]. split; [exact Hdec|].
  cbn [vc.VC vc.verified_claims vc.vc_CredentialSubject vc.vc_CredentialStatus].
  split; [unfold vc.decoded_subject; by rewrite Hm, Hdec|].
  split; [exact Hid|]. split; [|done].
  intros s -> Hcredits.
  change (to_interface (Object members)) with
    (Object <$> decode_members to_interface members []) in Hdec.
  destruct (decode_members to_interface members []) as [m|] eqn:Hmem;
    [|done].
  injection Hdec as ->. injection Hm as <-.
  rewrite (decode_members_lookup _ _ _ _ "creditsEarned" Hmem).
  cbn [rev]. rewrite !rev_app_distr, !lookup_app.
  unfold omitempty_int.
  rewrite int_small by (pose proof (Z.pow_lt_mono_r 2 53 63); lia).
  destruct (Z.eqb_spec (vc.edu_CreditsEarned s) 0) as [?|_]; [lia|].
  cbn [rev app lookup String.eqb Ascii.eqb Bool.eqb].
  cbn [to_interface]. rewrite float64_exact by lia. done.
Qed.

Lemma verified_credential_payload_witness :
  exists token claims members decoded,
    vc.IssueVCWithID (H := Toy.platform) "did:key:zUniversity"
      "did:key:zSubject" (vc.Ed25519PrivateKey Toy.sample_priv)
      sample_education "urn:uuid:1" t0 = Ok token /\
    vc.VerifyVC (H := Toy.platform) token Toy.sample_pub (t0 + day)%Z =
    Ok claims /\
    vc.marshal_subject sample_education = Object members /\
    to_interface (Object members) = Some (Object decoded) /\
    vc.vc_CredentialSubject (vc.VC claims) = vc.SubjectJSON (Object decoded) /\
    lookup "id" decoded = Some (Str (coerce (vc.GetID sample_education))) /\
    (forall s, sample_education = vc.Education s ->
       (0 < Z.abs (vc.edu_CreditsEarned s) < 2 ^ 53)%Z ->
       lookup "creditsEarned" decoded =
       Some (Number (vc.edu_CreditsEarned s))) /\
    vc.vc_CredentialStatus (vc.VC claims) =
      (if String.eqb "urn:uuid:1" EmptyString then None
       else Some {| vc.cs_ID := coerce "urn:uuid:1";
                    vc.cs_Type := "RevocationRegistry2024" |}).
Proof.
  apply (verified_credential_payload (H := Toy.platform)
           Toy.sample_pub Toy.sample_priv).
  - apply Toy.sample_key_pair.
  - reflexivity.
Defined.

End TokenFacts.

(** ** From the issuer to the verifier *)

Module IssuerToVerifier.
Import json jsonFacts paseto vcFacts revocationFacts registry_state
  RegistryFacts Examples.

Lemma Resolve_created_identifier pub :
  length pub = 32%nat ->
  resolver.ResolveDID
    ("did:key:" +:+ ("z" +:+ base58.Encode ([xed; x01] ++ pub))) = Ok pub.
Proof.
  intros Hlen. unfold resolver.ResolveDID.
  rewrite (resolverFacts.Resolve_parts _ _ _ _ _
             (IdentifierCodec.did_string pub)). simpl.
  by apply resolverFacts.resolveKey_encoded.
Qed.

(** An identifier that [CreateDIDKey] makes is ASCII: the JSON encoder
    leaves it as it is. *)
Lemma coerce_created_identifier pub :
  coerce ("did:key:" +:+ ("z" +:+ base58.Encode ([xed; x01] ++ pub))) =
  "did:key:" +:+ ("z" +:+ base58.Encode ([xed; x01] ++ pub)).
Proof.
  apply coerce_ascii.
  rewrite !list_ascii_of_string_app, !Forall_app.
  split; [by repeat constructor|]. split; [by repeat constructor|].
  rewrite base58Facts.Encode_chars. apply list.Forall_forall. intros c Hc.
  apply list_elem_of_fmap in Hc as (d & -> & Hd).
  pose proof (base58Facts.encoded_digits_range ([xed; x01] ++ pub)) as Hall.
  rewrite list.Forall_forall in Hall.
  pose proof (base58Facts.char_of_digit_low d (Hall d Hd)) as Hlow.
  apply N.ltb_ge in Hlow. lia.
Qed.

(** X21. The path from the issuer's program to the verifier's.  From a
    32-byte seed [GenerateEd25519Keypair] gives a 32-byte public and a
    64-byte private key; the issuer derives its identifier from the public
    key and signs the credential under that identifier; the verifier
    resolves the identifier to the public key, verifies the token with it
    while the credential has not expired, and finds in the claims the
    identifier of the issuer, unchanged -- it resolves to the key just
    used -- and the subject and the credential id as the JSON encoder wrote
    them: unchanged when they are valid UTF-8. *)
Theorem issuer_to_verifier `{Platform} (seed : bytes) (subjectDID : string)
    (subject : vc.CredentialSubject) (credentialID : string)
    (now now' : Time) :
  length seed = SeedSize ->
  time.After now' (vc.credential_expiry now) = false ->
  (forall err, crypto.GenerateEd25519Keypair (Err err) = Err err) /\
  exists pub priv d token claims,
    crypto.GenerateEd25519Keypair (Ok seed) = Ok (pub, priv) /\
    length pub = PublicKeySize /\ length priv = PrivateKeySize /\
    drop SeedSize priv = pub /\
    did.CreateDIDKey pub = Ok d /\
    vc.IssueVCWithID (did.DID d) subjectDID (vc.Ed25519PrivateKey priv)
      subject credentialID now = Ok token /\
    resolver.ResolveDID (did.DID d) = Ok pub /\
    vc.VerifyVC token pub now' = Ok claims /\
    vc.Issuer claims = did.DID d /\
    resolver.ResolveDID (vc.Issuer claims) = Ok pub /\
    vc.Subject claims = coerce subjectDID /\
    vc.GetCredentialID claims = coerce credentialID /\
    (ValidString subjectDID = true -> vc.Subject claims = subjectDID) /\
    (ValidString credentialID = true ->
     vc.GetCredentialID claims = credentialID).
Proof.
  intros Hseed Hfresh. split; [done|].
  assert (KeyPair (ed25519_public seed) (seed ++ ed25519_public seed)) as Hkp
    by (by exists seed).
  destruct (key_sizes _ _ Hkp) as [Hpub Hpriv].
  eexists _, _, _, _, _. split; [reflexivity|].
  split; [exact Hpub|]. split; [exact Hpriv|].
  split; [by rewrite <- Hseed, drop_app_length|].
  split; [reflexivity|].
  split; [by apply (IssueVCWithID_token (ed25519_public seed))|].
  split; [by apply Resolve_created_identifier|].
  rewrite VerifyVC_issued, Hfresh by done. split; [reflexivity|].
  cbn [vc.Issuer vc.Subject vc.verified_claims did.DID did.CreateDIDKey].
  rewrite coerce_created_identifier.
  split; [done|]. split; [by apply Resolve_created_identifier|].
  split; [done|].
  assert (vc.GetCredentialID
            (vc.verified_claims
               ("did:key:" +:+
                ("z" +:+ base58.Encode (did.ed25519Multicodec ++
                                        ed25519_public seed)))
               subjectDID subject credentialID now) = coerce credentialID)
    as Hid.
  { unfold vc.GetCredentialID. cbn [vc.JTI vc.VC vc.vc_ID vc.verified_claims].
    by destruct (String.eqb_spec (coerce credentialID) EmptyString) as [->|]. }
  split; [exact Hid|]. split.
  - by intros ->%ValidString_coerce.
  - intros Hvalid%ValidString_coerce. by rewrite Hid.
Qed.

Lemma issuer_to_verifier_witness :
  exists pub priv d token claims,
    crypto.GenerateEd25519Keypair (H := Toy.platform) (Ok Toy.sample_seed) =
    Ok (pub, priv) /\
    did.CreateDIDKey pub = Ok d /\
    vc.IssueVCWithID (H := Toy.platform) (did.DID d) "did:key:zSubject"
      (vc.Ed25519PrivateKey priv) sample_identity "urn:uuid:1" t0 = Ok token /\
    resolver.ResolveDID (did.DID d) = Ok pub /\
    vc.VerifyVC (H := Toy.platform) token pub (t0 + day)%Z = Ok claims /\
    resolver.ResolveDID (vc.Issuer claims) = Ok pub /\
    vc.GetCredentialID claims = "urn:uuid:1".
Proof.
  destruct (issuer_to_verifier (H := Toy.platform) Toy.sample_seed
              "did:key:zSubject" sample_identity "urn:uuid:1" t0 (t0 + day)%Z
              eq_refl eq_refl)
    as (_ & pub & priv & d & token & claims & Hgen & _ & _ & _ & Hd & Htoken &
        Hres & Hver & _ & Hiss & _ & _ & _ & Hid).
  exists pub, priv, d, token, claims.
  repeat split; try assumption. by apply Hid.
Defined.

(** X22. The issuer's registry and the verifier's check.  For an issuer, a
    subject and a credential id that are valid UTF-8: when the issuer
    registers the credential under the id it put into the token, the id that
    [GetCredentialID] reads from the verified claims finds the entry, whose
    issuer and subject are those of the claims; [IsRevoked] answers false
    for it, and true once the issuer has revoked the credential. *)
Theorem registered_credential_is_checkable `{Platform} (pub priv : bytes)
    (issuerDID subjectDID : string) (subject : vc.CredentialSubject)
    (credentialID reason : string) (now now' revokedAt : Time)
    (io io' : option string) (r : revocation.Registry) :
  KeyPair pub priv ->
  ValidString issuerDID = true ->
  ValidString subjectDID = true ->
  ValidString credentialID = true ->
  time.After now' (vc.credential_expiry now) = false ->
  exists token claims e,
    vc.IssueVCWithID issuerDID subjectDID (vc.Ed25519PrivateKey priv) subject
      credentialID now = Ok token /\
    vc.VerifyVC token pub now' = Ok claims /\
    let r1 := snd (revocation.Register credentialID issuerDID subjectDID now io r) in
    let r2 := snd (revocation.Revoke credentialID reason revokedAt io' r1) in
    revocation.stored r1 (vc.GetCredentialID claims) = Some e /\
    revocation.IssuerDID e = vc.Issuer claims /\
    revocation.SubjectDID e = vc.Subject claims /\
    revocation.IsRevoked (vc.GetCredentialID claims) r1 = Ok false /\
    revocation.IsRevoked (vc.GetCredentialID claims) r2 = Ok true /\
    revocation.stored r2 (vc.GetCredentialID claims) =
      Some (revocation.revoked_entry e revokedAt reason).
Proof.
  intros Hkp Hiss%ValidString_coerce Hsub%ValidString_coerce
    Hcid%ValidString_coerce Hfresh.
  eexists _, _, (active_entry credentialID issuerDID subjectDID now).
  split; [by apply (IssueVCWithID_token pub)|].
  rewrite VerifyVC_issued, Hfresh by done. split; [reflexivity|].
  intros r1 r2.
  assert (vc.GetCredentialID
            (vc.verified_claims issuerDID subjectDID subject credentialID now)
          = credentialID) as ->.
  { unfold vc.GetCredentialID. cbn [vc.JTI vc.VC vc.vc_ID vc.verified_claims].
    rewrite Hcid.
    by destruct (String.eqb_spec credentialID EmptyString) as [->|]. }
  cbn [vc.Issuer vc.Subject vc.verified_claims]. rewrite Hiss, Hsub.
  pose proof (Register_stored credentialID issuerDID subjectDID now io r) as Hs.
  fold r1 in Hs. split; [exact Hs|]. split; [done|]. split; [done|].
  apply stored_Some in Hs as (p & Hp & He).
  split; [unfold revocation.IsRevoked, revocation.CheckStatus; by rewrite Hp, He|].
  assert (r2 =
          revocation.poke p
            (revocation.revoked_entry
               (active_entry credentialID issuerDID subjectDID now)
               revokedAt reason) r1) as ->.
  { unfold r2, revocation.Revoke. by rewrite Hp, He. }
  unfold revocation.IsRevoked, revocation.CheckStatus, revocation.stored.
  cbn [revocation.entries revocation.heap revocation.poke].
  rewrite Hp. cbn [mbind option_bind]. by rewrite lookup_insert_eq.
Qed.

Lemma registered_credential_is_checkable_witness :
  exists token claims e,
    vc.IssueVCWithID (H := Toy.platform) "did:key:zIssuer" "did:key:zSubject"
      (vc.Ed25519PrivateKey Toy.sample_priv) sample_identity sample_id t0
    = Ok token /\
    vc.VerifyVC (H := Toy.platform) token Toy.sample_pub (t0 + day)%Z =
    Ok claims /\
    let r1 := snd (revocation.Register sample_id "did:key:zIssuer"
                     "did:key:zSubject" t0 None revocation.NewRegistry) in
    let r2 := snd (revocation.Revoke sample_id "fraud detected"
                     (t0 + 1)%Z None r1) in
    revocation.stored r1 (vc.GetCredentialID claims) = Some e /\
    revocation.IssuerDID e = vc.Issuer claims /\
    revocation.SubjectDID e = vc.Subject claims /\
    revocation.IsRevoked (vc.GetCredentialID claims) r1 = Ok false /\
    revocation.IsRevoked (vc.GetCredentialID claims) r2 = Ok true /\
    revocation.stored r2 (vc.GetCredentialID claims) =
      Some (revocation.revoked_entry e (t0 + 1)%Z "fraud detected").
Proof.
  apply (registered_credential_is_checkable (H := Toy.platform)
           Toy.sample_pub Toy.sample_priv).
  - apply Toy.sample_key_pair.
  - reflexivity.
  - reflexivity.
  - reflexivity.
  - reflexivity.
Defined.

End IssuerToVerifier.

(** ** The wallet *)

Module WalletFacts.
Import storage Examples WalletExamples.

Lemma wallet_step_keyed w o : keyed w -> keyed (step w o).
Proof.
  intros Hk. destruct o as [pub priv did ns io|cred now ns io|id ns io|ns io];
    cbn [step]; try exact Hk.
  - unfold AddCredential.
    destruct (Credentials (data w) !! ID cred) eqn:Hc; [exact Hk|].
    intros id c. simpl.
    destruct (decide (ID cred = id)) as [<-|Hne].
    + rewrite lookup_insert_eq. by intros [= <-].
    + rewrite lookup_insert_ne by done. apply Hk.
  - unfold RemoveCredential.
    destruct (Credentials (data w) !! id) eqn:Hc; [|exact Hk].
    intros id' c. simpl. intros Hd. apply lookup_delete_Some in Hd as [_ Hd].
    by apply Hk.
Qed.

Lemma wallet_run_keyed ops w : keyed w -> keyed (run ops w).
Proof.
  revert w. induction ops as [|o ops IH]; intros w Hk; [done|].
  simpl. by apply IH, wallet_step_keyed.
Qed.

Lemma step_fixed w o :
  path (step w o) = path w /\ passphrase (step w o) = passphrase w /\
  Version (data (step w o)) = Version (data w) /\
  CreatedAt (data (step w o)) = CreatedAt (data w).
Proof.
  destruct o as [pub priv did ns io|cred now ns io|id ns io|ns io];
    cbn [step]; try done.
  - unfold AddCredential. by destruct (Credentials (data w) !! ID cred).
  - unfold RemoveCredential. by destruct (Credentials (data w) !! id).
Qed.

Lemma run_fixed ops w :
  path (run ops w) = path w /\ passphrase (run ops w) = passphrase w /\
  Version (data (run ops w)) = Version (data w) /\
  CreatedAt (data (run ops w)) = CreatedAt (data w).
Proof.
  revert w. induction ops as [|o ops IH]; intros w; [done|].
  simpl. destruct (IH (step w o)) as (-> & -> & -> & ->). apply step_fixed.
Qed.

Lemma keyed_ids (l : list (string * StoredCredential)) :
  (forall id cred, (id, cred) ∈ l -> ID cred = id) ->
  ID <$> l.*2 = l.*1.
Proof.
  induction l as [|[id cred] l IH]; intros Hk; [done|].
  simpl. rewrite (Hk id cred) by left. f_equal. apply IH.
  intros id' cred' Hin. apply Hk. by right.
Qed.

Lemma elem_of_ListCredentials w cred :
  cred ∈ ListCredentials w <->
  exists id, Credentials (data w) !! id = Some cred.
Proof.
  unfold ListCredentials. rewrite list_elem_of_fmap. split.
  - intros ([id c] & -> & Hin). exists id. by apply elem_of_map_to_list.
  - intros (id & Hid). exists (id, cred). split; [done|].
    by apply elem_of_map_to_list.
Qed.

(** X23. [AddCredential] refuses, with [ErrCredentialExists], exactly the
    credentials whose id is already in the wallet, and then leaves the
    wallet as it was.  Otherwise it stores the credential under its id with
    the stored-at set to the current time, touching no other credential,
    neither the keys nor the identifier; it returns the outcome of [Save],
    and the credential is in the wallet even when [Save] fails. *)
Theorem AddCredential_outcomes (w : Wallet) (cred : StoredCredential)
    (now now_save : Time) (io : option string) :
  let res := fst (AddCredential cred now now_save io w) in
  let w' := snd (AddCredential cred now now_save io w) in
  (res = Err ErrCredentialExists <->
   is_Some (Credentials (data w) !! ID cred)) /\
  (is_Some (Credentials (data w) !! ID cred) -> w' = w) /\
  (Credentials (data w) !! ID cred = None ->
     res = match io with None => Ok tt | Some msg => Err (ErrIO msg) end /\
     GetCredential (ID cred) w' = Ok (stored_at cred now) /\
     (forall id, id <> ID cred -> GetCredential id w' = GetCredential id w) /\
     UpdatedAt (data w') = now_save /\
     GetKeys w' = GetKeys w /\ GetDID w' = GetDID w).
Proof.
  intros res w'. unfold res, w', AddCredential.
  destruct (Credentials (data w) !! ID cred) as [c|] eqn:Hc.
  - split; [split; [by eexists|done]|]. split; [done|]. done.
  - split; [split; [by destruct io|by intros [? ?]]|].
    split; [by intros [? ?]|]. intros _. split; [done|].
    unfold GetCredential. simpl. rewrite lookup_insert_eq.
    split; [done|]. split; [|done].
    intros id Hne. by rewrite lookup_insert_ne.
Qed.

(** X24. [RemoveCredential] fails, with "credential not found", exactly
    when the id is not in the wallet, and then leaves the wallet as it was.
    Otherwise the credential is gone -- [GetCredential] no longer finds it
    and the id can be added again -- and no other credential is touched.
    Removing a credential that was just added to a wallet that did not have
    it gives back the credentials the wallet had. *)
Theorem RemoveCredential_outcomes (w : Wallet) (id : string)
    (now_save : Time) (io : option string) :
  let res := fst (RemoveCredential id now_save io w) in
  let w' := snd (RemoveCredential id now_save io w) in
  (res = Err ErrCredentialNotFound <-> Credentials (data w) !! id = None) /\
  (Credentials (data w) !! id = None -> w' = w) /\
  (is_Some (Credentials (data w) !! id) ->
     res = match io with None => Ok tt | Some msg => Err (ErrIO msg) end /\
     GetCredential id w' = Err ErrCredentialNotFound /\
     (forall id', id' <> id -> GetCredential id' w' = GetCredential id' w)) /\
  (forall cred now now_save' io',
     ID cred = id -> Credentials (data w) !! id = None ->
     Credentials
       (data (snd (RemoveCredential id now_save io
                     (snd (AddCredential cred now now_save' io' w))))) =
     Credentials (data w)).
Proof.
  intros res w'. unfold res, w', RemoveCredential.
  split; [|split; [|split]].
  - destruct (Credentials (data w) !! id) as [c|] eqn:Hc; [|done].
    split; [by destruct io|done].
  - by intros ->.
  - intros [c Hc]. rewrite Hc. split; [done|].
    unfold GetCredential. simpl. rewrite lookup_delete_eq. split; [done|].
    intros id' Hne. by rewrite lookup_delete_ne.
  - intros cred now now_save' io' <- Hc. unfold AddCredential. rewrite Hc.
    simpl. rewrite lookup_insert_eq. simpl. by rewrite delete_insert_id.
Qed.

(** X25. [SetKeys] stores the keys and the identifier and touches no
    credential; after it [GetDID] returns the identifier, and [GetKeys]
    returns the two keys unless the public key is empty: then it reports
    that no keys are stored, whatever the private key is. *)
Theorem SetKeys_GetKeys (w : Wallet) (pub priv : bytes) (did : string)
    (now_save : Time) (io : option string) :
  let res := fst (SetKeys pub priv did now_save io w) in
  let w' := snd (SetKeys pub priv did now_save io w) in
  res = match io with None => Ok tt | Some msg => Err (ErrIO msg) end /\
  GetDID w' = did /\
  (pub = [] -> GetKeys w' = Err ErrNoKeys) /\
  (pub <> [] -> GetKeys w' = Ok (pub, priv)) /\
  Credentials (data w') = Credentials (data w).
Proof.
  intros res w'. split; [done|]. split; [done|]. unfold w', GetKeys. simpl.
  split; [by intros ->|]. split; [|done]. by destruct pub.
Qed.

Lemma listing_of_keyed w :
  keyed w ->
  (forall cred, cred ∈ ListCredentials w <-> GetCredential (ID cred) w = Ok cred) /\
  NoDup (ID <$> ListCredentials w) /\
  length (ListCredentials w) = size (Credentials (data w)).
Proof.
  intros Hk. split; [|split].
  - intros cred. split.
    + intros Hin. apply elem_of_ListCredentials in Hin as (id & Hid).
      unfold GetCredential. by rewrite (Hk id cred Hid), Hid.
    + unfold GetCredential.
      destruct (Credentials (data w) !! ID cred) as [c|] eqn:Hc; [|done].
      intros [= ->]. apply elem_of_ListCredentials. by eexists.
  - unfold ListCredentials. rewrite keyed_ids.
    + apply NoDup_fst_map_to_list.
    + intros id cred Hin. apply elem_of_map_to_list in Hin. by apply Hk.
  - unfold ListCredentials. rewrite length_fmap. apply length_map_to_list.
Qed.

(** X26. A wallet as [CreateWallet] returns it has version 1, no keys, no
    identifier and no credential.  Whatever is done with it afterwards, its
    path, passphrase, version and creation time stay, every credential is
    stored under its own id, and [ListCredentials] returns exactly the
    credentials that [GetCredential] finds, no two of them with the same
    id.  No wallet is made where a file exists already. *)
Theorem created_wallet (path passphrase : string) (file_exists : bool)
    (mkdir : option string) (now now_save : Time) (io : option string)
    (w0 : Wallet) (ops : list op) :
  CreateWallet path passphrase file_exists mkdir now now_save io = Ok w0 ->
  (file_exists = false /\ mkdir = None /\ io = None) /\
  (Version (data w0) = 1%Z /\ CreatedAt (data w0) = now /\
   UpdatedAt (data w0) = now_save /\ GetDID w0 = EmptyString /\
   GetKeys w0 = Err ErrNoKeys /\ ListCredentials w0 = []) /\
  let w := run ops w0 in
  storage.path w = path /\ storage.passphrase w = passphrase /\
  Version (data w) = 1%Z /\ CreatedAt (data w) = now /\
  (forall cred, cred ∈ ListCredentials w <-> GetCredential (ID cred) w = Ok cred) /\
  NoDup (ID <$> ListCredentials w) /\
  length (ListCredentials w) = size (Credentials (data w)).
Proof.
  unfold CreateWallet. destruct file_exists; [done|].
  destruct mkdir as [msg|]; [done|]. destruct io as [msg|]; [done|].
  cbn [Save fst snd]. intros [= <-]. split; [done|].
  split; [by repeat split|].
  destruct (run_fixed ops
              (with_data
                 {| path := path; passphrase := passphrase;
                    data := {| Version := 1; CreatedAt := now;
                               UpdatedAt := now; DID := EmptyString;
                               Keys := {| PublicKey := []; PrivateKey := [] |};
                               Credentials := ∅ |} |}
                 {| Version := 1; CreatedAt := now; UpdatedAt := now_save;
                    DID := EmptyString;
                    Keys := {| PublicKey := []; PrivateKey := [] |};
                    Credentials := ∅ |}))
    as (Hpath & Hpass & Hver & Hcreated).
  do 4 (split; [done|]).
  apply listing_of_keyed, wallet_run_keyed.
  intros id cred. simpl. by rewrite lookup_empty.
Qed.

Lemma created_wallet_witness :
  exists w0,
    CreateWallet "wallet.json" "correct horse" false None t0 t0 None = Ok w0 /\
    let w := run [OpAddCredential sample_credential (t0 + 1)%Z (t0 + 2)%Z None;
                  OpSetKeys Toy.sample_pub Toy.sample_priv sample_did
                    (t0 + 3)%Z (Some "disk full")] w0 in
    GetCredential sample_id w = Ok (stored_at sample_credential (t0 + 1)%Z) /\
    NoDup (ID <$> ListCredentials w) /\
    length (ListCredentials w) = size (Credentials (data w)).
Proof.
  eexists. split; [reflexivity|].
  destruct (created_wallet "wallet.json" "correct horse" false None t0 t0 None
              _ [OpAddCredential sample_credential (t0 + 1)%Z (t0 + 2)%Z None;
                 OpSetKeys Toy.sample_pub Toy.sample_priv sample_did
                   (t0 + 3)%Z (Some "disk full")] eq_refl)
    as (_ & _ & _ & _ & _ & _ & Hlist & Hnodup & Hlen).
  split; [|split; [exact Hnodup|exact Hlen]].
  vm_compute. reflexivity.
Defined.

End WalletFacts.
